(** * ARDR: Adaptive Recurrent Dendritic Reasoning -- the pipeline orchestrator

    A shallow embedding of the orchestrator of [ARDR.ts], [ARDR_stages.ts],
    [ARDR_utils.ts], [ARDR_types.ts] and [ARDR_models.ts], and the properties
    of its specification checked against it.

    Conventions of the embedding.
    - A JavaScript number is an exact rational ([Q]); the values a division
      by zero yields ([NaN], the infinities) are kept apart in [num].
      Rounding to IEEE doubles is not modelled, except at the two ends of
      their range, where [JSON.parse] is followed: a literal too large for
      a double is read as an infinity, one too small as 0.
    - A JavaScript string is a [string] of bytes, the UTF-8 encoding of its
      text.
    - The inference provider and the wall clock are the environment: the
      [World] holds what the provider answers to the n-th request issued,
      how long each answer takes, and what the clock reads. An error of the
      provider is an [Error] with a message.
    - A request is recorded by its model, the role its system prompt gives
      the model, its token ceiling and whether it streams; the text of the
      prompts is left out.
    - The calls of a fan-out ([Promise.all]) are issued in the order of the
      array; their continuations run in the order in which the replies
      arrive, which the latencies of the replies fix.
    - Values read out of a parsed response are checked against the type the
      TypeScript interface declares for the field that receives them; a
      response that carries a truthy value of another type, or an infinity
      where a number is declared, takes the run out of the embedding
      (outcome [IllTyped]).
    - Console output is left out, and with it the time [log] stamps each
      line with, except the section banner each stage prints on entry,
      which the [World] records; the clock of the [World] is the one that
      [Date.now()] reads for the entries of the scratchpad. The [debug]
      flag, which only adds console output, is left out too. *)

From Stdlib Require Import ZArith QArith Qround Qabs Lqa Lia Bool List Ascii String.
From Stdlib Require Import Permutation Sorted.
From stdpp Require Import gmap strings.

Import ListNotations.
#[local] Set Warnings "-register-all".
#[local] Arguments String.append !s1 s2 : simpl nomatch.
#[local] Open Scope string_scope.
#[local] Open Scope list_scope.
#[local] Open Scope Z_scope.
#[local] Open Scope Q_scope.

(** ** JavaScript numbers *)

Module Num.

Inductive num : Type :=
| Fin (q : Q)
| NaN
| PInf
| NInf.

Definition Qis0 (q : Q) : bool := Qeq_bool q 0.
Definition Qltb (a b : Q) : bool := negb (Qle_bool b a).

(** [x / y]; the sign of a zero is not modelled, a zero divisor counts
    as [+0]. *)
Definition div (x y : num) : num :=
  match x, y with
  | NaN, _ | _, NaN => NaN
  | Fin a, Fin b =>
      if Qis0 b then
        if Qis0 a then NaN else if Qltb 0 a then PInf else NInf
      else Fin (a / b)
  | Fin _, _ => Fin 0
  | _, PInf | _, NInf => NaN
  | PInf, Fin b => if Qltb b 0 then NInf else PInf
  | NInf, Fin b => if Qltb b 0 then PInf else NInf
  end.

(** [Math.min] on finite operands. *)
Definition Math_min (a b : Q) : Q := if Qltb b a then b else a.

Definition neg (x : num) : num :=
  match x with
  | Fin q => Fin (- q)
  | NaN => NaN
  | PInf => NInf
  | NInf => PInf
  end.

Definition add (x y : num) : num :=
  match x, y with
  | NaN, _ | _, NaN => NaN
  | Fin a, Fin b => Fin (a + b)
  | PInf, NInf | NInf, PInf => NaN
  | PInf, _ | _, PInf => PInf
  | NInf, _ | _, NInf => NInf
  end.

Definition sub (x y : num) : num := add x (neg y).

(** [x < y]; any comparison with [NaN] is false. *)
Definition ltb (x y : num) : bool :=
  match x, y with
  | NaN, _ | _, NaN => false
  | Fin a, Fin b => Qltb a b
  | NInf, NInf => false
  | NInf, _ => true
  | _, PInf => match x with PInf => false | _ => true end
  | _, _ => false
  end.

Definition in_unit (x : num) : Prop :=
  match x with
  | Fin q => 0 <= q /\ q <= 1
  | _ => False
  end.

End Num.
Export Num.

(** ** JSON values and [JSON.parse] *)

Inductive json : Type :=
| JNull
| JBool (b : bool)
| JNum (q : Q)
| JInf (negative : bool)      (* a number literal beyond the largest double *)
| JStr (s : string)
| JArr (items : list json)
| JObj (fields : list (string * json)).

(** The built-in [JSON.parse], after the grammar of JSON (ECMA-404): one
    pass over the characters makes the tokens, a pushdown automaton over
    the tokens makes the value. *)
Module JsonParse.

#[local] Open Scope char_scope.

Inductive token : Type :=
| TLBrace | TRBrace | TLBracket | TRBracket | TColon | TComma
| TString (s : string)
| TAtom (s : string).

(** *** Lexer: one pass over the characters *)

Inductive lexmode : Type :=
| LIdle
| LAtom (rev_buf : list ascii)
| LStr (rev_buf : list ascii)
| LEsc (rev_buf : list ascii)
| LHex (rev_buf : list ascii) (digits : list N).

Definition string_of_rev (rev_buf : list ascii) : string :=
  string_of_list_ascii (List.rev rev_buf).

Definition is_ws (c : ascii) : bool :=
  match c with
  | " " | "009" | "010" | "013" => true
  | _ => false
  end.

Definition punct (c : ascii) : option token :=
  match c with
  | "{" => Some TLBrace
  | "}" => Some TRBrace
  | "[" => Some TLBracket
  | "]" => Some TRBracket
  | ":" => Some TColon
  | "," => Some TComma
  | _ => None
  end.

Definition is_Some_b {A} (o : option A) : bool :=
  match o with Some _ => true | None => false end.

Definition hex_val (c : ascii) : option N :=
  let n := N_of_ascii c in
  if (48 <=? n)%N && (n <=? 57)%N then Some (n - 48)%N
  else if (65 <=? n)%N && (n <=? 70)%N then Some (n - 55)%N
  else if (97 <=? n)%N && (n <=? 102)%N then Some (n - 87)%N
  else None.

(** The bytes (UTF-8) of the code unit a [\uXXXX] escape denotes, last
    byte first. *)
Definition rev_utf8 (code : N) : list ascii :=
  if (code <? 128)%N then [ascii_of_N code]
  else if (code <? 2048)%N then
    [ascii_of_N (128 + code mod 64); ascii_of_N (192 + code / 64)]
  else
    [ascii_of_N (128 + code mod 64); ascii_of_N (128 + (code / 64) mod 64);
     ascii_of_N (224 + code / 4096)].

Definition lex_idle (c : ascii) : option (lexmode * list token) :=
  if is_ws c then Some (LIdle, [])
  else match punct c with
       | Some t => Some (LIdle, [t])
       | None => if Ascii.eqb c "034" then Some (LStr [], [])
                 else Some (LAtom [c], [])
       end.

Definition lex_step (m : lexmode) (c : ascii) : option (lexmode * list token) :=
  match m with
  | LIdle => lex_idle c
  | LAtom buf =>
      if is_ws c || is_Some_b (punct c) || Ascii.eqb c "034" then
        match lex_idle c with
        | Some (m', ts) => Some (m', TAtom (string_of_rev buf) :: ts)
        | None => None
        end
      else Some (LAtom (c :: buf), [])
  | LStr buf =>
      if Ascii.eqb c "034" then Some (LIdle, [TString (string_of_rev buf)])
      else if Ascii.eqb c "\" then Some (LEsc buf, [])
      else if (N_of_ascii c <? 32)%N then None
      else Some (LStr (c :: buf), [])
  | LEsc buf =>
      match c with
      | "034" | "\" | "/" => Some (LStr (c :: buf), [])
      | "b" => Some (LStr ("008" :: buf), [])
      | "f" => Some (LStr ("012" :: buf), [])
      | "n" => Some (LStr ("010" :: buf), [])
      | "r" => Some (LStr ("013" :: buf), [])
      | "t" => Some (LStr ("009" :: buf), [])
      | "u" => Some (LHex buf [], [])
      | _ => None
      end
  | LHex buf ds =>
      match hex_val c with
      | None => None
      | Some d =>
          match ds with
          | [d1; d2; d3] =>
              Some (LStr (rev_utf8 (((d1 * 16 + d2) * 16 + d3) * 16 + d)%N ++ buf), [])
          | _ => Some (LHex buf (ds ++ [d]), [])
          end
      end
  end.

Fixpoint lex (m : lexmode) (s : string) : option (list token) :=
  match s with
  | EmptyString =>
      match m with
      | LIdle => Some []
      | LAtom buf => Some [TAtom (string_of_rev buf)]
      | _ => None
      end
  | String c rest =>
      match lex_step m c with
      | None => None
      | Some (m', ts) =>
          match lex m' rest with
          | None => None
          | Some more => Some (ts ++ more)
          end
      end
  end.

(** *** Atoms: [null], [true], [false] and numbers *)

Definition digit_val (c : ascii) : option Z :=
  let n := N_of_ascii c in
  if (48 <=? n)%N && (n <=? 57)%N then Some (Z.of_N (n - 48)) else None.

Fixpoint span_digits (s : list ascii) : list Z * list ascii :=
  match s with
  | [] => ([], [])
  | c :: rest =>
      match digit_val c with
      | Some d => let '(ds, tl) := span_digits rest in (d :: ds, tl)
      | None => ([], s)
      end
  end.

Definition Z_of_digits (ds : list Z) : Z :=
  fold_left (fun acc d => (acc * 10 + d)%Z) ds 0%Z.

(** [m * 10 ^ e] as a rational in lowest terms. *)
Definition decimal (m e : Z) : Q :=
  Qred (if (0 <=? e)%Z then inject_Z (m * 10 ^ e)
        else Qmake m (Z.to_pos (10 ^ (- e)))).

Definition parse_exponent (s : list ascii) : option Z :=
  match s with
  | [] => Some 0%Z
  | c :: rest =>
      if Ascii.eqb c "e" || Ascii.eqb c "E" then
        let '(sign, body) :=
          match rest with
          | "-" :: r => ((-1)%Z, r)
          | "+" :: r => (1%Z, r)
          | _ => (1%Z, rest)
          end in
        match span_digits body with
        | ((_ :: _) as ds, []) => Some (sign * Z_of_digits ds)%Z
        | _ => None
        end
      else None
  end.

Definition parse_number (s : list ascii) : option Q :=
  let '(sign, s1) :=
    match s with
    | "-" :: r => ((-1)%Z, r)
    | _ => (1%Z, s)
    end in
  let '(ints, s2) := span_digits s1 in
  match ints with
  | [] => None
  | d0 :: more =>
      if (d0 =? 0)%Z && negb (match more with [] => true | _ => false end)
      then None
      else
        let frac :=
          match s2 with
          | "." :: r =>
              match span_digits r with
              | ([], _) => None
              | (fs, s3) => Some (fs, s3)
              end
          | _ => Some ([], s2)
          end in
        match frac with
        | None => None
        | Some (fs, s3) =>
            match parse_exponent s3 with
            | None => None
            | Some e =>
                Some (decimal (sign * Z_of_digits (ints ++ fs))
                              (e - Z.of_nat (List.length fs)))
            end
        end
  end.

(** The number a literal of value [q] is read as, at the ends of the
    range of doubles: at and above 2^1024 - 2^970, half-way between the
    largest double and 2^1024, it is an infinity; at and below 2^-1075,
    half of the smallest double above 0, it is 0. *)
Definition largest : Q := inject_Z (2 ^ 1024 - 2 ^ 970).
Definition smallest : Q := 1 # (2 ^ 1075).

Definition number (q : Q) : json :=
  if Qle_bool largest (Qabs q) then JInf (negb (Qle_bool 0 q))
  else if Qle_bool (Qabs q) smallest then JNum 0
  else JNum q.

Definition atom (s : string) : option json :=
  if String.eqb s "null" then Some JNull
  else if String.eqb s "true" then Some (JBool true)
  else if String.eqb s "false" then Some (JBool false)
  else option_map number (parse_number (list_ascii_of_string s)).

(** *** Parser: a pushdown automaton over the tokens *)

Inductive frame : Type :=
| FArr (rev_items : list json)
| FObj (rev_fields : list (string * json)) (key : string).

Inductive expect : Type :=
| EValue                 (* a value must come *)
| EValueOrClose          (* just after [[] *)
| EKeyOrClose (rev_fields : list (string * json))   (* just after [{] *)
| EKey (rev_fields : list (string * json))          (* after [,] in an object *)
| EColon (rev_fields : list (string * json)) (key : string)
| EAfterValue            (* [,] or the closing bracket of the top frame *)
| EEnd (v : json).       (* the whole value has been read *)

Definition state : Type := list frame * expect.

(** A value [v] has just been completed under the stack [st]. *)
Definition complete (st : list frame) (v : json) : state :=
  match st with
  | [] => ([], EEnd v)
  | FArr items :: below => (FArr (v :: items) :: below, EAfterValue)
  | FObj fields key :: below => (FObj ((key, v) :: fields) key :: below, EAfterValue)
  end.

Definition start_value (st : list frame) (t : token) : option state :=
  match t with
  | TLBrace => Some (st, EKeyOrClose [])
  | TLBracket => Some (FArr [] :: st, EValueOrClose)
  | TString s => Some (complete st (JStr s))
  | TAtom a => option_map (complete st) (atom a)
  | _ => None
  end.

Definition parse_step (s : state) (t : token) : option state :=
  let '(st, e) := s in
  match e with
  | EValue => start_value st t
  | EValueOrClose =>
      match t, st with
      | TRBracket, FArr items :: below => Some (complete below (JArr (List.rev items)))
      | _, _ => start_value st t
      end
  | EKeyOrClose fields =>
      match t with
      | TRBrace => Some (complete st (JObj (List.rev fields)))
      | TString k => Some (st, EColon fields k)
      | _ => None
      end
  | EKey fields =>
      match t with
      | TString k => Some (st, EColon fields k)
      | _ => None
      end
  | EColon fields k =>
      match t with
      | TColon => Some (FObj fields k :: st, EValue)
      | _ => None
      end
  | EAfterValue =>
      match t, st with
      | TComma, FArr _ :: _ => Some (st, EValue)
      | TRBracket, FArr items :: below => Some (complete below (JArr (List.rev items)))
      | TComma, FObj fields _ :: below => Some (below, EKey fields)
      | TRBrace, FObj fields _ :: below => Some (complete below (JObj (List.rev fields)))
      | _, _ => None
      end
  | EEnd _ => None
  end.

Fixpoint parse_tokens (s : state) (ts : list token) : option json :=
  match ts with
  | [] => match s with ([], EEnd v) => Some v | _ => None end
  | t :: rest =>
      match parse_step s t with
      | None => None
      | Some s' => parse_tokens s' rest
      end
  end.

(** [JSON.parse]: [None] stands for the [SyntaxError] it throws. *)
Definition JSON_parse (text : string) : option json :=
  match lex LIdle text with
  | None => None
  | Some ts => parse_tokens ([], EValue) ts
  end.

End JsonParse.
Export JsonParse(JSON_parse).

(** ** Property access, truthiness and the typed readers of [x || d] *)

Module Js.

Definition truthy (v : json) : bool :=
  match v with
  | JNull => false
  | JBool b => b
  | JNum q => negb (Qis0 q)
  | JStr s => negb (String.eqb s "")
  | JInf _ | JArr _ | JObj _ => true
  end.

(** The own property [k] of a parsed object; a later duplicate key
    overrides an earlier one. [None] is [undefined]. *)
Fixpoint own (k : string) (fields : list (string * json)) : option json :=
  match fields with
  | [] => None
  | (k', v) :: rest =>
      match own k rest with
      | Some later => Some later
      | None => if String.eqb k k' then Some v else None
      end
  end.

(** [v.k] for the field names the stages read (none of them is a
    property of a prototype). *)
Definition field (k : string) (v : json) : option json :=
  match v with
  | JObj fields => own k fields
  | _ => None
  end.

(** The names every object inherits from [Object.prototype]. *)
Definition inherited : list string :=
  ["constructor"; "__proto__"; "hasOwnProperty"; "isPrototypeOf";
   "propertyIsEnumerable"; "toLocaleString"; "toString"; "valueOf";
   "__defineGetter__"; "__defineSetter__"; "__lookupGetter__";
   "__lookupSetter__"].

Definition is_inherited (k : string) : bool :=
  existsb (String.eqb k) inherited.

(** [s.includes(t)] *)
Fixpoint includes (s t : string) : bool :=
  String.prefix t s
  || match s with
     | EmptyString => false
     | String _ rest => includes rest t
     end.

(** [s.slice(0, n)] *)
Definition slice0 (n : nat) (s : string) : string := String.substring 0 n s.

End Js.

(** What a stage can come to. [Throw] is a JavaScript exception reaching
    the caller; [IllTyped] says a response carried a truthy value that the
    field reading it has no place for in the embedding: a value that does
    not have the declared type of the field, or an infinity; [OutOfFuel]
    only comes from the loop of [runARDR] when it is given too few
    iterations. *)
Inductive Outcome (A : Type) : Type :=
| Done (a : A)
| Throw (message : string)
| IllTyped
| OutOfFuel.
Arguments Done {A} a.
Arguments Throw {A} message.
Arguments IllTyped {A}.
Arguments OutOfFuel {A}.

Module Outcome.

Definition bind {A B} (o : Outcome A) (k : A -> Outcome B) : Outcome B :=
  match o with
  | Done a => k a
  | Throw m => Throw m
  | IllTyped => IllTyped
  | OutOfFuel => OutOfFuel
  end.

Definition map {A B} (f : A -> B) (o : Outcome A) : Outcome B :=
  bind o (fun a => Done (f a)).

Fixpoint all {A} (os : list (Outcome A)) : Outcome (list A) :=
  match os with
  | [] => Done []
  | o :: rest => bind o (fun a => map (cons a) (all rest))
  end.

End Outcome.

Module Read.

Import Js.

(** [x || d] where a number is declared. *)
Definition number (x : option json) (d : Q) : Outcome Q :=
  match x with
  | None => Done d
  | Some (JNum q) => Done (if Qis0 q then d else q)
  | Some v => if truthy v then IllTyped else Done d
  end.

(** [x || d] where a string is declared. *)
Definition text (x : option json) (d : string) : Outcome string :=
  match x with
  | None => Done d
  | Some (JStr s) => Done (if String.eqb s "" then d else s)
  | Some v => if truthy v then IllTyped else Done d
  end.

Definition as_text (v : json) : Outcome string :=
  match v with
  | JStr s => Done s
  | _ => IllTyped
  end.

(** [x || d] where a [string[]] is declared. *)
Definition texts (x : option json) (d : list string) : Outcome (list string) :=
  match x with
  | None => Done d
  | Some (JArr items) => Outcome.all (List.map as_text items)
  | Some v => if truthy v then IllTyped else Done d
  end.

(** A falsy score is kept as 0, which [get(name) || b.confidence] reads
    alike. *)
Definition as_entry (kv : string * json) : Outcome (string * Q) :=
  match snd kv with
  | JNum q => Done (fst kv, q)
  | v => if truthy v then IllTyped else Done (fst kv, 0)
  end.

(** [Object.entries(x)] where a [Record<string, number>] is declared and
    [x] is truthy. *)
Definition entries (x : json) : Outcome (list (string * Q)) :=
  match x with
  | JObj fields => Outcome.all (List.map as_entry fields)
  | _ => IllTyped
  end.

End Read.

(** ** [ARDR_models.ts] *)

Module MODELS.
Definition profiler := "meta-llama/llama-3.3-70b-instruct:free".
Definition cheap := "google/gemini-2.0-flash-001".
Definition logic := "google/gemini-2.0-flash-001".
Definition pattern := "google/gemini-2.0-flash-001".
Definition world := "openai/gpt-4.1-mini".
Definition code := "anthropic/claude-sonnet-4".
Definition adversarial := "google/gemini-2.0-flash-001".
Definition condenser := "anthropic/claude-sonnet-4".
Definition chiefLow := "meta-llama/llama-3.3-70b-instruct:free".
Definition chiefHigh := "deepseek/deepseek-chat-v3-0324".
Definition chiefMax := "anthropic/claude-opus-4".
End MODELS.

(** ** [ARDR_types.ts] *)

Inductive NexusTier : Type := low | high | max.

Record ReasoningBudget : Type := {
  taskType : string;
  complexity : string;
  riskScore : Q;
  allowedDepth : Q;
  branches : list string;
  chiefModel : string
}.

Record TriStructurePack : Type := {
  symbolic : string;
  invariants : string;
  formal : string
}.

Record BranchOutput : Type := {
  branchName : string;
  hypotheses : list string;
  artifacts : list string;
  notes : string;
  contradictions : list string;
  confidence : Q
}.

Inductive EntryType : Type := hypothesis | artifact | note | contradiction.

Record ScratchpadEntry : Type := {
  branch : string;
  timestamp : Z;
  content : string;
  type : EntryType
}.

Record Scratchpad : Type := {
  entries : list ScratchpadEntry;
  sharedArtifacts : gmap string string
}.

(** The field [contradictions] of the interface is [allContradictions]
    here, after the variable the stage fills it from. *)
Record VerificationResult : Type := {
  branchScores : gmap string Q;
  counterexamples : list string;
  allContradictions : list string;
  provenInvariants : list string;
  uncertaintyScore : num;
  weakPoints : list string
}.

(** [budget], [triPack] and [verification] start as [null]. *)
Record ARDRState : Type := {
  originalPrompt : string;
  tier : NexusTier;
  budget : option ReasoningBudget;
  triPack : option TriStructurePack;
  scratchpad : Scratchpad;
  branchOutputs : list BranchOutput;
  verification : option VerificationResult;
  recurrenceCount : nat;
  finalResponse : string
}.

(** ** The environment *)

(** The system prompt of a request, by the role it gives the model. *)
Inductive Instruction : Type :=
| TaskProfiler
| SymbolicAbstractor
| InvariantReducer
| Formalizer
| Branch (name : string)
| CounterexampleGenerator
| ConsistencyScorer
| ReasoningController
| Refine (name : string)
| GrandSynthesizer (t : NexusTier)
| Assistant.

(** [model] and [systemPrompt] are [undefined] ([None]) in what the lookup
    of an inherited name returns. *)
Record BranchConfig : Type := {
  model : option string;
  systemPrompt : option Instruction
}.

Record Request : Type := {
  rq_model : option string;
  rq_system : option Instruction;
  rq_maxTokens : Z;
  rq_stream : bool
}.

(** What the provider does with a request: it completes with a text (or
    without one), or the call fails with an error carrying a message. *)
Inductive Answer : Type :=
| Content (text : option string)
| Failure (message : string).

Record Reply : Type := {
  latency : nat;
  answer : Answer
}.

Record World : Type := {
  openaiClient : bool;          (* has [initializeOpenAI] run *)
  replies : nat -> Reply;       (* the reply to the n-th request issued *)
  clock : nat -> Z;             (* the n-th reading of [Date.now()] *)
  issued : list Request;        (* the requests issued so far, oldest first *)
  ticks : nat;                  (* how often [Date.now()] has been called *)
  sections : list string        (* the banners printed by [logSection] *)
}.

Definition M (A : Type) : Type := World -> Outcome (A * World).

Module M.

Definition ret {A} (a : A) : M A := fun w => Done (a, w).

Definition bind {A B} (c : M A) (k : A -> M B) : M B :=
  fun w =>
    match c w with
    | Done (a, w') => k a w'
    | Throw m => Throw m
    | IllTyped => IllTyped
    | OutOfFuel => OutOfFuel
    end.

Definition lift {A} (o : Outcome A) : M A :=
  fun w => Outcome.map (fun a => (a, w)) o.

(** Run the computations of a list one after the other, left to right. *)
Fixpoint each {A B} (f : A -> M B) (l : list A) : M (list B) :=
  match l with
  | [] => ret []
  | a :: rest =>
      bind (f a) (fun b => bind (each f rest) (fun bs => ret (b :: bs)))
  end.

End M.

Notation "'do' x <- c ; k" := (M.bind c (fun x => k))
  (at level 10, x pattern, c at level 100, k at level 200).
Notation "c ;; k" := (M.bind c (fun _ => k))
  (at level 100, k at level 200, right associativity).

(** ** [ARDR_utils.ts] *)

Definition initializeOpenAI (w : World) : World :=
  {| openaiClient := true; replies := replies w; clock := clock w;
     issued := issued w; ticks := ticks w; sections := sections w |}.

Definition record_request (rq : Request) (w : World) : World :=
  {| openaiClient := openaiClient w; replies := replies w; clock := clock w;
     issued := issued w ++ [rq]; ticks := ticks w; sections := sections w |}.

Definition record_section (title : string) (w : World) : World :=
  {| openaiClient := openaiClient w; replies := replies w; clock := clock w;
     issued := issued w; ticks := ticks w; sections := sections w ++ [title] |}.

Definition advance_clock (w : World) : World :=
  {| openaiClient := openaiClient w; replies := replies w; clock := clock w;
     issued := issued w; ticks := S (ticks w); sections := sections w |}.

(** The reply the provider will give to the next request. *)
Definition next_reply (w : World) : Reply := replies w (List.length (issued w)).

Definition not_initialized : string :=
  "OpenAI client not initialized. Call initializeOpenAI first.".

Definition getOpenAI : M unit :=
  fun w => if openaiClient w then Done (tt, w) else Throw not_initialized.

Definition logSection (title : string) : M unit :=
  fun w => Done (tt, record_section title w).

(** [Date.now()] *)
Definition Date_now : M Z :=
  fun w => Done (clock w (ticks w), advance_clock w).

(** The request goes out and the provider's reply to it is fixed. *)
Definition create (rq : Request) : M Reply :=
  fun w => Done (next_reply w, record_request rq w).

(** [`${model}`] *)
Definition show_model (m : option string) : string :=
  match m with
  | Some s => s
  | None => "undefined"
  end.

(** The value of the [try]/[catch] of [callModel] and [callModelStreaming]. *)
Definition settle (m : option string) (a : Answer) : string :=
  match a with
  | Content (Some s) => s
  | Content None => ""
  | Failure msg => "[Error calling " +:+ show_model m +:+ ": " +:+ msg +:+ "]"
  end.

(** [callModel] with the time its result takes to arrive. *)
Definition callModel_timed (m : option string) (sys : option Instruction)
    (maxTokens : Z) : M (nat * string) :=
  getOpenAI ;;
  do r <- create {| rq_model := m; rq_system := sys;
                    rq_maxTokens := maxTokens; rq_stream := false |};
  M.ret (latency r, settle m (answer r)).

Definition callModel (m : option string) (sys : option Instruction)
    (maxTokens : Z) : M string :=
  do r <- callModel_timed m sys maxTokens;
  M.ret (snd r).

Definition callModelStreaming (m : option string) (sys : option Instruction)
    (maxTokens : Z) : M string :=
  getOpenAI ;;
  do r <- create {| rq_model := m; rq_system := sys;
                    rq_maxTokens := maxTokens; rq_stream := true |};
  M.ret (settle m (answer r)).

(** The text the regular expression [/\{[\s\S]*\}/] matches: from the first
    opening brace to the last closing brace after it. *)
Fixpoint from_first_brace (s : string) : option string :=
  match s with
  | EmptyString => None
  | String c rest =>
      if Ascii.eqb c "{" then Some s else from_first_brace rest
  end.

Fixpoint upto_last_brace (s : string) : option string :=
  match s with
  | EmptyString => None
  | String c rest =>
      match upto_last_brace rest with
      | Some p => Some (String c p)
      | None => if Ascii.eqb c "}" then Some (String c EmptyString) else None
      end
  end.

Definition jsonMatch (response : string) : option string :=
  match from_first_brace response with
  | Some s => upto_last_brace s
  | None => None
  end.

(** [None] is the [null] the function returns. *)
Definition parseJsonFromResponse (response : string) : option json :=
  match jsonMatch response with
  | Some text => JSON_parse text
  | None => None
  end.

(** ** [ARDR_stages.ts] *)

Definition tierCeiling (t : NexusTier) : Q :=
  match t with
  | max => 3
  | high => 2
  | low => 1
  end.

Definition tierChief (t : NexusTier) : string :=
  match t with
  | max => MODELS.chiefMax
  | high => MODELS.chiefHigh
  | low => MODELS.chiefLow
  end.

(** [if (parsed)]: the value when it is there and truthy. *)
Definition if_truthy (parsed : option json) : option json :=
  match parsed with
  | Some v => if Js.truthy v then Some v else None
  | None => None
  end.

Definition budget_of (tier : NexusTier) (response : string) : Outcome ReasoningBudget :=
  match if_truthy (parseJsonFromResponse response) with
  | Some parsed =>
      Outcome.bind (Read.text (Js.field "taskType" parsed) "reasoning") (fun taskType =>
      Outcome.bind (Read.text (Js.field "complexity" parsed) "medium") (fun complexity =>
      Outcome.bind (Read.number (Js.field "riskScore" parsed) 0.5) (fun riskScore =>
      Outcome.bind (Read.number (Js.field "allowedDepth" parsed) 2) (fun depth =>
      Outcome.bind (Read.texts (Js.field "requiredBranches" parsed) ["logic"; "world"]) (fun branches =>
      Done {| taskType := taskType;
              complexity := complexity;
              riskScore := riskScore;
              allowedDepth := Math_min depth (tierCeiling tier);
              branches := branches;
              chiefModel := tierChief tier |})))))
  | None =>
      Done {| taskType := "reasoning";
              complexity := "medium";
              riskScore := 0.5;
              allowedDepth := tierCeiling tier;
              branches := ["logic"; "world"; "code"];
              chiefModel := tierChief tier |}
  end.

Definition stage0_TaskProfiler (prompt : string) (tier : NexusTier)
    : M ReasoningBudget :=
  logSection "STAGE 0: Task Profiler & Budget Allocator" ;;
  do response <- callModel (Some MODELS.profiler) (Some TaskProfiler) 1500;
  M.lift (budget_of tier response).

Definition stageA_StructuredDecomposition (prompt : string)
    (budget : ReasoningBudget) : M TriStructurePack :=
  logSection "STAGE A: Structured Decomposition Layer" ;;
  do symbolic <- callModel (Some MODELS.cheap) (Some SymbolicAbstractor) 1500;
  do invariants <- callModel (Some MODELS.cheap) (Some InvariantReducer) 1500;
  do formal <- callModel (Some MODELS.cheap) (Some Formalizer) 1500;
  M.ret {| symbolic := symbolic; invariants := invariants; formal := formal |}.

(** [branchConfigs[branchName]]: one of the five profiles, or what an
    inherited name finds on the prototype, or [undefined]. *)
Definition registry : list (string * string) :=
  [("logic", MODELS.logic); ("pattern", MODELS.pattern);
   ("world", MODELS.world); ("code", MODELS.code);
   ("adversarial", MODELS.adversarial)].

Fixpoint registered (name : string) (reg : list (string * string)) : option string :=
  match reg with
  | [] => None
  | (k, m) :: rest => if String.eqb name k then Some m else registered name rest
  end.

Definition branchConfigs (branchName : string) : option BranchConfig :=
  match registered branchName registry with
  | Some m => Some {| model := Some m; systemPrompt := Some (Branch branchName) |}
  | None =>
      if Js.is_inherited branchName
      then Some {| model := None; systemPrompt := None |}
      else None
  end.

(** The [BranchOutput] a branch makes of the response it gets. *)
Definition branch_output (branchName response : string) : Outcome BranchOutput :=
  match if_truthy (parseJsonFromResponse response) with
  | Some parsed =>
      Outcome.bind (Read.texts (Js.field "hypotheses" parsed) []) (fun hypotheses =>
      Outcome.bind (Read.texts (Js.field "artifacts" parsed) []) (fun artifacts =>
      Outcome.bind (Read.text (Js.field "notes" parsed) "") (fun notes =>
      Outcome.bind (Read.texts (Js.field "contradictions" parsed) []) (fun contradictions =>
      Outcome.bind (Read.number (Js.field "confidence" parsed) 0.5) (fun confidence =>
      Done {| branchName := branchName;
              hypotheses := hypotheses;
              artifacts := artifacts;
              notes := notes;
              contradictions := contradictions;
              confidence := confidence |})))))
  | None =>
      Done {| branchName := branchName;
              hypotheses := [Js.slice0 500 response];
              artifacts := [];
              notes := response;
              contradictions := [];
              confidence := 0.5 |}
  end.

Definition push (e : ScratchpadEntry) (sp : Scratchpad) : Scratchpad :=
  {| entries := entries sp ++ [e]; sharedArtifacts := sharedArtifacts sp |}.

Definition push_now (b : string) (ty : EntryType) (text : string)
    (sp : Scratchpad) : M Scratchpad :=
  do t <- Date_now;
  M.ret (push {| branch := b; timestamp := t; content := text; type := ty |} sp).

Fixpoint push_hypotheses (b : string) (hs : list string) (sp : Scratchpad)
    : M Scratchpad :=
  match hs with
  | [] => M.ret sp
  | h :: rest =>
      do sp' <- push_now b hypothesis h sp;
      push_hypotheses b rest sp'
  end.

(** What a branch does to the scratchpad when its response has arrived. *)
Definition record_output (sp : Scratchpad) (output : BranchOutput) : M Scratchpad :=
  do sp' <- push_now (branchName output) note (notes output) sp;
  push_hypotheses (branchName output) (hypotheses output) sp'.

Fixpoint record_outputs (sp : Scratchpad) (outputs : list BranchOutput)
    : M Scratchpad :=
  match outputs with
  | [] => M.ret sp
  | output :: rest =>
      do sp' <- record_output sp output;
      record_outputs sp' rest
  end.

(** The order in which the calls of a fan-out complete: by the time each
    takes, calls that take equally long in the order they were issued. *)
Fixpoint arrive {A} (x : nat * A) (l : list (nat * A)) : list (nat * A) :=
  match l with
  | [] => [x]
  | y :: rest =>
      if (fst x <=? fst y)%nat then x :: l else y :: arrive x rest
  end.

Definition completion_order {A} (l : list (nat * A)) : list (nat * A) :=
  fold_right arrive [] l.

(** The part of a branch that runs before its call is awaited: [None] for
    a name without a profile, else the time the response takes, and the
    response. *)
Definition start_branch (branchName : string) : M (option (nat * (string * string))) :=
  match branchConfigs branchName with
  | None => M.ret None
  | Some config =>
      do r <- callModel_timed (model config) (systemPrompt config) 800;
      M.ret (Some (fst r, (branchName, snd r)))
  end.

Fixpoint somes {A} (l : list (option A)) : list A :=
  match l with
  | [] => []
  | Some a :: rest => a :: somes rest
  | None :: rest => somes rest
  end.

Definition finish_branch (started : nat * (string * string))
    : Outcome (nat * BranchOutput) :=
  Outcome.map (fun output => (fst started, output))
              (branch_output (fst (snd started)) (snd (snd started))).

Definition stageB_DendriticBranches (prompt : string) (triPack : TriStructurePack)
    (budget : ReasoningBudget) (scratchpad : Scratchpad)
    : M (list BranchOutput * Scratchpad) :=
  logSection "STAGE B: Dendritic Branch Network" ;;
  do started <- M.each start_branch (branches budget);
  do finished <- M.lift (Outcome.all (List.map finish_branch (somes started)));
  do scratchpad' <- record_outputs scratchpad
                      (List.map snd (completion_order finished));
  M.ret (List.map snd finished, scratchpad').

Definition sum_confidence (branchOutputs : list BranchOutput) : Q :=
  fold_left (fun sum b => sum + confidence b) branchOutputs 0.

(** [branchOutputs.reduce(...) / branchOutputs.length] *)
Definition avgConfidence (branchOutputs : list BranchOutput) : num :=
  Num.div (Fin (sum_confidence branchOutputs))
          (Fin (inject_Z (Z.of_nat (List.length branchOutputs)))).

(** [(uncertaintyScore + (1 - avgConfidence)) / 2] *)
Definition blend (reported : Q) (avg : num) : num :=
  Num.div (Num.add (Fin reported) (Num.sub (Fin 1) avg)) (Fin 2).

Definition counterexamples_of (response : string) : Outcome (list string) :=
  match if_truthy (parseJsonFromResponse response) with
  | Some ceParsed => Read.texts (Js.field "counterexamples" ceParsed) []
  | None => Done []
  end.

Definition set_all (m : gmap string Q) (kvs : list (string * Q)) : gmap string Q :=
  fold_left (fun acc kv => <[fst kv := snd kv]> acc) kvs m.

Definition scores_of (csParsed : json) : Outcome (gmap string Q) :=
  match if_truthy (Js.field "branch_scores" csParsed) with
  | Some scores => Outcome.map (set_all ∅) (Read.entries scores)
  | None => Done ∅
  end.

Definition consistency_of (response : string) (allContradictions : list string)
    (counterexamples : list string) (avg : num) : Outcome VerificationResult :=
  match if_truthy (parseJsonFromResponse response) with
  | Some csParsed =>
      Outcome.bind (scores_of csParsed) (fun branchScores =>
      Outcome.bind (Read.texts (Js.field "proven_invariants" csParsed) []) (fun provenInvariants =>
      Outcome.bind (Read.texts (Js.field "weak_points" csParsed) []) (fun weakPoints =>
      Outcome.bind (Read.number (Js.field "uncertainty" csParsed) 0.5) (fun uncertaintyScore =>
      Done {| branchScores := branchScores;
              counterexamples := counterexamples;
              allContradictions := allContradictions;
              provenInvariants := provenInvariants;
              uncertaintyScore := blend uncertaintyScore avg;
              weakPoints := weakPoints |}))))
  | None =>
      Done {| branchScores := ∅;
              counterexamples := counterexamples;
              allContradictions := allContradictions;
              provenInvariants := [];
              uncertaintyScore := blend 0.5 avg;
              weakPoints := [] |}
  end.

Definition stageC_Verification (prompt : string) (triPack : TriStructurePack)
    (branchOutputs : list BranchOutput) (scratchpad : Scratchpad)
    : M VerificationResult :=
  logSection "STAGE C: Verification Layer & Uncertainty Engine" ;;
  let allContradictions := flat_map contradictions branchOutputs in
  do counterexampleResult <-
    callModel (Some MODELS.cheap) (Some CounterexampleGenerator) 600;
  do consistencyResult <-
    callModel (Some MODELS.cheap) (Some ConsistencyScorer) 600;
  do counterexamples <- M.lift (counterexamples_of counterexampleResult);
  M.lift (consistency_of consistencyResult allContradictions counterexamples
            (avgConfidence branchOutputs)).

Definition UNCERTAINTY_THRESHOLD : Q := 0.55.
Definition MIN_BRANCH_SCORE : Q := 0.5.

(** [verification.branchScores.get(b.branchName) || b.confidence] *)
Definition score (verification : VerificationResult) (b : BranchOutput) : Q :=
  match branchScores verification !! branchName b with
  | Some s => if Qis0 s then confidence b else s
  | None => confidence b
  end.

(** The predicate [weakBranches] is filtered by. *)
Definition weak (verification : VerificationResult) (b : BranchOutput) : bool :=
  Qltb (score verification b) MIN_BRANCH_SCORE
  || existsb (fun wp => Js.includes wp (branchName b)) (weakPoints verification).

(** [parsed.instructions || {}] *)
Definition instructions_of (response : string) : json :=
  match if_truthy (parseJsonFromResponse response) with
  | Some parsed =>
      match if_truthy (Js.field "instructions" parsed) with
      | Some instructions => instructions
      | None => JObj []
      end
  | None => JObj []
  end.

(** [instructions[name] || "Re-analyze with more rigor"], and the
    [instruction.slice(0, 50)] of the log line that follows it, which
    throws on what an inherited name finds. *)
Definition instruction_for (instructions : json) (name : string) : Outcome string :=
  match instructions with
  | JObj fields =>
      match Js.own name fields with
      | Some v => Read.text (Some v) "Re-analyze with more rigor"
      | None =>
          if Js.is_inherited name
          then Throw "instruction.slice is not a function"
          else Done "Re-analyze with more rigor"
      end
  | _ => IllTyped
  end.

(** The [BranchOutput] a re-run branch makes of the response it gets. *)
Definition refine_output (b : BranchOutput) (response : string) : Outcome BranchOutput :=
  match if_truthy (parseJsonFromResponse response) with
  | Some refined =>
      Outcome.bind (Read.texts (Js.field "hypotheses" refined) (hypotheses b)) (fun hypotheses =>
      Outcome.bind (Read.texts (Js.field "artifacts" refined) (artifacts b)) (fun artifacts =>
      Outcome.bind (Read.text (Js.field "notes" refined) response) (fun notes =>
      Outcome.bind (Read.texts (Js.field "contradictions" refined) []) (fun contradictions =>
      Outcome.bind (Read.number (Js.field "confidence" refined) (confidence b)) (fun c =>
      Done {| branchName := branchName b;
              hypotheses := hypotheses;
              artifacts := artifacts;
              notes := notes;
              contradictions := contradictions;
              confidence := Math_min (c + 0.1) 0.95 |})))))
  | None =>
      Done {| branchName := branchName b;
              hypotheses := hypotheses b;
              artifacts := artifacts b;
              notes := notes b;
              contradictions := contradictions b;
              confidence := confidence b + 0.1 |}
  end.

(** [weakBranches.find(wb => wb.branchName === branch.branchName)] *)
Definition among (weakBranches : list BranchOutput) (b : BranchOutput) : bool :=
  existsb (fun wb => String.eqb (branchName wb) (branchName b)) weakBranches.

Definition rerun (weakBranches : list BranchOutput) (instructions : json)
    (b : BranchOutput) : M BranchOutput :=
  if among weakBranches b then
    do instruction <- M.lift (instruction_for instructions (branchName b));
    let m := if String.eqb (branchName b) "code" then MODELS.code else MODELS.cheap in
    do response <- callModel (Some m) (Some (Refine (branchName b))) 800;
    M.lift (refine_output b response)
  else M.ret b.

Definition stageD_AdaptiveRecurrence (prompt : string) (triPack : TriStructurePack)
    (branchOutputs : list BranchOutput) (scratchpad : Scratchpad)
    (verification : VerificationResult) (budget : ReasoningBudget)
    (recurrenceCount : nat) : M (bool * list BranchOutput) :=
  logSection "STAGE D: Adaptive Recurrence Pass" ;;
  if Num.ltb (uncertaintyScore verification) (Fin UNCERTAINTY_THRESHOLD)
     && (List.length (weakPoints verification) =? 0)%nat
  then M.ret (false, branchOutputs)
  else if Qle_bool (allowedDepth budget) (inject_Z (Z.of_nat recurrenceCount))
  then M.ret (false, branchOutputs)
  else
    let weakBranches := List.filter (weak verification) branchOutputs in
    if (List.length weakBranches =? 0)%nat
    then M.ret (false, branchOutputs)
    else
      do instructionResult <-
        callModel (Some MODELS.cheap) (Some ReasoningController) 400;
      let instructions := instructions_of instructionResult in
      do updatedBranches <- M.each (rerun weakBranches instructions) branchOutputs;
      M.ret (true, updatedBranches).

Definition synthesis_ceiling (t : NexusTier) : Z :=
  match t with
  | max => 8000
  | high => 4000
  | low => 2000
  end%Z.

(** Reading a property of [null] throws. *)
Definition of_null {A} (what : string) (x : option A) : M A :=
  match x with
  | Some a => M.ret a
  | None => fun _ => Throw ("Cannot read properties of null: " +:+ what)
  end.

Definition stageFinal_GrandSynthesis (prompt : string) (state : ARDRState)
    : M string :=
  logSection "FINAL STAGE: Grand Synthesizer" ;;
  do b <- of_null "budget" (budget state);
  do _ <- of_null "triPack" (triPack state);
  do _ <- of_null "verification" (verification state);
  callModelStreaming (Some (chiefModel b)) (Some (GrandSynthesizer (tier state)))
                     (synthesis_ceiling (tier state)).

Definition handleConversation (prompt : string) (tier : NexusTier) : M string :=
  callModelStreaming (Some (tierChief tier)) (Some Assistant) 1500.

(** ** [ARDR.ts] *)

Module State.

Definition initial (prompt : string) (tier : NexusTier) : ARDRState :=
  {| originalPrompt := prompt;
     tier := tier;
     budget := None;
     triPack := None;
     scratchpad := {| entries := []; sharedArtifacts := ∅ |};
     branchOutputs := [];
     verification := None;
     recurrenceCount := 0;
     finalResponse := "" |}.

Definition set_budget (x : ReasoningBudget) (s : ARDRState) : ARDRState :=
  {| originalPrompt := originalPrompt s; tier := tier s; budget := Some x;
     triPack := triPack s; scratchpad := scratchpad s;
     branchOutputs := branchOutputs s; verification := verification s;
     recurrenceCount := recurrenceCount s; finalResponse := finalResponse s |}.

Definition set_triPack (x : TriStructurePack) (s : ARDRState) : ARDRState :=
  {| originalPrompt := originalPrompt s; tier := tier s; budget := budget s;
     triPack := Some x; scratchpad := scratchpad s;
     branchOutputs := branchOutputs s; verification := verification s;
     recurrenceCount := recurrenceCount s; finalResponse := finalResponse s |}.

Definition set_scratchpad (x : Scratchpad) (s : ARDRState) : ARDRState :=
  {| originalPrompt := originalPrompt s; tier := tier s; budget := budget s;
     triPack := triPack s; scratchpad := x;
     branchOutputs := branchOutputs s; verification := verification s;
     recurrenceCount := recurrenceCount s; finalResponse := finalResponse s |}.

Definition set_branchOutputs (x : list BranchOutput) (s : ARDRState) : ARDRState :=
  {| originalPrompt := originalPrompt s; tier := tier s; budget := budget s;
     triPack := triPack s; scratchpad := scratchpad s;
     branchOutputs := x; verification := verification s;
     recurrenceCount := recurrenceCount s; finalResponse := finalResponse s |}.

Definition set_verification (x : VerificationResult) (s : ARDRState) : ARDRState :=
  {| originalPrompt := originalPrompt s; tier := tier s; budget := budget s;
     triPack := triPack s; scratchpad := scratchpad s;
     branchOutputs := branchOutputs s; verification := Some x;
     recurrenceCount := recurrenceCount s; finalResponse := finalResponse s |}.

Definition increment (s : ARDRState) : ARDRState :=
  {| originalPrompt := originalPrompt s; tier := tier s; budget := budget s;
     triPack := triPack s; scratchpad := scratchpad s;
     branchOutputs := branchOutputs s; verification := verification s;
     recurrenceCount := S (recurrenceCount s); finalResponse := finalResponse s |}.

Definition set_finalResponse (x : string) (s : ARDRState) : ARDRState :=
  {| originalPrompt := originalPrompt s; tier := tier s; budget := budget s;
     triPack := triPack s; scratchpad := scratchpad s;
     branchOutputs := branchOutputs s; verification := verification s;
     recurrenceCount := recurrenceCount s; finalResponse := x |}.

End State.

(** [state.recurrenceCount < state.budget.allowedDepth] *)
Definition below_depth (b : ReasoningBudget) (state : ARDRState) : bool :=
  Qltb (inject_Z (Z.of_nat (recurrenceCount state))) (allowedDepth b).

(** The body of the [while] loop. It yields the state and the new value
    of [shouldContinue]. *)
Definition recurrence_pass (prompt : string) (state : ARDRState)
    : M (ARDRState * bool) :=
  do t <- of_null "triPack" (triPack state);
  do v <- of_null "verification" (verification state);
  do b <- of_null "budget" (budget state);
  do recurrenceResult <-
    stageD_AdaptiveRecurrence prompt t (branchOutputs state) (scratchpad state)
                              v b (recurrenceCount state);
  let state1 := State.set_branchOutputs (snd recurrenceResult) state in
  if fst recurrenceResult then
    let state2 := State.increment state1 in
    do v' <- stageC_Verification prompt t (branchOutputs state2) (scratchpad state2);
    M.ret (State.set_verification v' state2, true)
  else M.ret (state1, false).

(** The [while] loop, given [fuel] evaluations of its condition. *)
Fixpoint recurrence_loop (fuel : nat) (prompt : string) (state : ARDRState)
    (shouldContinue : bool) : M ARDRState :=
  match fuel with
  | O => fun _ => OutOfFuel
  | S fuel' =>
      if shouldContinue then
        do b <- of_null "budget" (budget state);
        if below_depth b state then
          do next <- recurrence_pass prompt state;
          recurrence_loop fuel' prompt (fst next) (snd next)
        else M.ret state
      else M.ret state
  end.

(** [runARDR], yielding the [state] object next to the string returned. *)
Definition runARDR_state (fuel : nat) (prompt : string) (tier : NexusTier)
    : M (string * ARDRState) :=
  let state := State.initial prompt tier in
  do b <- stage0_TaskProfiler prompt tier;
  let state := State.set_budget b state in
  if String.eqb (taskType b) "conversation" || (List.length (branches b) =? 0)%nat
  then
    do response <- handleConversation prompt tier;
    M.ret (response, state)
  else
    do t <- stageA_StructuredDecomposition prompt b;
    let state := State.set_triPack t state in
    do r <- stageB_DendriticBranches prompt t b (scratchpad state);
    let state := State.set_scratchpad (snd r) (State.set_branchOutputs (fst r) state) in
    do v <- stageC_Verification prompt t (branchOutputs state) (scratchpad state);
    let state := State.set_verification v state in
    do state <- recurrence_loop fuel prompt state true;
    do response <- stageFinal_GrandSynthesis prompt state;
    let state := State.set_finalResponse response state in
    M.ret (finalResponse state, state).

Definition runARDR (fuel : nat) (prompt : string) (tier : NexusTier) : M string :=
  do r <- runARDR_state fuel prompt tier;
  M.ret (fst r).

(** ** Concrete environments *)

Module Env.

(** The text with every apostrophe turned into a double quote, to write
    JSON down. *)
Fixpoint quoted (text : string) : string :=
  match text with
  | EmptyString => EmptyString
  | String c rest =>
      String (if Ascii.eqb c "'" then "034"%char else c) (quoted rest)
  end.

Definition says (text : string) : Reply :=
  {| latency := 0; answer := Content (Some text) |}.

Definition says_after (n : nat) (text : string) : Reply :=
  {| latency := n; answer := Content (Some text) |}.

Definition fails (message : string) : Reply :=
  {| latency := 0; answer := Failure message |}.

(** A world whose provider gives the replies of [rs] in turn (and empty
    completions after them), whose clock reads 1000, 1001, ..., and whose
    client is initialized. *)
Definition scripted (rs : list Reply) : World :=
  {| openaiClient := true;
     replies := fun n => List.nth n rs {| latency := 0; answer := Content None |};
     clock := fun n => (1000 + Z.of_nat n)%Z;
     issued := [];
     ticks := 0;
     sections := [] |}.

Definition uninitialized (w : World) : World :=
  {| openaiClient := false; replies := replies w; clock := clock w;
     issued := issued w; ticks := ticks w; sections := sections w |}.

End Env.

(** ** The words of the specification *)

Module Spec.

(** [s] does not contain the character [c]. *)
Fixpoint lacks (c : ascii) (s : string) : Prop :=
  match s with
  | EmptyString => True
  | String x rest => x <> c /\ lacks c rest
  end.

(** The text up to the brace that closes [S depth] open ones. *)
Fixpoint closing (depth : nat) (s : string) : option string :=
  match s with
  | EmptyString => None
  | String c rest =>
      if Ascii.eqb c "{" then option_map (String c) (closing (S depth) rest)
      else if Ascii.eqb c "}" then
        match depth with
        | O => Some (String c EmptyString)
        | S d => option_map (String c) (closing d rest)
        end
      else option_map (String c) (closing depth rest)
  end.

(** "The first balanced region": from the first opening brace to the
    closing brace that matches it. *)
Definition first_balanced_region (s : string) : option string :=
  match from_first_brace s with
  | Some (String c rest) => option_map (String c) (closing 0 rest)
  | _ => None
  end.

End Spec.

Module Proposal.

(** The depth the profiler response proposes: the non-zero number it has
    at [allowedDepth], if it parses and has one. *)
Definition depth (response : string) : option Q :=
  match if_truthy (parseJsonFromResponse response) with
  | Some parsed =>
      match Js.field "allowedDepth" parsed with
      | Some (JNum q) => if Qis0 q then None else Some q
      | _ => None
      end
  | None => None
  end.

(** [q] is the integer [n]. *)
Definition is_integer (q : Q) (n : Z) : Prop := q == inject_Z n.




End Proposal.

Module Blend.

(** "modelReportedUncertainty": the uncertainty the consistency response
    reports, and 0.5 when the response does not parse or reports none. *)
Definition modelReportedUncertainty (response : string) : Q :=
  match parseJsonFromResponse response with
  | Some parsed =>
      match Js.field "uncertainty" parsed with
      | Some (JNum q) => q
      | _ => 0.5
      end
  | None => 0.5
  end.

(** The arithmetic mean. *)
Definition mean (l : list Q) : Q :=
  fold_right Qplus 0 l / inject_Z (Z.of_nat (List.length l)).

(** "(modelReportedUncertainty + (1 - avgConfidence)) / 2" *)
Definition specified (response : string) (branchOutputs : list BranchOutput) : Q :=
  (modelReportedUncertainty response
   + (1 - mean (List.map confidence branchOutputs))) / 2.

End Blend.

Module Ranged.

Definition unit_interval (q : Q) : Prop := 0 <= q /\ q <= 1.

(** The text parses and has the number [q] at the field [k]. *)
Definition reports (k text : string) (q : Q) : Prop :=
  exists parsed,
    if_truthy (parseJsonFromResponse text) = Some parsed
    /\ Js.field k parsed = Some (JNum q).

(** The confidence and the uncertainty the text reports, if any, lie in
    the unit interval. *)
Definition text_ok (text : string) : Prop :=
  forall q,
    reports "confidence" text q \/ reports "uncertainty" text q ->
    unit_interval q.

(** What the text reports at the field [k]: the number it has there, when
    it parses and the number is not 0, and [d] otherwise. *)
Definition reported (k text : string) (d : Q) : Q :=
  match if_truthy (parseJsonFromResponse text) with
  | Some parsed =>
      match Js.field k parsed with
      | Some (JNum q) => if Qis0 q then d else q
      | _ => d
      end
  | None => d
  end.

(** The text is the response to one of the requests issued after the
    first [k]: what the gateway made of the provider's reply to it, a
    completion or the marker of a failed call. *)
Definition answered (k : nat) (w : World) (text : string) : Prop :=
  exists n rq,
    (k <= n)%nat
    /\ nth_error (issued w) n = Some rq
    /\ text = settle (rq_model rq) (answer (replies w n)).

(** The confidence and the uncertainty that the responses to the requests
    issued after the first [k] report lie in the unit interval. *)
Definition responses (k : nat) (w : World) : Prop :=
  forall text, answered k w text -> text_ok text.

(** The response to every refinement request issued has parsed. *)
Definition refinements_parse (w : World) : Prop :=
  forall n rq name,
    nth_error (issued w) n = Some rq ->
    rq_system rq = Some (Refine name) ->
    if_truthy (parseJsonFromResponse
                 (settle (rq_model rq) (answer (replies w n)))) <> None.

Definition confidences (outputs : list BranchOutput) : Prop :=
  Forall (fun b => unit_interval (confidence b)) outputs.

Definition state (st : ARDRState) : Prop :=
  confidences (branchOutputs st)
  /\ (branchOutputs st <> [] ->
      forall v, verification st = Some v -> in_unit (uncertaintyScore v)).

End Ranged.

Module Log.

(** What a branch output contributes to the log, timestamps apart: its
    notes, then each of its hypotheses. *)
Definition pass_entries (b : BranchOutput) : list (string * EntryType * string) :=
  (branchName b, note, notes b)
  :: List.map (fun h => (branchName b, hypothesis, h)) (hypotheses b).

(** The entries made of [items] at the readings [k], [k+1], ... of the
    clock. *)
Fixpoint stamped (clock : nat -> Z) (k : nat)
    (items : list (string * EntryType * string)) : list ScratchpadEntry :=
  match items with
  | [] => []
  | (b, ty, text) :: rest =>
      {| branch := b; timestamp := clock k; content := text; type := ty |}
      :: stamped clock (S k) rest
  end.

(** The world after [n] readings of the clock. *)
Fixpoint read_clock (n : nat) (w : World) : World :=
  match n with
  | O => w
  | S n' => read_clock n' (advance_clock w)
  end.

Definition append (sp : Scratchpad) (new : list ScratchpadEntry) : Scratchpad :=
  {| entries := entries sp ++ new; sharedArtifacts := sharedArtifacts sp |}.

(** The times the replies to the next [n] requests take. *)
Definition latencies (w : World) (n : nat) : list nat :=
  List.map (fun i => latency (replies w (List.length (issued w) + i))) (seq 0 n).

(** The order in which responses arrive that were asked for in the order
    of [outputs] and take the times [times]. *)
Definition arrival {A} (times : list nat) (outputs : list A) : list A :=
  List.map snd (completion_order (List.combine times outputs)).

End Log.

(** ** The vocabulary of the proofs *)

(** The requests of the profiler and of the fast path. *)
Definition profiler_request : Request :=
  {| rq_model := Some MODELS.profiler; rq_system := Some TaskProfiler;
     rq_maxTokens := 1500; rq_stream := false |}.

Definition conversation_request (tier : NexusTier) : Request :=
  {| rq_model := Some (tierChief tier); rq_system := Some Assistant;
     rq_maxTokens := 1500; rq_stream := true |}.

Definition banner0 : string := "STAGE 0: Task Profiler & Budget Allocator".

Definition bannerA : string := "STAGE A: Structured Decomposition Layer".
Definition bannerB : string := "STAGE B: Dendritic Branch Network".
Definition bannerC : string := "STAGE C: Verification Layer & Uncertainty Engine".
Definition bannerD : string := "STAGE D: Adaptive Recurrence Pass".
Definition bannerFinal : string := "FINAL STAGE: Grand Synthesizer".

Definition verification_request (sys : Instruction) : Request :=
  {| rq_model := Some MODELS.cheap; rq_system := Some sys;
     rq_maxTokens := 600; rq_stream := false |}.

(** [w'] is a later world of the same environment as [w]: the client, the
    provider and the clock are the same, and the requests issued up to [w]
    are the first ones issued up to [w']. *)
Definition extends (w w' : World) : Prop :=
  openaiClient w' = openaiClient w
  /\ replies w' = replies w
  /\ clock w' = clock w
  /\ exists more, issued w' = issued w ++ more.

(** A computation that, when it completes, leaves a later world. *)
Definition frames {A} (c : M A) : Prop :=
  forall w a w', c w = Done (a, w') -> extends w w'.

(** A computation that never runs out of fuel. *)
Definition fuelled {A} (c : M A) : Prop := forall w, c w <> OutOfFuel.

Module Loop.

(** The evaluations of the loop condition that remain at most, for a depth
    of 3 at most. *)
Definition needed (state : ARDRState) (shouldContinue : bool) : nat :=
  if shouldContinue then 4 - Nat.min (recurrenceCount state) 3 else 1.

Definition bounded_depth (state : ARDRState) : Prop :=
  forall b, budget state = Some b -> allowedDepth b <= 3.

(** [recurrenceCount] as a number. *)
Definition count (state : ARDRState) : Q :=
  inject_Z (Z.of_nat (recurrenceCount state)).

End Loop.

Module Run.

(** The condition of the fast path. *)
Definition fast (b : ReasoningBudget) : bool :=
  String.eqb (taskType b) "conversation" || (List.length (branches b) =? 0)%nat.

(** The state with which [runARDR] enters its loop. *)
Definition entry (prompt : string) (tier : NexusTier) (b : ReasoningBudget)
    (t : TriStructurePack) (outputs : list BranchOutput) (sp : Scratchpad)
    (v : VerificationResult) : ARDRState :=
  State.set_verification v
    (State.set_scratchpad sp
       (State.set_branchOutputs outputs
          (State.set_triPack t
             (State.set_budget b (State.initial prompt tier))))).

End Run.

(** ** Sample runs *)

Module Sample.

Definition triPack : TriStructurePack :=
  {| symbolic := "S"; invariants := "I"; formal := "F" |}.

Definition empty_scratchpad : Scratchpad :=
  {| entries := []; sharedArtifacts := ∅ |}.

Definition output (name : string) (c : Q) : BranchOutput :=
  {| branchName := name; hypotheses := ["h"]; artifacts := [];
     notes := "n"; contradictions := []; confidence := c |}.

(** The verifier scores the only branch, "logic", 0; the branch itself
    reports a confidence of 0.9. *)
Definition zero_score : World :=
  Env.scripted
    [Env.says (Env.quoted "{'taskType':'reasoning','requiredBranches':['logic']}");
     Env.says "S"; Env.says "I"; Env.says "F";
     Env.says (Env.quoted "{'hypotheses':['h'],'notes':'n','confidence':0.9}");
     Env.says "none";
     Env.says (Env.quoted
       "{'branch_scores':{'logic':0},'weak_points':['coverage is thin'],'uncertainty':0.9}");
     Env.says "answer"].

(** The verifier reports an uncertainty of 0. *)
Definition certain : World :=
  Env.scripted [Env.says "none"; Env.says (Env.quoted "{'uncertainty':0}")].

(** The profiler proposes a depth of 0.5; the verifier scores the only
    branch 0.2, so that the controller recurs once. *)
Definition half_depth : World :=
  Env.scripted
    [Env.says (Env.quoted "{'allowedDepth':0.5,'requiredBranches':['logic']}");
     Env.says "S"; Env.says "I"; Env.says "F";
     Env.says "plain";
     Env.says "none";
     Env.says (Env.quoted "{'branch_scores':{'logic':0.2},'uncertainty':0.9}");
     Env.says "none"; Env.says "none";
     Env.says "none"; Env.says "none";
     Env.says "answer"].

(** The branch "code" is weak after the first verification and is re-run
    once; its refinement parses. *)
Definition refined : World :=
  Env.scripted
    [Env.says (Env.quoted
       "{'taskType':'code','allowedDepth':2,'requiredBranches':['logic','foo','code']}");
     Env.says "S"; Env.says "I"; Env.says "F";
     Env.says_after 5 (Env.quoted
       "{'hypotheses':['h1','h2'],'notes':'n-logic','confidence':0.9}");
     Env.says_after 2 "plain text";
     Env.says "{}";
     Env.says (Env.quoted
       "{'branch_scores':{'logic':0.8,'code':0.4},'weak_points':['the code is slow'],'uncertainty':0.7}");
     Env.says (Env.quoted "{'instructions':{'code':'fix'}}");
     Env.says (Env.quoted "{'hypotheses':['h3'],'notes':'n2','confidence':0.7}");
     Env.says "{}";
     Env.says (Env.quoted "{'uncertainty':0.2}");
     Env.says "final answer"].

(** The only branch reports a confidence of 7. *)
Definition overconfident : World :=
  Env.scripted
    [Env.says (Env.quoted "{'requiredBranches':['logic']}");
     Env.says "S"; Env.says "I"; Env.says "F";
     Env.says (Env.quoted "{'hypotheses':['h'],'notes':'n','confidence':7}");
     Env.says "none"; Env.says "none";
     Env.says "answer"].

(** All reports are in range; a weak point names the branch "logic", and
    the response to its refinement does not parse. *)
Definition boosted : World :=
  Env.scripted
    [Env.says (Env.quoted "{'requiredBranches':['logic']}");
     Env.says "S"; Env.says "I"; Env.says "F";
     Env.says (Env.quoted "{'hypotheses':['h'],'notes':'n','confidence':0.95}");
     Env.says "none";
     Env.says (Env.quoted "{'weak_points':['logic is circular']}");
     Env.says "none"; Env.says "no JSON here";
     Env.says "none"; Env.says "none";
     Env.says "answer"].

End Sample.

(** ** [ARDR.ts]: the command line and the session

    A string of the session is the UTF-8 encoding of the line read.
    [trim] removes the white space and the line terminators of
    ECMAScript, one encoded character at a time. [toLowerCase] is exact
    on ASCII text and leaves every other byte as it is: the session only
    compares its result with the ASCII words exit, quit, debug, low, high
    and max and with the prefix "tier ", and the only characters outside
    ASCII that [toLowerCase] takes to an ASCII letter are the Kelvin sign,
    which becomes a k, and the dotted capital I, which becomes an i
    followed by a combining dot; so each comparison comes out as in the
    code, and [slice(5)] is taken after five ASCII characters. The tier of
    the session is the string the code keeps. What a round of the session
    does to the provider is [runARDR]; a round is modelled by what it
    decides. *)

Module Text.

(** [s.slice(n)] *)
Fixpoint slice (n : nat) (s : string) : string :=
  match n, s with
  | O, _ => s
  | S n', String _ rest => slice n' rest
  | S _, EmptyString => EmptyString
  end.

(** The code points that [trim] removes: TAB, LF, VT, FF, CR, the space,
    the no-break space, the Ogham space mark, the spaces U+2000 to
    U+200A, the line and the paragraph separator, the narrow no-break
    space, the medium mathematical space, the ideographic space and the
    byte order mark. *)
Definition white_space : list N :=
  [9; 10; 11; 12; 13; 32; 160; 5760;
   8192; 8193; 8194; 8195; 8196; 8197; 8198; 8199; 8200; 8201; 8202;
   8232; 8233; 8239; 8287; 12288; 65279]%N.

Definition encode (code : N) : string :=
  string_of_list_ascii (List.rev (JsonParse.rev_utf8 code)).

Definition spaces : list string := List.map encode white_space.

(** The text without the white space character it begins with. *)
Definition strip (s : string) : option string :=
  match List.find (fun ws => String.prefix ws s) spaces with
  | Some ws => Some (slice (String.length ws) s)
  | None => None
  end.

Fixpoint trimStart_from (fuel : nat) (s : string) : string :=
  match fuel with
  | O => s
  | S fuel' =>
      match strip s with
      | Some rest => trimStart_from fuel' rest
      | None => s
      end
  end.

Definition trimStart (s : string) : string := trimStart_from (String.length s) s.

Fixpoint blank_from (fuel : nat) (s : string) : bool :=
  match s, fuel with
  | EmptyString, _ => true
  | _, O => false
  | _, S fuel' =>
      match strip s with
      | Some rest => blank_from fuel' rest
      | None => false
      end
  end.

(** The text is made of characters that [trim] removes. *)
Definition blank (s : string) : bool := blank_from (String.length s) s.

Fixpoint trimEnd (s : string) : string :=
  match s with
  | EmptyString => EmptyString
  | String c rest => if blank s then EmptyString else String c (trimEnd rest)
  end.

Definition trim (s : string) : string := trimEnd (trimStart s).

(** [blank], as a derivation. *)
Inductive Blank : string -> Prop :=
| Blank_nil : Blank EmptyString
| Blank_cons ws rest : List.In ws spaces -> Blank rest -> Blank (ws +:+ rest).

(** The bytes of an encoded character: one that continues a character,
    and the length its first byte announces. *)
Definition continues (c : ascii) : bool :=
  ((128 <=? N_of_ascii c) && (N_of_ascii c <? 192))%N.

Definition width (c : ascii) : nat :=
  if (N_of_ascii c <? 128)%N then 1
  else if (N_of_ascii c <? 224)%N then 2 else 3.

Definition well_formed (ws : string) : bool :=
  match ws with
  | EmptyString => false
  | String h tl =>
      negb (continues h) && (String.length ws =? width h)%nat
      && forallb continues (list_ascii_of_string tl)
  end.

Definition lower (c : ascii) : ascii :=
  let n := N_of_ascii c in
  if (65 <=? n)%N && (n <=? 90)%N then ascii_of_N (n + 32) else c.

Fixpoint toLowerCase (s : string) : string :=
  match s with
  | EmptyString => EmptyString
  | String c rest => String (lower c) (toLowerCase rest)
  end.

(** [s.startsWith(p)] *)
Definition startsWith (s p : string) : bool := String.prefix p s.

End Text.

Definition OPENROUTER_API_KEY_placeholder : string := "YOUR_OPENROUTER_API_KEY".

(** What loading the module does: [None] is [process.exit(1)]. *)
Definition load (OPENROUTER_API_KEY : string) (w : World) : option World :=
  if String.eqb OPENROUTER_API_KEY OPENROUTER_API_KEY_placeholder then None
  else Some (initializeOpenAI w).

Record Session : Type := {
  currentTier : string;
  currentDebug : bool
}.

(** [args[args.indexOf(flag) + 1]] *)
Fixpoint after (flag : string) (args : list string) : option string :=
  match args with
  | [] => None
  | a :: rest => if String.eqb a flag then List.head rest else after flag rest
  end.

(** [args.includes(flag)] *)
Definition has (flag : string) (args : list string) : bool :=
  existsb (String.eqb flag) args.

(** The part of [main] that reads the command line. *)
Definition main (args : list string) : Session :=
  {| currentTier :=
       if has "--tier" args then
         match after "--tier" args with
         | Some t => if String.eqb t "" then "high" else t
         | None => "high"
         end
       else "high";
     currentDebug := has "--debug" args |}.

(** [["low", "high", "max"].includes(t)] *)
Definition valid (t : string) : bool :=
  existsb (String.eqb t) ["low"; "high"; "max"].

(** What a round of the session decides on a line of input: to end the
    process, to ask for the next line with a session that may have
    changed, or to run the pipeline on a prompt and then ask for the next
    line. *)
Inductive Action : Type :=
| Quit
| Next (s : Session)
| Run (prompt : string).

Definition promptUser (s : Session) (input : string) : Action :=
  let trimmed := Text.trim input in
  if String.eqb (Text.toLowerCase trimmed) "exit"
     || String.eqb (Text.toLowerCase trimmed) "quit"
  then Quit
  else if Text.startsWith (Text.toLowerCase trimmed) "tier " then
    let newTier := Text.toLowerCase (Text.slice 5 trimmed) in
    if valid newTier
    then Next {| currentTier := newTier; currentDebug := currentDebug s |}
    else Next s
  else if String.eqb (Text.toLowerCase trimmed) "debug" then
    Next {| currentTier := currentTier s; currentDebug := negb (currentDebug s) |}
  else if String.eqb trimmed "" then Next s
  else Run trimmed.


(** ** The vocabulary of the further properties *)

Module Shape.

Import JsonParse.

Definition is_object (v : json) : bool :=
  match v with
  | JObj _ => true
  | _ => false
  end.

Definition is_FObj (f : frame) : bool :=
  match f with
  | FObj _ _ => true
  | FArr _ => false
  end.

(** The bottom frame of the stack is that of an object. *)
Fixpoint rooted (st : list frame) : bool :=
  match st with
  | [] => false
  | f :: below =>
      match below with
      | [] => is_FObj f
      | _ :: _ => rooted below
      end
  end.

(** The automaton is inside an object that it entered on an empty stack,
    or has just read one. *)
Definition in_object (s : state) : Prop :=
  match snd s with
  | EEnd v => is_object v = true
  | EKeyOrClose _ | EKey _ | EColon _ _ => fst s = [] \/ rooted (fst s) = true
  | EValue | EValueOrClose | EAfterValue => rooted (fst s) = true
  end.

End Shape.

(** The requests of the other stages. *)
Definition decomposition_request (sys : Instruction) : Request :=
  {| rq_model := Some MODELS.cheap; rq_system := Some sys;
     rq_maxTokens := 1500; rq_stream := false |}.

Definition branch_request (config : BranchConfig) : Request :=
  {| rq_model := model config; rq_system := systemPrompt config;
     rq_maxTokens := 800; rq_stream := false |}.

Definition controller_request : Request :=
  {| rq_model := Some MODELS.cheap; rq_system := Some ReasoningController;
     rq_maxTokens := 400; rq_stream := false |}.

Definition refine_request (name : string) : Request :=
  {| rq_model := Some (if String.eqb name "code" then MODELS.code else MODELS.cheap);
     rq_system := Some (Refine name);
     rq_maxTokens := 800; rq_stream := false |}.

Definition synthesis_request (tier : NexusTier) : Request :=
  {| rq_model := Some (tierChief tier); rq_system := Some (GrandSynthesizer tier);
     rq_maxTokens := synthesis_ceiling tier; rq_stream := true |}.

(** The text the gateway makes of the reply to the [n]-th request, sent
    to the model [m]. *)
Definition response_to (w : World) (m : string) (n : nat) : string :=
  settle (Some m) (answer (replies w n)).

Module Protocol.

(** The names, of those asked for, that find a profile. *)
Definition configured (names : list string) : list string :=
  List.filter (fun name => match branchConfigs name with
                           | Some _ => true
                           | None => false
                           end) names.

Definition decomposition : list Request :=
  List.map decomposition_request [SymbolicAbstractor; InvariantReducer; Formalizer].

Definition branch_calls (names : list string) : list Request :=
  List.map branch_request (somes (List.map branchConfigs names)).

Definition verification : list Request :=
  [verification_request CounterexampleGenerator;
   verification_request ConsistencyScorer].

(** The branches a recurrence pass runs again: those that bear the name
    of a weak branch. *)
Definition rerun_set (v : VerificationResult) (outputs : list BranchOutput)
    : list BranchOutput :=
  List.filter (among (List.filter (weak v) outputs)) outputs.

(** The requests of a recurrence pass that runs the branches [names]
    again, with the verification that follows it. *)
Definition pass (names : list string) : list Request :=
  controller_request :: List.map refine_request names ++ verification.

Definition fast (tier : NexusTier) : list Request :=
  [profiler_request; conversation_request tier].

Definition full (tier : NexusTier) (names : list string)
    (passes : list (list string)) : list Request :=
  profiler_request :: decomposition ++ branch_calls names ++ verification
  ++ flat_map pass passes ++ [synthesis_request tier].

(** The three conditions under which the controller recurs. *)
Definition recurs (v : VerificationResult) (b : ReasoningBudget) (n : nat)
    (outputs : list BranchOutput) : bool :=
  negb (Num.ltb (uncertaintyScore v) (Fin UNCERTAINTY_THRESHOLD)
        && (List.length (weakPoints v) =? 0)%nat)
  && negb (Qle_bool (allowedDepth b) (inject_Z (Z.of_nat n)))
  && negb (List.length (List.filter (weak v) outputs) =? 0)%nat.

End Protocol.

(** The ceiling of the tier on the depth, as a count of passes. *)
Definition tier_passes (t : NexusTier) : nat :=
  match t with
  | max => 3
  | high => 2
  | low => 1
  end.

(** An outcome that is not an exception, and a computation that throws
    none once the client is initialized. *)
Definition mild {A} (o : Outcome A) : Prop := forall m, o <> Throw m.

Definition calm {A} (c : M A) : Prop :=
  forall w m, openaiClient w = true -> c w <> Throw m.

(** The message of the [TypeError] of the instruction lookup. *)
Definition lookup_error : string := "instruction.slice is not a function".

(** Some name of the list is one every object inherits. *)
Definition inherited_name (names : list string) : Prop :=
  exists name, List.In name names /\ Js.is_inherited name = true.

(** The state has a budget, a tri-pack and a verification result. *)
Definition filled (st : ARDRState) : Prop :=
  budget st <> None /\ triPack st <> None /\ verification st <> None.

Definition is_note (e : ScratchpadEntry) : bool :=
  match type e with
  | note => true
  | _ => false
  end.

Module Degraded.

(** None of the responses to the requests, issued next and in this
    order, parses. *)
Definition unparsed (w : World) (requests : list Request) : Prop :=
  forall i rq,
    nth_error requests i = Some rq ->
    parseJsonFromResponse
      (settle (rq_model rq) (answer (replies w (List.length (issued w) + i))))
    = None.

(** The budget of a profile that did not parse. *)
Definition budget (tier : NexusTier) : ReasoningBudget :=
  {| taskType := "reasoning";
     complexity := "medium";
     riskScore := 0.5;
     allowedDepth := tierCeiling tier;
     branches := ["logic"; "world"; "code"];
     chiefModel := tierChief tier |}.

(** The output of a branch whose response did not parse. *)
Definition output (name response : string) : BranchOutput :=
  {| branchName := name;
     hypotheses := [Js.slice0 500 response];
     artifacts := [];
     notes := response;
     contradictions := [];
     confidence := 0.5 |}.

(** The verification result of two responses that did not parse. *)
Definition verification (outputs : list BranchOutput) : VerificationResult :=
  {| branchScores := ∅;
     counterexamples := [];
     allContradictions := flat_map contradictions outputs;
     provenInvariants := [];
     uncertaintyScore := blend 0.5 (avgConfidence outputs);
     weakPoints := [] |}.

End Degraded.

(** The verification result of the state is the one that the last
    verification of a run made, and that verification was given the
    tri-pack, the branch outputs and the scratchpad the state holds: the
    requests [since] are those the run has issued after it, up to the
    world [w']. *)
Definition fresh (prompt : string) (since : list Request) (w' : World)
    (st : ARDRState) : Prop :=
  exists t v w1 w2,
    stageC_Verification prompt t (branchOutputs st) (scratchpad st) w1
    = Done (v, w2)
    /\ triPack st = Some t
    /\ verification st = Some v
    /\ replies w1 = replies w'
    /\ issued w' = issued w2 ++ since.

(** ** Further sample runs *)

Module Scene.

Definition budget (names : list string) : ReasoningBudget :=
  {| taskType := "reasoning"; complexity := "medium"; riskScore := 0.5;
     allowedDepth := 2; branches := names; chiefModel := MODELS.chiefHigh |}.

(** The response of the branch asked for first arrives last. *)
Definition out_of_order : World :=
  Env.scripted
    [Env.says_after 5 (Env.quoted "{'hypotheses':['h'],'notes':'slow','confidence':0.9}");
     Env.says_after 2 "fast"].

(** The profiler asks for the branch "constructor", a name every object
    inherits; a weak point names it. *)
Definition inherited_branch : World :=
  Env.scripted
    [Env.says (Env.quoted "{'requiredBranches':['constructor']}");
     Env.says "S"; Env.says "I"; Env.says "F";
     Env.fails "400 model is required";
     Env.says "none";
     Env.says (Env.quoted "{'weak_points':['constructor gave nothing']}");
     Env.says (Env.quoted "{'instructions':{}}")].


(** The run of [Sample.refined] with a decomposition call that fails. *)
Definition flaky : World :=
  Env.scripted
    [Env.says (Env.quoted
       "{'taskType':'code','allowedDepth':2,'requiredBranches':['logic','foo','code']}");
     Env.says "S"; Env.fails "timeout"; Env.says "F";
     Env.says_after 5 (Env.quoted
       "{'hypotheses':['h1','h2'],'notes':'n-logic','confidence':0.9}");
     Env.says_after 2 "plain text";
     Env.says "{}";
     Env.says (Env.quoted
       "{'branch_scores':{'logic':0.8,'code':0.4},'weak_points':['the code is slow'],'uncertainty':0.7}");
     Env.says (Env.quoted "{'instructions':{'code':'fix'}}");
     Env.says (Env.quoted "{'hypotheses':['h3'],'notes':'n2','confidence':0.7}");
     Env.says "{}";
     Env.says (Env.quoted "{'uncertainty':0.2}");
     Env.says "final answer"].

(** Whatever it is asked, the provider answers in prose. *)
Definition prose : World :=
  {| openaiClient := true;
     replies := fun _ => Env.says "I would rather not answer in JSON.";
     clock := fun n => (1000 + Z.of_nat n)%Z;
     issued := [];
     ticks := 0;
     sections := [] |}.

(** Two branch outputs, of which "code" is the weak one, and the
    verification results of a verifier that doubts and of one that does
    not. *)
Definition two_outputs : list BranchOutput :=
  [Sample.output "logic" 0.9; Sample.output "code" 0.3].

Definition verdict (uncertainty : Q) : VerificationResult :=
  {| branchScores := ∅; counterexamples := []; allContradictions := [];
     provenInvariants := []; uncertaintyScore := Fin uncertainty;
     weakPoints := [] |}.

Definition controller_replies : World :=
  Env.scripted
    [Env.says (Env.quoted "{'instructions':{'code':'handle the empty list'}}");
     Env.says (Env.quoted "{'notes':'better','confidence':0.6}")].

End Scene.

(** * Properties *)

(** ** The Response Interpreter *)

Section Interpreter.

Import Spec.

Lemma lacks_app c s t : lacks c (s +:+ t) <-> lacks c s /\ lacks c t.
Proof.
  induction s as [|x s IH]; simpl.
  - tauto.
  - rewrite IH. tauto.
Qed.

Lemma from_first_brace_spec s s' :
  from_first_brace s = Some s' <->
  exists pre rest, s = pre +:+ String "{" rest /\ s' = String "{" rest /\ lacks "{" pre.
Proof.
  induction s as [|x s IH]; simpl.
  - split; [discriminate|].
    intros (pre & rest & E & _). destruct pre; discriminate.
  - destruct (Ascii.eqb_spec x "{") as [->|Hx].
    + split.
      * intros [= <-]. exists EmptyString, s. simpl. auto.
      * intros (pre & rest & E & -> & L). destruct pre as [|y pre]; simpl in *.
        -- congruence.
        -- injection E as E _. destruct L as [L _]. congruence.
    + rewrite IH. split.
      * intros (pre & rest & -> & -> & L). exists (String x pre), rest. simpl. auto.
      * intros (pre & rest & E & -> & L). destruct pre as [|y pre]; simpl in *.
        -- congruence.
        -- injection E as -> ->. exists pre, rest. tauto.
Qed.

Lemma upto_last_brace_None s : upto_last_brace s = None <-> lacks "}" s.
Proof.
  induction s as [|x s IH]; simpl.
  - tauto.
  - destruct (upto_last_brace s) as [p|].
    + split; [discriminate|]. intros [_ L]. apply IH in L. discriminate.
    + destruct (Ascii.eqb_spec x "}") as [->|Hx].
      * split; [discriminate|]. tauto.
      * split; [intros _; split; [assumption | now apply IH] | reflexivity].
Qed.

Lemma upto_last_brace_spec s p :
  upto_last_brace s = Some p <->
  exists body post, s = body +:+ String "}" post /\ p = body +:+ "}" /\ lacks "}" post.
Proof.
  revert p. induction s as [|x s IH]; intros p; simpl.
  - split; [discriminate|].
    intros (body & post & E & _). destruct body; discriminate.
  - destruct (upto_last_brace s) as [q|] eqn:Eq.
    + split.
      * intros [= <-]. destruct (proj1 (IH q) eq_refl) as (body & post & -> & -> & L).
        exists (String x body), post. simpl. auto.
      * intros (body & post & E & -> & L). destruct body as [|y body]; simpl in *.
        -- injection E as -> ->. apply upto_last_brace_None in L. congruence.
        -- injection E as -> ->. f_equal. f_equal.
           assert (H : Some q = Some (body +:+ "}")).
           { apply IH. exists body, post. auto. }
           congruence.
    + apply upto_last_brace_None in Eq.
      destruct (Ascii.eqb_spec x "}") as [->|Hx].
      * split.
        -- intros [= <-]. exists EmptyString, s. simpl. auto.
        -- intros (body & post & E & -> & L). destruct body as [|y body]; simpl in *.
           ++ reflexivity.
           ++ injection E as _ ->. apply lacks_app in Eq. simpl in Eq.
              exfalso. apply (proj1 (proj2 Eq)). reflexivity.
      * split; [discriminate|].
        intros (body & post & E & -> & L). destruct body as [|y body]; simpl in *.
        -- congruence.
        -- injection E as _ ->. apply lacks_app in Eq. simpl in Eq.
           exfalso. apply (proj1 (proj2 Eq)). reflexivity.
Qed.

Lemma jsonMatch_spec response text :
  jsonMatch response = Some text <->
  exists pre mid post,
    response = pre +:+ "{" +:+ mid +:+ "}" +:+ post
    /\ text = "{" +:+ mid +:+ "}"
    /\ lacks "{" pre /\ lacks "}" post.
Proof.
  unfold jsonMatch. split.
  - destruct (from_first_brace response) as [s|] eqn:E; [|discriminate].
    apply from_first_brace_spec in E. destruct E as (pre & rest & -> & -> & Lpre).
    intros H. apply upto_last_brace_spec in H.
    destruct H as (body & post & E & -> & Lpost).
    destruct body as [|y body]; simpl in E; [discriminate|].
    injection E as <- ->. exists pre, body, post. simpl. auto.
  - intros (pre & mid & post & -> & -> & Lpre & Lpost).
    assert (E : from_first_brace (pre +:+ "{" +:+ mid +:+ "}" +:+ post)
                = Some (String "{" (mid +:+ "}" +:+ post))).
    { apply from_first_brace_spec. exists pre, (mid +:+ "}" +:+ post). auto. }
    rewrite E. apply upto_last_brace_spec.
    exists (String "{" mid), post. simpl. auto.
Qed.

End Interpreter.

(** C8, as amended. The Response Interpreter takes the text from the first
    opening brace of the response to the last closing brace after it (not
    the first balanced region) and hands it to [JSON.parse]: it returns the
    parsed value exactly when such a text exists and parses, and none
    otherwise; nothing is repaired and nothing is raised. *)
Theorem parseJsonFromResponse_first_to_last_brace (response : string) (v : json) :
  parseJsonFromResponse response = Some v <->
  exists pre mid post,
    response = pre +:+ "{" +:+ mid +:+ "}" +:+ post
    /\ Spec.lacks "{" pre /\ Spec.lacks "}" post
    /\ JSON_parse ("{" +:+ mid +:+ "}") = Some v.
Proof.
  unfold parseJsonFromResponse. split.
  - destruct (jsonMatch response) as [text|] eqn:E; [|discriminate].
    apply jsonMatch_spec in E. destruct E as (pre & mid & post & -> & -> & L1 & L2).
    intros H. exists pre, mid, post. auto.
  - intros (pre & mid & post & -> & L1 & L2 & H).
    assert (E : jsonMatch (pre +:+ "{" +:+ mid +:+ "}" +:+ post)
                = Some ("{" +:+ mid +:+ "}")).
    { apply jsonMatch_spec. exists pre, mid, post. auto. }
    rewrite E. exact H.
Qed.

(** C8 fails as stated: the first balanced region of this response is valid
    JSON, and the interpreter returns none. *)
Lemma parseJsonFromResponse_two_objects :
  Spec.first_balanced_region (Env.quoted "{'a':1} {'b':2}") = Some (Env.quoted "{'a':1}")
  /\ JSON_parse (Env.quoted "{'a':1}") = Some (JObj [("a", JNum 1)])
  /\ parseJsonFromResponse (Env.quoted "{'a':1} {'b':2}") = None.
Proof. repeat split; vm_compute; reflexivity. Qed.

(** ** The Inference Gateway *)

Lemma callModel_initialized w m sys maxTokens :
  openaiClient w = true ->
  callModel m sys maxTokens w
  = Done (settle m (answer (next_reply w)),
          record_request {| rq_model := m; rq_system := sys;
                            rq_maxTokens := maxTokens; rq_stream := false |} w).
Proof.
  intros H. unfold callModel, callModel_timed, M.bind, getOpenAI, create, M.ret.
  rewrite H. reflexivity.
Qed.

Lemma callModelStreaming_initialized w m sys maxTokens :
  openaiClient w = true ->
  callModelStreaming m sys maxTokens w
  = Done (settle m (answer (next_reply w)),
          record_request {| rq_model := m; rq_system := sys;
                            rq_maxTokens := maxTokens; rq_stream := true |} w).
Proof.
  intros H. unfold callModelStreaming, M.bind, getOpenAI, create, M.ret.
  rewrite H. reflexivity.
Qed.

Lemma callModel_uninitialized w m sys maxTokens :
  openaiClient w = false ->
  callModel m sys maxTokens w = Throw not_initialized.
Proof.
  intros H. unfold callModel, callModel_timed, M.bind, getOpenAI.
  rewrite H. reflexivity.
Qed.

Lemma callModelStreaming_uninitialized w m sys maxTokens :
  openaiClient w = false ->
  callModelStreaming m sys maxTokens w = Throw not_initialized.
Proof.
  intros H. unfold callModelStreaming, M.bind, getOpenAI.
  rewrite H. reflexivity.
Qed.

Lemma runARDR_uninitialized fuel prompt tier w :
  openaiClient w = false ->
  runARDR fuel prompt tier w = Throw not_initialized.
Proof.
  intros H.
  unfold runARDR, runARDR_state, stage0_TaskProfiler, M.bind at 1 2 3 4.
  unfold logSection. rewrite callModel_uninitialized; [reflexivity | exact H].
Qed.

(** C9. Once the client is initialized, a call of the gateway (plain or
    streaming) returns a string whatever the provider does, and when the
    provider fails with a message the string is the inline marker
    "[Error calling <model>: <message>]". Before initialization the call
    raises at once, and so does the whole run. *)
Theorem gateway_raises_only_before_initialization
    (w : World) (m : option string) (sys : option Instruction) (maxTokens : Z) :
  (openaiClient w = true ->
     (exists text w', callModel m sys maxTokens w = Done (text, w')
        /\ text = settle m (answer (next_reply w)))
     /\ (exists text w', callModelStreaming m sys maxTokens w = Done (text, w')
        /\ text = settle m (answer (next_reply w)))
     /\ (forall message, answer (next_reply w) = Failure message ->
           settle m (answer (next_reply w))
           = "[Error calling " +:+ show_model m +:+ ": " +:+ message +:+ "]"))
  /\ (openaiClient w = false ->
        callModel m sys maxTokens w = Throw not_initialized
        /\ callModelStreaming m sys maxTokens w = Throw not_initialized
        /\ forall fuel prompt tier,
             runARDR fuel prompt tier w = Throw not_initialized).
Proof.
  split; intros H.
  - repeat split.
    + eexists _, _. split; [apply callModel_initialized; exact H | reflexivity].
    + eexists _, _. split; [apply callModelStreaming_initialized; exact H | reflexivity].
    + intros message ->. reflexivity.
  - repeat split.
    + apply callModel_uninitialized, H.
    + apply callModelStreaming_uninitialized, H.
    + intros. apply runARDR_uninitialized, H.
Qed.

Lemma gateway_answers_a_failed_call :
  (exists text w',
      callModel (Some MODELS.cheap) (Some Formalizer) 600
                (Env.scripted [Env.fails "timeout"]) = Done (text, w')
      /\ text = "[Error calling google/gemini-2.0-flash-001: timeout]")
  /\ callModel (Some MODELS.cheap) (Some Formalizer) 600
               (Env.uninitialized (Env.scripted [])) = Throw not_initialized.
Proof.
  split.
  - destruct (gateway_raises_only_before_initialization
                (Env.scripted [Env.fails "timeout"])
                (Some MODELS.cheap) (Some Formalizer) 600) as [H _].
    destruct (H eq_refl) as [(text & w' & E & T) _].
    exists text, w'. split; [exact E | rewrite T; reflexivity].
  - apply (gateway_raises_only_before_initialization
             (Env.uninitialized (Env.scripted []))
             (Some MODELS.cheap) (Some Formalizer) 600).
    reflexivity.
Defined.

(** ** Running computations *)

Lemma bind_Done {A B} (c : M A) (k : A -> M B) w b w' :
  M.bind c k w = Done (b, w') <->
  exists a w1, c w = Done (a, w1) /\ k a w1 = Done (b, w').
Proof.
  unfold M.bind. split.
  - destruct (c w) as [[a w1]| | |]; try discriminate. eauto.
  - intros (a & w1 & -> & H). exact H.
Qed.

Lemma lift_Done {A} (o : Outcome A) w a w' :
  M.lift o w = Done (a, w') <-> o = Done a /\ w' = w.
Proof.
  unfold M.lift, Outcome.map, Outcome.bind. split.
  - destruct o; try discriminate. intros [= -> ->]. auto.
  - intros [-> ->]. reflexivity.
Qed.

Lemma ret_Done {A} (x : A) w a w' :
  M.ret x w = Done (a, w') <-> a = x /\ w' = w.
Proof.
  unfold M.ret. split.
  - intros [= -> ->]. auto.
  - intros [-> ->]. reflexivity.
Qed.

Lemma callModel_Done m sys maxTokens w text w' :
  callModel m sys maxTokens w = Done (text, w') <->
  openaiClient w = true
  /\ text = settle m (answer (next_reply w))
  /\ w' = record_request {| rq_model := m; rq_system := sys;
                            rq_maxTokens := maxTokens; rq_stream := false |} w.
Proof.
  destruct (openaiClient w) eqn:E.
  - rewrite callModel_initialized by exact E. split.
    + intros [= -> ->]. auto.
    + intros (_ & -> & ->). reflexivity.
  - rewrite callModel_uninitialized by exact E. split.
    + discriminate.
    + intros (H & _). discriminate.
Qed.

(** ** The fast path *)

Lemma stage0_Done prompt tier w b w1 :
  stage0_TaskProfiler prompt tier w = Done (b, w1) <->
  openaiClient w = true
  /\ budget_of tier (settle (Some MODELS.profiler) (answer (next_reply w))) = Done b
  /\ w1 = record_request profiler_request (record_section banner0 w).
Proof.
  unfold stage0_TaskProfiler. rewrite bind_Done. split.
  - intros ([] & w0 & H0 & H). injection H0 as <-.
    apply bind_Done in H. destruct H as (response & w2 & H1 & H2).
    apply callModel_Done in H1. destruct H1 as (C & -> & ->).
    apply lift_Done in H2. destruct H2 as [H2 ->]. auto.
  - intros (C & H & ->). exists tt, (record_section banner0 w). split; [reflexivity|].
    apply bind_Done. eexists _, _. split.
    + apply callModel_Done. split; [exact C | split; reflexivity].
    + apply lift_Done. split; [exact H | reflexivity].
Qed.



(** ** Inverting completed computations *)

Lemma obind_Done {A B} (o : Outcome A) (k : A -> Outcome B) b :
  Outcome.bind o k = Done b <-> exists a, o = Done a /\ k a = Done b.
Proof.
  unfold Outcome.bind. split.
  - destruct o; try discriminate. eauto.
  - intros (a & -> & H). exact H.
Qed.

Lemma omap_Done {A B} (f : A -> B) (o : Outcome A) b :
  Outcome.map f o = Done b <-> exists a, o = Done a /\ b = f a.
Proof.
  unfold Outcome.map. rewrite obind_Done. split.
  - intros (a & -> & [= <-]). eauto.
  - intros (a & -> & ->). eauto.
Qed.

Lemma logSection_Done title w u w' :
  logSection title w = Done (u, w') <-> w' = record_section title w.
Proof.
  unfold logSection. split.
  - intros [= _ <-]. reflexivity.
  - intros ->. destruct u. reflexivity.
Qed.

Ltac inv_done :=
  repeat match goal with
    | H : M.bind _ _ _ = Done _ |- _ =>
        apply bind_Done in H; destruct H as (? & ? & ? & ?)
    | H : Outcome.bind _ _ = Done _ |- _ =>
        apply obind_Done in H; destruct H as (? & ? & ?)
    | H : Outcome.map _ _ = Done _ |- _ =>
        apply omap_Done in H; destruct H as (? & ? & ?)
    | H : M.lift _ _ = Done _ |- _ =>
        apply lift_Done in H; destruct H as [? ?]
    | H : M.ret _ _ = Done _ |- _ =>
        apply ret_Done in H; destruct H as [? ?]
    | H : callModel _ _ _ _ = Done _ |- _ =>
        apply callModel_Done in H; destruct H as (? & ? & ?)
    | H : logSection _ _ = Done _ |- _ =>
        apply logSection_Done in H
    | H : Done _ = Done _ |- _ => injection H as H
    end.

(** ** Verification over no branch at all *)

Lemma blend_NaN reported : blend reported NaN = NaN.
Proof. reflexivity. Qed.

Lemma avgConfidence_nil : avgConfidence [] = NaN.
Proof. reflexivity. Qed.

Lemma consistency_of_blend response cs ces avg v :
  consistency_of response cs ces avg = Done v ->
  exists reported, uncertaintyScore v = blend reported avg.
Proof.
  unfold consistency_of. destruct (if_truthy (parseJsonFromResponse response)).
  - intros H. inv_done. subst v. eexists. reflexivity.
  - intros [= <-]. eexists. reflexivity.
Qed.

Lemma stageC_blend prompt t outputs sp w v w' :
  stageC_Verification prompt t outputs sp w = Done (v, w') ->
  exists reported, uncertaintyScore v = blend reported (avgConfidence outputs).
Proof.
  unfold stageC_Verification. intros H. inv_done.
  eapply consistency_of_blend. eassumption.
Qed.

Lemma each_unknown names w :
  Forall (fun name => branchConfigs name = None) names ->
  M.each start_branch names w = Done (List.map (fun _ => None) names, w).
Proof.
  induction 1 as [|name names Hname _ IH]; [reflexivity|].
  simpl. unfold M.bind. unfold start_branch at 1. rewrite Hname.
  simpl. rewrite IH. reflexivity.
Qed.

Lemma somes_none {A B} (l : list B) : somes (List.map (fun _ => @None A) l) = [].
Proof. induction l; simpl; auto. Qed.

(** C10. When the branches the budget asks for are there but none of them
    has a profile, the Branch Executor issues no request, writes nothing
    and returns no output; the mean confidence over no output is 0/0, and
    every verification result computed from it has an uncertainty score
    that is NaN, hence not in [0,1]. *)
Theorem unknown_branches_give_NaN_uncertainty
    (prompt : string) (t : TriStructurePack) (b : ReasoningBudget)
    (sp : Scratchpad) (w : World) :
  branches b <> [] ->
  Forall (fun name => branchConfigs name = None) (branches b) ->
  (String.eqb (taskType b) "conversation" = false ->
   String.eqb (taskType b) "conversation"
   || (List.length (branches b) =? 0)%nat = false)
  /\ stageB_DendriticBranches prompt t b sp w
     = Done (([], sp), record_section bannerB w)
  /\ avgConfidence [] = NaN
  /\ forall w1 v w2,
       stageC_Verification prompt t [] sp w1 = Done (v, w2) ->
       uncertaintyScore v = NaN /\ ~ in_unit (uncertaintyScore v).
Proof.
  intros Hne Hall. repeat split.
  - intros ->. destruct (branches b); [contradiction | reflexivity].
  - unfold stageB_DendriticBranches. unfold M.bind at 1. unfold logSection.
    unfold M.bind at 1. rewrite each_unknown by exact Hall.
    rewrite somes_none. reflexivity.
  - apply stageC_blend in H. destruct H as [reported ->]. reflexivity.
  - apply stageC_blend in H. destruct H as [reported ->]. simpl. tauto.
Qed.

Lemma intuition_branch_gives_no_output :
  stageB_DendriticBranches "p"
    {| symbolic := "S"; invariants := "I"; formal := "F" |}
    {| taskType := "reasoning"; complexity := "medium"; riskScore := 0.5;
       allowedDepth := 2; branches := ["intuition"];
       chiefModel := MODELS.chiefHigh |}
    {| entries := []; sharedArtifacts := ∅ |}
    (Env.scripted [])
  = Done (([], {| entries := []; sharedArtifacts := ∅ |}),
          record_section bannerB (Env.scripted []))
  /\ avgConfidence [] = NaN.
Proof.
  destruct (unknown_branches_give_NaN_uncertainty "p"
              {| symbolic := "S"; invariants := "I"; formal := "F" |}
              {| taskType := "reasoning"; complexity := "medium"; riskScore := 0.5;
                 allowedDepth := 2; branches := ["intuition"];
                 chiefModel := MODELS.chiefHigh |}
              {| entries := []; sharedArtifacts := ∅ |}
              (Env.scripted []))
    as (_ & HB & Havg & _).
  - discriminate.
  - repeat constructor.
  - split; [exact HB | exact Havg].
Defined.

(** A whole run of that kind: the profiler asks for one branch that has no
    profile; the run completes with no branch output and a NaN uncertainty. *)
Example run_with_an_unknown_branch :
  exists r st w',
    runARDR_state 5 "p" high
      (Env.scripted
         [Env.says (Env.quoted "{'taskType':'reasoning','requiredBranches':['intuition']}");
          Env.says "S"; Env.says "I"; Env.says "F";
          Env.says "none"; Env.says "none"; Env.says "answer"])
    = Done ((r, st), w')
    /\ branchOutputs st = []
    /\ option_map uncertaintyScore (verification st) = Some NaN
    /\ sections w' = [banner0; bannerA; bannerB; bannerC; bannerD; bannerFinal].
Proof. eexists _, _, _. split; [vm_compute; reflexivity | repeat split]. Qed.

(** ** The depth of the budget *)

Lemma Qltb_lt a b : Qltb a b = true <-> a < b.
Proof.
  unfold Qltb. rewrite negb_true_iff. split.
  - intros H. apply Qnot_le_lt. intros Hle. apply Qle_bool_iff in Hle. congruence.
  - intros H. destruct (Qle_bool b a) eqn:E; [|reflexivity].
    apply Qle_bool_iff in E. exfalso. apply (Qlt_not_le _ _ H E).
Qed.

Lemma Qltb_ge a b : Qltb a b = false <-> b <= a.
Proof.
  unfold Qltb. rewrite negb_false_iff. apply Qle_bool_iff.
Qed.

Lemma Math_min_le_r a b : Math_min a b <= b.
Proof.
  unfold Math_min. destruct (Qltb b a) eqn:E.
  - apply Qle_refl.
  - apply Qltb_ge in E. exact E.
Qed.

Lemma Math_min_le_l a b : Math_min a b <= a.
Proof.
  unfold Math_min. destruct (Qltb b a) eqn:E.
  - apply Qltb_lt in E. apply Qlt_le_weak, E.
  - apply Qle_refl.
Qed.

Lemma Math_min_l a b : a <= b -> Math_min a b = a.
Proof.
  intros H. unfold Math_min. destruct (Qltb b a) eqn:E; [|reflexivity].
  apply Qltb_lt in E. exfalso. apply (Qlt_not_le _ _ E H).
Qed.

Lemma Math_min_cases a b : Math_min a b = a \/ Math_min a b = b.
Proof. unfold Math_min. destruct (Qltb b a); auto. Qed.

Lemma tierCeiling_range tier :
  exists n : Z, tierCeiling tier = inject_Z n /\ (1 <= n <= 3)%Z.
Proof. destruct tier; [exists 1%Z | exists 2%Z | exists 3%Z]; split; (reflexivity || lia). Qed.

Lemma number_read x d q :
  Read.number x d = Done q ->
  (exists p, x = Some (JNum p) /\ Qis0 p = false /\ q = p) \/ q = d.
Proof.
  unfold Read.number. destruct x as [[]|]; simpl; try (intros [= <-]; auto; fail).
  - destruct b; [discriminate | intros [= <-]; auto].
  - destruct (Qis0 q0) eqn:E; intros [= <-]; eauto.
  - destruct (negb (String.eqb s "")); [discriminate | intros [= <-]; auto].
Qed.

Lemma budget_of_depth tier response b :
  budget_of tier response = Done b ->
  match Proposal.depth response with
  | Some d => allowedDepth b = Math_min d (tierCeiling tier)
  | None => allowedDepth b = Math_min 2 (tierCeiling tier)
            \/ allowedDepth b = tierCeiling tier
  end.
Proof.
  unfold budget_of, Proposal.depth.
  destruct (if_truthy (parseJsonFromResponse response)) as [parsed|].
  - intros H. inv_done. subst b. simpl.
    match goal with H : Read.number _ 2 = Done _ |- _ => rename H into Hd end.
    unfold Read.number in Hd.
    destruct (Js.field "allowedDepth" parsed) as [[]|]; simpl in Hd;
      try (injection Hd as <-; auto; fail); try discriminate.
    + destruct b; [discriminate | injection Hd as <-; auto].
    + destruct (Qis0 q); injection Hd as <-; auto.
    + destruct (negb (String.eqb s "")); [discriminate | injection Hd as <-; auto].
  - intros [= <-]. simpl. auto.
Qed.



Lemma Math_min_spec a b :
  (a <= b /\ Math_min a b = a) \/ (b < a /\ Math_min a b = b).
Proof.
  unfold Math_min. destruct (Qltb b a) eqn:E.
  - right. split; [apply Qltb_lt, E | reflexivity].
  - left. split; [apply Qltb_ge, E | reflexivity].
Qed.




(** ** Weak branches *)


Lemma score_cases v b :
  (exists s, branchScores v !! branchName b = Some s /\ ~ s == 0 /\ score v b = s)
  \/ ((branchScores v !! branchName b = None
       \/ exists s, branchScores v !! branchName b = Some s /\ s == 0)
      /\ score v b = confidence b).
Proof.
  unfold score. destruct (branchScores v !! branchName b) as [s|] eqn:E.
  - unfold Qis0. destruct (Qeq_bool s 0) eqn:E0.
    + right. apply Qeq_bool_iff in E0. eauto.
    + left. exists s. repeat split. intros H. apply Qeq_bool_iff in H. congruence.
  - right. auto.
Qed.

Lemma stageD_stops_without_weak_branch prompt t outputs sp v b n w :
  List.filter (weak v) outputs = [] ->
  stageD_AdaptiveRecurrence prompt t outputs sp v b n w
  = Done ((false, outputs), record_section bannerD w).
Proof.
  intros H. unfold stageD_AdaptiveRecurrence, M.bind, logSection. rewrite H. simpl.
  destruct (_ && _); [reflexivity|].
  destruct (Qle_bool _ _); reflexivity.
Qed.

(** C4 at its failing input. The verifier gives the branch "logic" the
    explicit score 0, no weak point names it, and its own confidence is
    0.9: the controller does not classify it as weak, and the run ends
    without a recurrence pass and without a request to refine "logic". *)
Theorem zero_score_is_read_as_no_score :
  exists r st w' v b,
    runARDR_state 5 "p" high Sample.zero_score = Done ((r, st), w')
    /\ verification st = Some v
    /\ branchOutputs st = [b]
    /\ branchName b = "logic"
    /\ confidence b == 0.9
    /\ branchScores v !! "logic" = Some 0
    /\ weakPoints v = ["coverage is thin"]
    /\ weak v b = false
    /\ recurrenceCount st = 0%nat
    /\ List.map rq_system (issued w')
       = [Some TaskProfiler; Some SymbolicAbstractor; Some InvariantReducer;
          Some Formalizer; Some (Branch "logic"); Some CounterexampleGenerator;
          Some ConsistencyScorer; Some (GrandSynthesizer high)].
Proof.
  eexists _, _, _, _, _. split; [vm_compute; reflexivity|].
  repeat split; vm_compute; reflexivity.
Qed.

(** ** The uncertainty blend *)

Lemma sum_confidence_from outputs acc :
  fold_left (fun sum b => sum + confidence b) outputs acc
  == acc + fold_right Qplus 0 (List.map confidence outputs).
Proof.
  revert acc. induction outputs as [|b outputs IH]; intros acc; simpl.
  - ring.
  - rewrite IH. ring.
Qed.

Lemma avgConfidence_mean outputs :
  outputs <> [] ->
  exists a, avgConfidence outputs = Fin a
            /\ a == Blend.mean (List.map confidence outputs).
Proof.
  intros Hne. unfold avgConfidence, Num.div.
  assert (H0 : Qis0 (inject_Z (Z.of_nat (List.length outputs))) = false).
  { destruct outputs; [contradiction | reflexivity]. }
  rewrite H0. eexists. split; [reflexivity|].
  unfold Blend.mean, sum_confidence. rewrite sum_confidence_from.
  rewrite length_map. apply Qdiv_comp; [ring | reflexivity].
Qed.

Lemma consistency_of_reported response cs ces avg v :
  consistency_of response cs ces avg = Done v ->
  exists reported,
    uncertaintyScore v = blend reported avg
    /\ (reported = Blend.modelReportedUncertainty response
        \/ Blend.modelReportedUncertainty response == 0 /\ reported = 0.5).
Proof.
  unfold consistency_of, Blend.modelReportedUncertainty, if_truthy.
  destruct (parseJsonFromResponse response) as [parsed|].
  - destruct (Js.truthy parsed) eqn:Et.
    + intros H. inv_done. subst v. simpl. eexists. split; [reflexivity|].
      match goal with H : Read.number _ _ = Done _ |- _ => rename H into Hu end.
      unfold Read.number in Hu.
      destruct (Js.field "uncertainty" parsed) as [[]|]; simpl in Hu;
        try (injection Hu as <-; auto; fail); try discriminate.
      * destruct b; [discriminate | injection Hu as <-; auto].
      * unfold Qis0 in Hu. destruct (Qeq_bool q 0) eqn:E0; injection Hu as <-; auto.
        right. split; [apply Qeq_bool_iff, E0 | reflexivity].
      * destruct (negb (String.eqb s "")); [discriminate | injection Hu as <-; auto].
    + intros [= <-]. simpl. eexists. split; [reflexivity|]. left.
      destruct parsed; try reflexivity; discriminate.
  - intros [= <-]. simpl. eauto.
Qed.

(** The blend is the one specified whenever the verifier does not report
    an uncertainty of 0. *)
Lemma stageC_blends_a_non_zero_report prompt t outputs sp w v w' :
  stageC_Verification prompt t outputs sp w = Done (v, w') ->
  outputs <> [] ->
  let response :=
    settle (Some MODELS.cheap)
      (answer (next_reply (record_request (verification_request CounterexampleGenerator)
                                          (record_section bannerC w)))) in
  ~ Blend.modelReportedUncertainty response == 0 ->
  exists q, uncertaintyScore v = Fin q /\ q == Blend.specified response outputs.
Proof.
  intros H Hne response Hnz. unfold stageC_Verification in H. inv_done. subst.
  match goal with H : consistency_of _ _ _ _ = Done _ |- _ =>
    apply consistency_of_reported in H; destruct H as (reported & Hv & Hr) end.
  destruct Hr as [-> | [Hzero _]]; [|contradiction].
  destruct (avgConfidence_mean outputs Hne) as (a & Ha & Hmean).
  rewrite Hv, Ha. simpl. eexists. split; [reflexivity|].
  unfold Blend.specified. fold response. rewrite Hmean. reflexivity.
Qed.

(** C5 at its failing input. The consistency response parses and reports
    an uncertainty of 0; the only branch has confidence 0.5. The engine
    blends 0.5, not the 0 reported: the score is 1/2 where the formula of
    the claim gives 1/4. *)
Theorem zero_uncertainty_is_read_as_none :
  exists v w' q,
    stageC_Verification "p" Sample.triPack [Sample.output "logic" 0.5]
                        Sample.empty_scratchpad Sample.certain = Done (v, w')
    /\ Blend.modelReportedUncertainty (Env.quoted "{'uncertainty':0}") == 0
    /\ uncertaintyScore v = Fin q
    /\ q == 1 # 2
    /\ Blend.specified (Env.quoted "{'uncertainty':0}") [Sample.output "logic" 0.5] == 1 # 4.
Proof.
  eexists _, _, _. split; [vm_compute; reflexivity|].
  repeat split; vm_compute; reflexivity.
Qed.

(** ** Later worlds *)

Lemma extends_refl w : extends w w.
Proof. repeat split. exists []. symmetry. apply app_nil_r. Qed.

Lemma extends_trans w1 w2 w3 : extends w1 w2 -> extends w2 w3 -> extends w1 w3.
Proof.
  intros (C1 & R1 & K1 & m1 & I1) (C2 & R2 & K2 & m2 & I2).
  repeat split; try congruence.
  exists (m1 ++ m2). rewrite I2, I1. symmetry. apply app_assoc.
Qed.

Lemma extends_request rq w : extends w (record_request rq w).
Proof. repeat split. exists [rq]. reflexivity. Qed.

Lemma extends_section title w : extends w (record_section title w).
Proof. repeat split. exists []. simpl. symmetry. apply app_nil_r. Qed.

Lemma extends_tick w : extends w (advance_clock w).
Proof. repeat split. exists []. simpl. symmetry. apply app_nil_r. Qed.

Lemma frames_ret {A} (a : A) : frames (M.ret a).
Proof. intros w a' w' H. apply ret_Done in H. destruct H as [_ ->]. apply extends_refl. Qed.

Lemma frames_bind {A B} (c : M A) (k : A -> M B) :
  frames c -> (forall a, frames (k a)) -> frames (M.bind c k).
Proof.
  intros Hc Hk w b w' H. apply bind_Done in H. destruct H as (a & w1 & H1 & H2).
  eapply extends_trans; [eapply Hc | eapply Hk]; eassumption.
Qed.

Lemma frames_lift {A} (o : Outcome A) : frames (M.lift o).
Proof. intros w a w' H. apply lift_Done in H. destruct H as [_ ->]. apply extends_refl. Qed.

Lemma frames_each {A B} (f : A -> M B) l :
  (forall a, frames (f a)) -> frames (M.each f l).
Proof.
  intros Hf. induction l as [|a l IH]; simpl.
  - apply frames_ret.
  - apply frames_bind; [apply Hf|]. intros b.
    apply frames_bind; [exact IH|]. intros bs. apply frames_ret.
Qed.

Lemma frames_getOpenAI : frames getOpenAI.
Proof.
  intros w a w'. unfold getOpenAI. destruct (openaiClient w); [|discriminate].
  intros [= _ <-]. apply extends_refl.
Qed.

Lemma frames_create rq : frames (create rq).
Proof. intros w a w' [= _ <-]. apply extends_request. Qed.

Lemma frames_logSection title : frames (logSection title).
Proof. intros w a w' [= _ <-]. apply extends_section. Qed.

Lemma frames_Date_now : frames Date_now.
Proof. intros w a w' [= _ <-]. apply extends_tick. Qed.

Lemma frames_of_null {A} what (x : option A) : frames (of_null what x).
Proof. destruct x; simpl; [apply frames_ret | intros w a w' H; discriminate]. Qed.

Create HintDb frames.
#[local] Hint Resolve frames_ret frames_lift frames_getOpenAI frames_create
  frames_logSection frames_Date_now frames_of_null : frames.

Ltac frames_step :=
  match goal with
  | |- frames (M.bind _ _) => apply frames_bind; [|intros]
  | |- frames (M.each _ _) => apply frames_each; intros
  | |- frames (if ?b then _ else _) => destruct b
  | |- frames (match ?x with _ => _ end) => destruct x
  | |- frames _ => solve [eauto with frames]
  end.

Ltac frames_tac := repeat frames_step.

Lemma frames_callModel_timed m sys k : frames (callModel_timed m sys k).
Proof. unfold callModel_timed. frames_tac. Qed.

Lemma frames_callModel m sys k : frames (callModel m sys k).
Proof. unfold callModel. frames_tac. apply frames_callModel_timed. Qed.

Lemma frames_callModelStreaming m sys k : frames (callModelStreaming m sys k).
Proof. unfold callModelStreaming. frames_tac. Qed.

#[local] Hint Resolve frames_callModel_timed frames_callModel
  frames_callModelStreaming : frames.

Lemma frames_stage0 prompt tier : frames (stage0_TaskProfiler prompt tier).
Proof. unfold stage0_TaskProfiler. frames_tac. Qed.

Lemma frames_stageA prompt b : frames (stageA_StructuredDecomposition prompt b).
Proof. unfold stageA_StructuredDecomposition. frames_tac. Qed.

Lemma frames_push_now b ty text sp : frames (push_now b ty text sp).
Proof. unfold push_now. frames_tac. Qed.

Lemma frames_push_hypotheses b hs sp : frames (push_hypotheses b hs sp).
Proof.
  revert sp. induction hs as [|h hs IH]; intros sp; simpl.
  - apply frames_ret.
  - apply frames_bind; [apply frames_push_now | intros; apply IH].
Qed.

Lemma frames_record_output sp output : frames (record_output sp output).
Proof.
  unfold record_output.
  apply frames_bind; [apply frames_push_now | intros; apply frames_push_hypotheses].
Qed.

Lemma frames_record_outputs sp outputs : frames (record_outputs sp outputs).
Proof.
  revert sp. induction outputs as [|o outputs IH]; intros sp; simpl.
  - apply frames_ret.
  - apply frames_bind; [apply frames_record_output | intros; apply IH].
Qed.

Lemma frames_start_branch name : frames (start_branch name).
Proof. unfold start_branch. frames_tac. Qed.

#[local] Hint Resolve frames_record_outputs frames_start_branch : frames.

Lemma frames_stageB prompt t b sp : frames (stageB_DendriticBranches prompt t b sp).
Proof. unfold stageB_DendriticBranches. frames_tac. Qed.

Lemma frames_stageC prompt t outputs sp : frames (stageC_Verification prompt t outputs sp).
Proof. unfold stageC_Verification. frames_tac. Qed.

Lemma frames_rerun weakBranches instructions b : frames (rerun weakBranches instructions b).
Proof. unfold rerun. frames_tac. Qed.

#[local] Hint Resolve frames_rerun : frames.

Lemma frames_stageD prompt t outputs sp v b n :
  frames (stageD_AdaptiveRecurrence prompt t outputs sp v b n).
Proof. unfold stageD_AdaptiveRecurrence. frames_tac. Qed.

Lemma frames_stageFinal prompt state : frames (stageFinal_GrandSynthesis prompt state).
Proof. unfold stageFinal_GrandSynthesis. frames_tac. Qed.

Lemma frames_handleConversation prompt tier : frames (handleConversation prompt tier).
Proof. unfold handleConversation. frames_tac. Qed.

#[local] Hint Resolve frames_stage0 frames_stageA frames_stageB frames_stageC
  frames_stageD frames_stageFinal frames_handleConversation : frames.

Lemma frames_recurrence_pass prompt state : frames (recurrence_pass prompt state).
Proof. unfold recurrence_pass. frames_tac. Qed.

Lemma frames_recurrence_loop fuel prompt state c :
  frames (recurrence_loop fuel prompt state c).
Proof.
  revert state c. induction fuel as [|fuel IH]; intros state c; simpl.
  - intros w a w' H. discriminate.
  - destruct c; [|apply frames_ret].
    apply frames_bind; [apply frames_of_null|]. intros b.
    destruct (below_depth b state); [|apply frames_ret].
    apply frames_bind; [apply frames_recurrence_pass | intros; apply IH].
Qed.

(** ** Nothing but the loop uses fuel *)

Lemma obind_fuel {A B} (o : Outcome A) (k : A -> Outcome B) :
  o <> OutOfFuel -> (forall a, k a <> OutOfFuel) -> Outcome.bind o k <> OutOfFuel.
Proof. destruct o; simpl; auto; discriminate. Qed.

Lemma omap_fuel {A B} (f : A -> B) (o : Outcome A) :
  o <> OutOfFuel -> Outcome.map f o <> OutOfFuel.
Proof. intros H. apply obind_fuel; [exact H | discriminate]. Qed.

Lemma oall_fuel {A} (os : list (Outcome A)) :
  Forall (fun o => o <> OutOfFuel) os -> Outcome.all os <> OutOfFuel.
Proof.
  induction 1 as [|o os Ho _ IH]; simpl; [discriminate|].
  apply obind_fuel; [exact Ho|]. intros a. apply omap_fuel, IH.
Qed.

Lemma oall_map_fuel {A B} (f : A -> Outcome B) l :
  (forall a, f a <> OutOfFuel) -> Outcome.all (List.map f l) <> OutOfFuel.
Proof. intros H. apply oall_fuel, Forall_map, Forall_forall. auto. Qed.

Ltac nofuel_step :=
  match goal with
  | |- Outcome.bind _ _ <> OutOfFuel => apply obind_fuel; [|intros]
  | |- Outcome.map _ _ <> OutOfFuel => apply omap_fuel
  | |- Outcome.all (List.map _ _) <> OutOfFuel => apply oall_map_fuel; intros
  | |- (if ?b then _ else _) <> OutOfFuel => destruct b
  | |- (match ?x with _ => _ end) <> OutOfFuel => destruct x
  | |- _ <> OutOfFuel => solve [discriminate | eauto with nofuel]
  end.

Ltac nofuel_tac := repeat nofuel_step.

Create HintDb nofuel.

Lemma number_fuel x d : Read.number x d <> OutOfFuel.
Proof. unfold Read.number. nofuel_tac. Qed.

Lemma text_fuel x d : Read.text x d <> OutOfFuel.
Proof. unfold Read.text. nofuel_tac. Qed.

Lemma as_text_fuel v : Read.as_text v <> OutOfFuel.
Proof. unfold Read.as_text. nofuel_tac. Qed.

Lemma as_entry_fuel kv : Read.as_entry kv <> OutOfFuel.
Proof. unfold Read.as_entry. nofuel_tac. Qed.

#[local] Hint Resolve number_fuel text_fuel as_text_fuel as_entry_fuel : nofuel.

Lemma texts_fuel x d : Read.texts x d <> OutOfFuel.
Proof. unfold Read.texts. nofuel_tac. Qed.

Lemma entries_fuel x : Read.entries x <> OutOfFuel.
Proof. unfold Read.entries. nofuel_tac. Qed.

#[local] Hint Resolve texts_fuel entries_fuel : nofuel.

Lemma budget_of_fuel tier response : budget_of tier response <> OutOfFuel.
Proof. unfold budget_of. nofuel_tac. Qed.

Lemma branch_output_fuel name response : branch_output name response <> OutOfFuel.
Proof. unfold branch_output. nofuel_tac. Qed.

Lemma finish_branch_fuel started : finish_branch started <> OutOfFuel.
Proof. unfold finish_branch. nofuel_tac. apply branch_output_fuel. Qed.

Lemma counterexamples_of_fuel response : counterexamples_of response <> OutOfFuel.
Proof. unfold counterexamples_of. nofuel_tac. Qed.

Lemma scores_of_fuel cs : scores_of cs <> OutOfFuel.
Proof. unfold scores_of. nofuel_tac. Qed.

#[local] Hint Resolve scores_of_fuel : nofuel.

Lemma consistency_of_fuel response cs ces avg :
  consistency_of response cs ces avg <> OutOfFuel.
Proof. unfold consistency_of. nofuel_tac. Qed.

Lemma instruction_for_fuel instructions name :
  instruction_for instructions name <> OutOfFuel.
Proof. unfold instruction_for. nofuel_tac. Qed.

Lemma refine_output_fuel b response : refine_output b response <> OutOfFuel.
Proof. unfold refine_output. nofuel_tac. Qed.

#[local] Hint Resolve budget_of_fuel branch_output_fuel finish_branch_fuel
  counterexamples_of_fuel consistency_of_fuel instruction_for_fuel
  refine_output_fuel : nofuel.

Lemma fuelled_ret {A} (a : A) : fuelled (M.ret a).
Proof. intros w. discriminate. Qed.

Lemma fuelled_bind {A B} (c : M A) (k : A -> M B) :
  fuelled c -> (forall a, fuelled (k a)) -> fuelled (M.bind c k).
Proof.
  intros Hc Hk w. unfold M.bind. specialize (Hc w).
  destruct (c w) as [[a w1]| | |]; try discriminate; [apply Hk | contradiction].
Qed.

Lemma fuelled_lift {A} (o : Outcome A) : o <> OutOfFuel -> fuelled (M.lift o).
Proof. intros H w. unfold M.lift. apply omap_fuel, H. Qed.

Lemma fuelled_each {A B} (f : A -> M B) l :
  (forall a, fuelled (f a)) -> fuelled (M.each f l).
Proof.
  intros Hf. induction l as [|a l IH]; simpl.
  - apply fuelled_ret.
  - apply fuelled_bind; [apply Hf|]. intros b.
    apply fuelled_bind; [exact IH|]. intros bs. apply fuelled_ret.
Qed.

Lemma fuelled_getOpenAI : fuelled getOpenAI.
Proof. intros w. unfold getOpenAI. destruct (openaiClient w); discriminate. Qed.

Lemma fuelled_create rq : fuelled (create rq).
Proof. intros w. discriminate. Qed.

Lemma fuelled_logSection title : fuelled (logSection title).
Proof. intros w. discriminate. Qed.

Lemma fuelled_Date_now : fuelled Date_now.
Proof. intros w. discriminate. Qed.

Lemma fuelled_of_null {A} what (x : option A) : fuelled (of_null what x).
Proof. destruct x; simpl; [apply fuelled_ret | intros w; discriminate]. Qed.

Create HintDb fuelled.
#[local] Hint Resolve fuelled_ret fuelled_getOpenAI fuelled_create
  fuelled_logSection fuelled_Date_now fuelled_of_null : fuelled.

Ltac fuelled_step :=
  match goal with
  | |- fuelled (M.bind _ _) => apply fuelled_bind; [|intros]
  | |- fuelled (M.each _ _) => apply fuelled_each; intros
  | |- fuelled (M.lift _) => apply fuelled_lift; solve [nofuel_tac]
  | |- fuelled (if ?b then _ else _) => destruct b
  | |- fuelled (match ?x with _ => _ end) => destruct x
  | |- fuelled _ => solve [eauto with fuelled]
  end.

Ltac fuelled_tac := repeat fuelled_step.

Lemma fuelled_callModel_timed m sys k : fuelled (callModel_timed m sys k).
Proof. unfold callModel_timed. fuelled_tac. Qed.

#[local] Hint Resolve fuelled_callModel_timed : fuelled.

Lemma fuelled_callModel m sys k : fuelled (callModel m sys k).
Proof. unfold callModel. fuelled_tac. Qed.

Lemma fuelled_callModelStreaming m sys k : fuelled (callModelStreaming m sys k).
Proof. unfold callModelStreaming. fuelled_tac. Qed.

#[local] Hint Resolve fuelled_callModel fuelled_callModelStreaming : fuelled.

Lemma fuelled_stage0 prompt tier : fuelled (stage0_TaskProfiler prompt tier).
Proof. unfold stage0_TaskProfiler. fuelled_tac. Qed.

Lemma fuelled_stageA prompt b : fuelled (stageA_StructuredDecomposition prompt b).
Proof. unfold stageA_StructuredDecomposition. fuelled_tac. Qed.

Lemma fuelled_push_hypotheses b hs sp : fuelled (push_hypotheses b hs sp).
Proof.
  revert sp. induction hs as [|h hs IH]; intros sp; simpl.
  - apply fuelled_ret.
  - apply fuelled_bind; [unfold push_now; fuelled_tac | intros; apply IH].
Qed.

Lemma fuelled_record_outputs sp outputs : fuelled (record_outputs sp outputs).
Proof.
  revert sp. induction outputs as [|o outputs IH]; intros sp; simpl.
  - apply fuelled_ret.
  - apply fuelled_bind; [|intros; apply IH].
    unfold record_output. apply fuelled_bind; [unfold push_now; fuelled_tac|].
    intros. apply fuelled_push_hypotheses.
Qed.

Lemma fuelled_start_branch name : fuelled (start_branch name).
Proof. unfold start_branch. fuelled_tac. Qed.

#[local] Hint Resolve fuelled_record_outputs fuelled_start_branch : fuelled.

Lemma fuelled_stageB prompt t b sp : fuelled (stageB_DendriticBranches prompt t b sp).
Proof. unfold stageB_DendriticBranches. fuelled_tac. Qed.

Lemma fuelled_stageC prompt t outputs sp : fuelled (stageC_Verification prompt t outputs sp).
Proof. unfold stageC_Verification. fuelled_tac. Qed.

Lemma fuelled_rerun weakBranches instructions b : fuelled (rerun weakBranches instructions b).
Proof. unfold rerun. fuelled_tac. Qed.

#[local] Hint Resolve fuelled_rerun : fuelled.

Lemma fuelled_stageD prompt t outputs sp v b n :
  fuelled (stageD_AdaptiveRecurrence prompt t outputs sp v b n).
Proof. unfold stageD_AdaptiveRecurrence. fuelled_tac. Qed.

Lemma fuelled_stageFinal prompt state : fuelled (stageFinal_GrandSynthesis prompt state).
Proof. unfold stageFinal_GrandSynthesis. fuelled_tac. Qed.

Lemma fuelled_handleConversation prompt tier : fuelled (handleConversation prompt tier).
Proof. unfold handleConversation. fuelled_tac. Qed.

#[local] Hint Resolve fuelled_stage0 fuelled_stageA fuelled_stageB fuelled_stageC
  fuelled_stageD fuelled_stageFinal fuelled_handleConversation : fuelled.

Lemma fuelled_recurrence_pass prompt state : fuelled (recurrence_pass prompt state).
Proof. unfold recurrence_pass. fuelled_tac. Qed.

(** ** The stages of a run *)

Lemma of_null_Done {A} what (x : option A) w a w' :
  of_null what x w = Done (a, w') <-> x = Some a /\ w' = w.
Proof.
  destruct x as [a0|]; simpl.
  - rewrite ret_Done. split; intros [H1 H2]; split; congruence.
  - split; [discriminate | intros [H _]; discriminate].
Qed.

Lemma runARDR_state_Done fuel prompt tier w r st w' :
  runARDR_state fuel prompt tier w = Done ((r, st), w') ->
  exists b w1,
    stage0_TaskProfiler prompt tier w = Done (b, w1)
    /\ ((Run.fast b = true
         /\ st = State.set_budget b (State.initial prompt tier)
         /\ handleConversation prompt tier w1 = Done (r, w'))
        \/ (Run.fast b = false
            /\ exists t w2 outputs sp w3 v w4 st5 w5,
                stageA_StructuredDecomposition prompt b w1 = Done (t, w2)
                /\ stageB_DendriticBranches prompt t b
                     (scratchpad (State.initial prompt tier)) w2
                   = Done ((outputs, sp), w3)
                /\ stageC_Verification prompt t outputs sp w3 = Done (v, w4)
                /\ recurrence_loop fuel prompt
                     (Run.entry prompt tier b t outputs sp v) true w4
                   = Done (st5, w5)
                /\ stageFinal_GrandSynthesis prompt st5 w5 = Done (r, w')
                /\ st = State.set_finalResponse r st5)).
Proof.
  unfold runARDR_state. intros H. apply bind_Done in H.
  destruct H as (b & w1 & H0 & H). exists b, w1. split; [exact H0|].
  fold (Run.fast b) in H. destruct (Run.fast b).
  - left. apply bind_Done in H. destruct H as (response & w2 & Hc & H).
    apply ret_Done in H. destruct H as [[= -> ->] ->]. auto.
  - right. split; [reflexivity|].
    apply bind_Done in H. destruct H as (t & w2 & HA & H).
    apply bind_Done in H. destruct H as ([outputs sp] & w3 & HB & H).
    apply bind_Done in H. destruct H as (v & w4 & HC & H).
    apply bind_Done in H. destruct H as (st5 & w5 & HL & H).
    apply bind_Done in H. destruct H as (response & w6 & HF & H).
    apply ret_Done in H. destruct H as [[= -> ->] ->].
    exists t, w2, outputs, sp, w3, v, w4, st5, w5.
    repeat split; assumption.
Qed.

Lemma recurrence_pass_Done prompt st w st' c w' :
  recurrence_pass prompt st w = Done ((st', c), w') ->
  budget st' = budget st
  /\ triPack st' = triPack st
  /\ tier st' = tier st
  /\ scratchpad st' = scratchpad st
  /\ recurrenceCount st' = (if c then S (recurrenceCount st) else recurrenceCount st).
Proof.
  unfold recurrence_pass. intros H.
  apply bind_Done in H. destruct H as (t & w1 & _ & H).
  apply bind_Done in H. destruct H as (v & w2 & _ & H).
  apply bind_Done in H. destruct H as (b & w3 & _ & H).
  apply bind_Done in H. destruct H as ([recur outputs] & w4 & _ & H).
  simpl in H. destruct recur.
  - apply bind_Done in H. destruct H as (v' & w5 & _ & H).
    apply ret_Done in H. destruct H as [[= -> ->] _]. repeat split.
  - apply ret_Done in H. destruct H as [[= -> ->] _]. repeat split.
Qed.

(** ** The recurrence loop *)

Lemma below_depth_count b st :
  Loop.bounded_depth st -> budget st = Some b -> below_depth b st = true ->
  (recurrenceCount st <= 2)%nat.
Proof.
  intros Hb Hbud H. unfold below_depth in H. apply Qltb_lt in H.
  pose proof (Hb b Hbud) as H3.
  assert (Hlt : inject_Z (Z.of_nat (recurrenceCount st)) < inject_Z 3).
  { eapply Qlt_le_trans; eassumption. }
  rewrite <- Zlt_Qlt in Hlt. lia.
Qed.

Lemma loop_step_pass prompt f st b w :
  budget st = Some b -> below_depth b st = true ->
  recurrence_loop (S f) prompt st true w
  = match recurrence_pass prompt st w with
    | Done (next, w') => recurrence_loop f prompt (fst next) (snd next) w'
    | Throw m => Throw m
    | IllTyped => IllTyped
    | OutOfFuel => OutOfFuel
    end.
Proof.
  intros Hb Hd. simpl. unfold M.bind at 1. rewrite Hb. simpl. rewrite Hd.
  unfold M.bind. destruct (recurrence_pass prompt st w) as [[]| | |]; reflexivity.
Qed.

Lemma loop_step_stop prompt f st b w :
  budget st = Some b -> below_depth b st = false ->
  recurrence_loop (S f) prompt st true w = Done (st, w).
Proof.
  intros Hb Hd. simpl. unfold M.bind at 1. rewrite Hb. simpl. rewrite Hd. reflexivity.
Qed.

Lemma loop_step_null prompt f st w :
  budget st = None ->
  recurrence_loop (S f) prompt st true w
  = Throw "Cannot read properties of null: budget".
Proof. intros Hb. simpl. unfold M.bind at 1. rewrite Hb. reflexivity. Qed.

Lemma recurrence_loop_enough prompt fuel :
  forall st c w,
    Loop.bounded_depth st ->
    (Loop.needed st c <= fuel)%nat ->
    recurrence_loop fuel prompt st c w <> OutOfFuel
    /\ forall fuel', (fuel <= fuel')%nat ->
         recurrence_loop fuel' prompt st c w = recurrence_loop fuel prompt st c w.
Proof.
  induction fuel as [|fuel IH]; intros st c w Hb Hn.
  - exfalso. unfold Loop.needed in Hn. destruct c; lia.
  - destruct c.
    + destruct (budget st) as [b|] eqn:Hbud.
      * destruct (below_depth b st) eqn:Hbelow.
        -- pose proof (below_depth_count b st Hb Hbud Hbelow) as Hc.
           destruct (recurrence_pass prompt st w) as [[[st' c'] w']| | |] eqn:Hp.
           ++ apply recurrence_pass_Done in Hp as Hp'.
              destruct Hp' as (Hbud' & _ & _ & _ & Hcount).
              assert (Hb' : Loop.bounded_depth st').
              { intros b'. rewrite Hbud'. apply Hb. }
              assert (Hn' : (Loop.needed st' c' <= fuel)%nat).
              { unfold Loop.needed in *. rewrite Hcount. destruct c'; lia. }
              destruct (IH st' c' w' Hb' Hn') as [IH1 IH2].
              split.
              ** rewrite (loop_step_pass _ _ _ b) by assumption. rewrite Hp. exact IH1.
              ** intros [|f'] Hle; [lia|].
                 rewrite !(loop_step_pass _ _ _ b) by assumption. rewrite Hp.
                 apply IH2. lia.
           ++ split.
              ** rewrite (loop_step_pass _ _ _ b) by assumption. rewrite Hp. discriminate.
              ** intros [|f'] Hle; [lia|].
                 rewrite !(loop_step_pass _ _ _ b) by assumption. rewrite Hp. reflexivity.
           ++ split.
              ** rewrite (loop_step_pass _ _ _ b) by assumption. rewrite Hp. discriminate.
              ** intros [|f'] Hle; [lia|].
                 rewrite !(loop_step_pass _ _ _ b) by assumption. rewrite Hp. reflexivity.
           ++ exfalso. exact (fuelled_recurrence_pass prompt st w Hp).
        -- split.
           ++ rewrite (loop_step_stop _ _ _ b) by assumption. discriminate.
           ++ intros [|f'] Hle; [lia|].
              rewrite !(loop_step_stop _ _ _ b) by assumption. reflexivity.
      * split.
        -- rewrite loop_step_null by assumption. discriminate.
        -- intros [|f'] Hle; [lia|]. rewrite !loop_step_null by assumption. reflexivity.
    + split.
      * discriminate.
      * intros [|f'] Hle; [lia | reflexivity].
Qed.

(** Induction over the passes of a completed loop. *)
Lemma recurrence_loop_ind prompt (P : ARDRState -> World -> Prop) :
  (forall st w b st' c w',
      P st w -> budget st = Some b -> below_depth b st = true ->
      recurrence_pass prompt st w = Done ((st', c), w') -> P st' w') ->
  forall fuel st c w st' w',
    recurrence_loop fuel prompt st c w = Done (st', w') -> P st w -> P st' w'.
Proof.
  intros Hpass. induction fuel as [|fuel IH]; intros st c w st' w' H HP.
  - discriminate.
  - simpl in H. destruct c.
    + apply bind_Done in H. destruct H as (b & w1 & Hb & H).
      apply of_null_Done in Hb. destruct Hb as [Hb ->].
      destruct (below_depth b st) eqn:Hbelow.
      * apply bind_Done in H. destruct H as ([st1 c1] & w2 & Hp & H).
        simpl in H. eapply IH; [exact H|]. eapply Hpass; eassumption.
      * apply ret_Done in H. destruct H as [-> ->]. exact HP.
    + apply ret_Done in H. destruct H as [-> ->]. exact HP.
Qed.

Lemma bind_congr {A B} (c : M A) (k1 k2 : A -> M B) w :
  (forall a w1, c w = Done (a, w1) -> k1 a w1 = k2 a w1) ->
  M.bind c k1 w = M.bind c k2 w.
Proof.
  intros H. unfold M.bind. destruct (c w) as [[a w1]| | |]; auto.
Qed.

Lemma bind_fuel {A B} (c : M A) (k : A -> M B) w :
  c w <> OutOfFuel ->
  (forall a w1, c w = Done (a, w1) -> k a w1 <> OutOfFuel) ->
  M.bind c k w <> OutOfFuel.
Proof.
  intros Hc Hk. unfold M.bind. destruct (c w) as [[a w1]| | |];
    auto; discriminate.
Qed.

Lemma stage0_depth prompt tier w b w1 :
  stage0_TaskProfiler prompt tier w = Done (b, w1) -> allowedDepth b <= 3.
Proof.
  intros H. apply stage0_Done in H. destruct H as (_ & H & _).
  apply budget_of_depth in H.
  assert (Hc : tierCeiling tier <= 3) by (destruct tier; discriminate).
  destruct (Proposal.depth _).
  - rewrite H. eapply Qle_trans; [apply Math_min_le_r | exact Hc].
  - destruct H as [-> | ->]; [|exact Hc].
    eapply Qle_trans; [apply Math_min_le_r | exact Hc].
Qed.

Lemma entry_needs_four prompt tier b t outputs sp v :
  Loop.needed (Run.entry prompt tier b t outputs sp v) true = 4%nat.
Proof. reflexivity. Qed.

Lemma runARDR_state_enough fuel prompt tier w :
  (4 <= fuel)%nat ->
  runARDR_state fuel prompt tier w <> OutOfFuel
  /\ runARDR_state fuel prompt tier w = runARDR_state 4 prompt tier w.
Proof.
  intros Hfuel.
  assert (Hloop : forall b w1 t outputs sp v w4,
    stage0_TaskProfiler prompt tier w = Done (b, w1) ->
    recurrence_loop fuel prompt (Run.entry prompt tier b t outputs sp v) true w4
      <> OutOfFuel
    /\ recurrence_loop fuel prompt (Run.entry prompt tier b t outputs sp v) true w4
       = recurrence_loop 4 prompt (Run.entry prompt tier b t outputs sp v) true w4).
  { intros b w1 t outputs sp v w4 H0.
    assert (Hb : Loop.bounded_depth (Run.entry prompt tier b t outputs sp v)).
    { intros b' [= <-]. eapply stage0_depth, H0. }
    destruct (recurrence_loop_enough prompt 4 _ true w4 Hb) as [H4 Hmore];
      [rewrite entry_needs_four; lia|].
    rewrite (Hmore fuel Hfuel). auto. }
  unfold runARDR_state. split.
  - apply bind_fuel; [apply fuelled_stage0|]. intros b w1 H0.
    destruct (_ || _).
    + apply fuelled_bind; [apply fuelled_handleConversation | intros; apply fuelled_ret].
    + apply bind_fuel; [apply fuelled_stageA|]. intros t w2 _.
      apply bind_fuel; [apply fuelled_stageB|]. intros [outputs sp] w3 _.
      apply bind_fuel; [apply fuelled_stageC|]. intros v w4 _.
      apply bind_fuel; [apply (Hloop b w1 t outputs sp v w4 H0)|]. intros st5 w5 _.
      apply fuelled_bind; [apply fuelled_stageFinal | intros; apply fuelled_ret].
  - apply bind_congr. intros b w1 H0.
    destruct (_ || _); [reflexivity|].
    apply bind_congr. intros t w2 _.
    apply bind_congr. intros [outputs sp] w3 _.
    apply bind_congr. intros v w4 _.
    unfold M.bind at 1 3.
    replace (recurrence_loop fuel prompt _ true w4)
      with (recurrence_loop 4 prompt (Run.entry prompt tier b t outputs sp v) true w4);
      [reflexivity|].
    symmetry. apply (Hloop b w1 t outputs sp v w4 H0).
Qed.

Lemma recurrence_loop_count prompt fuel st c w st' w' :
  recurrence_loop fuel prompt st c w = Done (st', w') ->
  budget st' = budget st
  /\ scratchpad st' = scratchpad st
  /\ (recurrenceCount st <= recurrenceCount st')%nat
  /\ (recurrenceCount st' = recurrenceCount st
      \/ exists b, budget st = Some b /\ Loop.count st' < allowedDepth b + 1).
Proof.
  intros H.
  set (P := fun (s : ARDRState) (_ : World) =>
              budget s = budget st
              /\ scratchpad s = scratchpad st
              /\ (recurrenceCount st <= recurrenceCount s)%nat
              /\ (recurrenceCount s = recurrenceCount st
                  \/ exists b, budget st = Some b
                               /\ Loop.count s < allowedDepth b + 1)).
  change (P st' w').
  eapply (recurrence_loop_ind prompt P); [ | exact H | ]; subst P; simpl.
  - intros s w0 b s' c' w0' (Hb & Hs & Hle & Hcases) Hbud Hbelow Hp.
    apply recurrence_pass_Done in Hp. destruct Hp as (Hb' & _ & _ & Hs' & Hc).
    split; [congruence|]. split; [congruence|].
    destruct c'.
    + split; [lia|]. right. exists b. split; [congruence|].
      unfold below_depth in Hbelow. apply Qltb_lt in Hbelow.
      unfold Loop.count. rewrite Hc. rewrite Nat2Z.inj_succ, <- Z.add_1_r, inject_Z_plus.
      apply Qplus_lt_l. exact Hbelow.
    + split; [lia|]. destruct Hcases as [E | (b0 & Hb0 & Hlt)].
      * left. congruence.
      * right. exists b0. split; [exact Hb0|]. unfold Loop.count in *. rewrite Hc. exact Hlt.
  - repeat split; auto.
Qed.

Lemma stageD_at_depth prompt t outputs sp v b n w :
  allowedDepth b <= inject_Z (Z.of_nat n) ->
  stageD_AdaptiveRecurrence prompt t outputs sp v b n w
  = Done ((false, outputs), record_section bannerD w).
Proof.
  intros H. apply Qle_bool_iff in H.
  unfold stageD_AdaptiveRecurrence, M.bind, logSection. rewrite H.
  destruct (_ && _); reflexivity.
Qed.

Lemma count_le_integer_depth st b n :
  Proposal.is_integer (allowedDepth b) n ->
  Loop.count st < allowedDepth b + 1 ->
  Loop.count st <= allowedDepth b.
Proof.
  unfold Proposal.is_integer, Loop.count. intros Hn Hlt.
  rewrite Hn in *. change 1 with (inject_Z 1) in Hlt.
  rewrite <- inject_Z_plus in Hlt.
  rewrite <- Zlt_Qlt in Hlt. rewrite <- Zle_Qle. lia.
Qed.

(** C2, as amended. The loop of [runARDR] terminates (four evaluations of
    its condition always suffice); it is entered with a recurrence count of
    0, which is at most the depth when the depth is a non-negative
    integer; a pass adds exactly 1 to the count when it recurs and leaves it
    otherwise, so the count never decreases; a controller called with a
    count that has reached the depth returns without recurring, whatever
    the uncertainty; and at the end the count is 0 or below depth + 1,
    hence at most the depth provided the depth is a non-negative integer
    (which the profiler does not enforce). *)
Theorem recurrence_count_is_bounded
    (fuel : nat) (prompt : string) (tier : NexusTier) (w : World) :
  (4 <= fuel)%nat ->
  runARDR_state fuel prompt tier w <> OutOfFuel
  /\ runARDR_state fuel prompt tier w = runARDR_state 4 prompt tier w
  /\ (forall b t outputs sp v,
        recurrenceCount (Run.entry prompt tier b t outputs sp v) = 0%nat)
  /\ (forall b t outputs sp v n,
        (0 <= n)%Z -> Proposal.is_integer (allowedDepth b) n ->
        Loop.count (Run.entry prompt tier b t outputs sp v) <= allowedDepth b)
  /\ (forall st w1 st' c w2,
        recurrence_pass prompt st w1 = Done ((st', c), w2) ->
        recurrenceCount st' = if c then S (recurrenceCount st) else recurrenceCount st)
  /\ (forall f st c w1 st' w2,
        recurrence_loop f prompt st c w1 = Done (st', w2) ->
        (recurrenceCount st <= recurrenceCount st')%nat)
  /\ (forall t outputs sp v b n w1,
        allowedDepth b <= inject_Z (Z.of_nat n) ->
        stageD_AdaptiveRecurrence prompt t outputs sp v b n w1
        = Done ((false, outputs), record_section bannerD w1))
  /\ (forall r st w' b,
        runARDR_state fuel prompt tier w = Done ((r, st), w') ->
        budget st = Some b ->
        (recurrenceCount st = 0%nat \/ Loop.count st < allowedDepth b + 1)
        /\ forall n, (0 <= n)%Z -> Proposal.is_integer (allowedDepth b) n ->
                     Loop.count st <= allowedDepth b).
Proof.
  intros Hfuel.
  destruct (runARDR_state_enough fuel prompt tier w Hfuel) as [Hterm Hsame].
  split; [exact Hterm|]. split; [exact Hsame|].
  split; [reflexivity|].
  split.
  { intros b t outputs sp v n Hn Hint. unfold Proposal.is_integer in Hint.
    rewrite Hint. unfold Loop.count. simpl. rewrite <- Zle_Qle. exact Hn. }
  split; [intros st w1 st' c w2 H; apply recurrence_pass_Done in H; tauto|].
  split; [intros f st c w1 st' w2 H; apply recurrence_loop_count in H; tauto|].
  split; [intros; apply stageD_at_depth; assumption|].
  intros r st w' b H Hb.
  assert (Hcases : recurrenceCount st = 0%nat \/ Loop.count st < allowedDepth b + 1).
  { apply runARDR_state_Done in H.
    destruct H as (b0 & w1 & H0 & [(_ & -> & _) | (_ & H)]).
    - left. reflexivity.
    - destruct H as (t & w2 & outputs & sp & w3 & v & w4 & st5 & w5
                     & _ & _ & _ & HL & _ & ->).
      apply recurrence_loop_count in HL.
      destruct HL as (Hbud & _ & _ & [E | (b1 & Hb1 & Hlt)]).
      + left. simpl. rewrite E. reflexivity.
      + right. simpl in Hb. rewrite Hbud in Hb. rewrite Hb1 in Hb.
        injection Hb as <-. exact Hlt. }
  split; [exact Hcases|].
  intros n Hn Hint. destruct Hcases as [E | Hlt].
  - unfold Loop.count. rewrite E. unfold Proposal.is_integer in Hint.
    rewrite Hint. rewrite <- Zle_Qle. exact Hn.
  - eapply count_le_integer_depth; eassumption.
Qed.

Lemma refined_run_ends_within_its_depth :
  exists r st w' b,
    runARDR_state 5 "p" high Sample.refined = Done ((r, st), w')
    /\ runARDR_state 5 "p" high Sample.refined
       = runARDR_state 4 "p" high Sample.refined
    /\ budget st = Some b
    /\ allowedDepth b = 2
    /\ recurrenceCount st = 1%nat
    /\ (recurrenceCount st = 0%nat \/ Loop.count st < allowedDepth b + 1)
    /\ Loop.count st <= allowedDepth b.
Proof.
  assert (E : exists r st w' b,
             runARDR_state 5 "p" high Sample.refined = Done ((r, st), w')
             /\ budget st = Some b
             /\ allowedDepth b = 2
             /\ recurrenceCount st = 1%nat).
  { eexists _, _, _, _. split; [vm_compute; reflexivity|]. repeat split. }
  destruct E as (r & st & w' & b & E & Hb & Hd & Hc).
  destruct (recurrence_count_is_bounded 5 "p" high Sample.refined ltac:(lia))
    as (_ & Hsame & _ & _ & _ & _ & _ & Hend).
  destruct (Hend r st w' b E Hb) as [Hcount Hle].
  exists r, st, w', b. split; [exact E|]. split; [exact Hsame|].
  split; [exact Hb|]. split; [exact Hd|]. split; [exact Hc|].
  split; [exact Hcount|].
  apply (Hle 2%Z); [lia|]. unfold Proposal.is_integer. rewrite Hd. reflexivity.
Defined.

(** C2 fails as stated: with a proposed depth of 0.5 the loop is entered,
    the controller recurs once, and the run ends with a recurrence count of
    1, above the depth. *)
Lemma half_a_pass_is_a_pass :
  exists r st w' b,
    runARDR_state 5 "p" high Sample.half_depth = Done ((r, st), w')
    /\ budget st = Some b
    /\ allowedDepth b == 1 # 2
    /\ recurrenceCount st = 1%nat
    /\ ~ Loop.count st <= allowedDepth b.
Proof.
  eexists _, _, _, _. split; [vm_compute; reflexivity|].
  split; [reflexivity|]. split; [reflexivity|]. split; [reflexivity|].
  vm_compute. intros H. apply H. reflexivity.
Qed.

(** ** The scratchpad *)

Lemma read_clock_fields n w :
  ticks (Log.read_clock n w) = (ticks w + n)%nat
  /\ clock (Log.read_clock n w) = clock w.
Proof.
  revert w. induction n as [|n IH]; intros w; simpl.
  - split; [lia | reflexivity].
  - destruct (IH (advance_clock w)) as [-> ->]. simpl. split; [lia | reflexivity].
Qed.

Lemma read_clock_add n m w :
  Log.read_clock m (Log.read_clock n w) = Log.read_clock (n + m) w.
Proof. revert w. induction n as [|n IH]; intros w; simpl; auto. Qed.

Lemma stamped_app clock k l1 l2 :
  Log.stamped clock k (l1 ++ l2)
  = Log.stamped clock k l1 ++ Log.stamped clock (k + List.length l1) l2.
Proof.
  revert k. induction l1 as [|[[b ty] text] l1 IH]; intros k; simpl.
  - rewrite Nat.add_0_r. reflexivity.
  - rewrite IH. do 3 f_equal. lia.
Qed.

Lemma append_nil sp : Log.append sp [] = sp.
Proof. destruct sp. unfold Log.append. simpl. rewrite app_nil_r. reflexivity. Qed.

Lemma append_append sp l1 l2 :
  Log.append (Log.append sp l1) l2 = Log.append sp (l1 ++ l2).
Proof. unfold Log.append. simpl. rewrite app_assoc. reflexivity. Qed.

Lemma push_now_Done b ty text sp w sp' w' :
  push_now b ty text sp w = Done (sp', w') ->
  sp' = Log.append sp (Log.stamped (clock w) (ticks w) [(b, ty, text)])
  /\ w' = Log.read_clock 1 w.
Proof. unfold push_now, M.bind, Date_now, M.ret. intros [= <- <-]. auto. Qed.

Lemma push_hypotheses_Done b hs sp w sp' w' :
  push_hypotheses b hs sp w = Done (sp', w') ->
  sp' = Log.append sp (Log.stamped (clock w) (ticks w)
                         (List.map (fun h => (b, hypothesis, h)) hs))
  /\ w' = Log.read_clock (List.length hs) w.
Proof.
  revert sp w. induction hs as [|h hs IH]; intros sp w; simpl.
  - intros H. apply ret_Done in H. destruct H as [-> ->].
    rewrite append_nil. auto.
  - intros H. apply bind_Done in H. destruct H as (sp1 & w1 & H1 & H2).
    apply push_now_Done in H1. destruct H1 as [-> ->].
    apply IH in H2. destruct H2 as [-> ->]. rewrite append_append. auto.
Qed.

Lemma record_output_Done sp output w sp' w' :
  record_output sp output w = Done (sp', w') ->
  sp' = Log.append sp (Log.stamped (clock w) (ticks w) (Log.pass_entries output))
  /\ w' = Log.read_clock (List.length (Log.pass_entries output)) w.
Proof.
  unfold record_output. intros H. apply bind_Done in H.
  destruct H as (sp1 & w1 & H1 & H2).
  apply push_now_Done in H1. destruct H1 as [-> ->].
  apply push_hypotheses_Done in H2. destruct H2 as [-> ->].
  rewrite append_append. unfold Log.pass_entries. simpl.
  rewrite length_map. auto.
Qed.

Lemma record_outputs_Done sp outputs w sp' w' :
  record_outputs sp outputs w = Done (sp', w') ->
  sp' = Log.append sp (Log.stamped (clock w) (ticks w)
                         (flat_map Log.pass_entries outputs))
  /\ w' = Log.read_clock (List.length (flat_map Log.pass_entries outputs)) w.
Proof.
  revert sp w. induction outputs as [|o outputs IH]; intros sp w; simpl.
  - intros H. apply ret_Done in H. destruct H as [-> ->].
    rewrite append_nil. auto.
  - intros H. apply bind_Done in H. destruct H as (sp1 & w1 & H1 & H2).
    apply record_output_Done in H1. destruct H1 as [-> ->].
    apply IH in H2. destruct H2 as [-> ->].
    destruct (read_clock_fields (List.length (Log.pass_entries o)) w) as [Ht Hc].
    rewrite Ht, Hc. rewrite append_append, read_clock_add.
    rewrite <- stamped_app, <- length_app. auto.
Qed.

Lemma arrive_perm {A} (x : nat * A) l : Permutation (arrive x l) (x :: l).
Proof.
  induction l as [|y l IH]; simpl; [reflexivity|].
  destruct (fst x <=? fst y)%nat; [reflexivity|].
  rewrite IH. apply perm_swap.
Qed.

Lemma completion_order_perm {A} (l : list (nat * A)) :
  Permutation (completion_order l) l.
Proof.
  induction l as [|x l IH]; simpl; [reflexivity|].
  unfold completion_order in *. simpl. rewrite arrive_perm. apply perm_skip, IH.
Qed.

Lemma callModel_timed_Done m sys k w r w' :
  callModel_timed m sys k w = Done (r, w') ->
  openaiClient w = true
  /\ r = (latency (next_reply w), settle m (answer (next_reply w)))
  /\ w' = record_request {| rq_model := m; rq_system := sys;
                            rq_maxTokens := k; rq_stream := false |} w.
Proof.
  unfold callModel_timed, M.bind, getOpenAI, create, M.ret.
  destruct (openaiClient w); [|discriminate]. intros [= <- <-]. auto.
Qed.

Lemma start_branch_ticks name w r w' :
  start_branch name w = Done (r, w') -> ticks w' = ticks w.
Proof.
  unfold start_branch. destruct (branchConfigs name) as [config|].
  - intros H. apply bind_Done in H. destruct H as (r0 & w1 & H1 & H2).
    apply callModel_timed_Done in H1. destruct H1 as (_ & _ & ->).
    apply ret_Done in H2. destruct H2 as [_ ->]. reflexivity.
  - intros H. apply ret_Done in H. destruct H as [_ ->]. reflexivity.
Qed.

Lemma each_start_branch_ticks names w rs w' :
  M.each start_branch names w = Done (rs, w') -> ticks w' = ticks w.
Proof.
  revert w rs. induction names as [|name names IH]; intros w rs; simpl.
  - intros H. apply ret_Done in H. destruct H as [_ ->]. reflexivity.
  - intros H. apply bind_Done in H. destruct H as (r & w1 & H1 & H2).
    apply bind_Done in H2. destruct H2 as (rs' & w2 & H2 & H3).
    apply ret_Done in H3. destruct H3 as [_ ->].
    apply IH in H2. apply start_branch_ticks in H1. congruence.
Qed.

Lemma stageB_log prompt t b sp w outputs sp' w' :
  stageB_DendriticBranches prompt t b sp w = Done ((outputs, sp'), w') ->
  exists order,
    Permutation order outputs
    /\ sp' = Log.append sp (Log.stamped (clock w) (ticks w)
                              (flat_map Log.pass_entries order)).
Proof.
  unfold stageB_DendriticBranches. intros H.
  apply bind_Done in H. destruct H as ([] & w1 & H1 & H).
  apply logSection_Done in H1. subst w1.
  apply bind_Done in H. destruct H as (started & w2 & H2 & H).
  apply bind_Done in H. destruct H as (finished & w3 & H3 & H).
  apply lift_Done in H3. destruct H3 as [H3 ->].
  apply bind_Done in H. destruct H as (sp1 & w4 & H4 & H).
  apply ret_Done in H. destruct H as [[= -> ->] ->].
  apply record_outputs_Done in H4. destruct H4 as [-> _].
  exists (List.map snd (completion_order finished)). split.
  - apply Permutation_map, completion_order_perm.
  - apply each_start_branch_ticks in H2 as Hticks.
    apply frames_each in H2; [|intros; apply frames_start_branch].
    destruct H2 as (_ & _ & Hclock & _).
    rewrite Hclock, Hticks. reflexivity.
Qed.

Lemma arrive_sorted {A} (x : nat * A) l :
  StronglySorted (fun a b => (fst a <= fst b)%nat) l ->
  StronglySorted (fun a b => (fst a <= fst b)%nat) (arrive x l).
Proof.
  induction 1 as [|y l Hl IH Hy]; simpl.
  - constructor; constructor.
  - destruct (fst x <=? fst y)%nat eqn:E.
    + apply Nat.leb_le in E. constructor; [constructor; assumption|].
      constructor; [exact E|].
      eapply List.Forall_impl; [|exact Hy]. intros a Ha. simpl in Ha. lia.
    + apply Nat.leb_gt in E. constructor; [exact IH|].
      eapply Permutation_Forall; [symmetry; apply arrive_perm|].
      constructor; [lia | exact Hy].
Qed.

Lemma completion_order_sorted {A} (l : list (nat * A)) :
  StronglySorted (fun a b => (fst a <= fst b)%nat) (completion_order l).
Proof.
  unfold completion_order. induction l as [|x l IH]; simpl; [constructor|].
  apply arrive_sorted, IH.
Qed.

Lemma arrive_stable {A} (x : nat * A) l n :
  List.filter (fun a => (fst a =? n)%nat) (arrive x l)
  = List.filter (fun a => (fst a =? n)%nat) (x :: l).
Proof.
  induction l as [|y l IH]; simpl; [reflexivity|].
  destruct (fst x <=? fst y)%nat eqn:E; [reflexivity|].
  apply Nat.leb_gt in E. simpl. rewrite IH. simpl.
  destruct (fst x =? n)%nat eqn:Ex, (fst y =? n)%nat eqn:Ey; try reflexivity.
  apply Nat.eqb_eq in Ex, Ey. lia.
Qed.

Lemma completion_order_stable {A} (l : list (nat * A)) n :
  List.filter (fun a => (fst a =? n)%nat) (completion_order l)
  = List.filter (fun a => (fst a =? n)%nat) l.
Proof.
  unfold completion_order. induction l as [|x l IH]; simpl; [reflexivity|].
  rewrite arrive_stable. simpl. rewrite IH. reflexivity.
Qed.

Lemma latencies_cons w rq n :
  Log.latencies w (S n)
  = latency (next_reply w) :: Log.latencies (record_request rq w) n.
Proof.
  unfold Log.latencies, next_reply. simpl. rewrite Nat.add_0_r. f_equal.
  rewrite <- seq_shift, map_map. apply map_ext. intros i.
  rewrite length_app. simpl. do 2 f_equal. lia.
Qed.

Lemma each_start_branch_latencies names :
  forall w started w',
    M.each start_branch names w = Done (started, w') ->
    List.map fst (somes started) = Log.latencies w (List.length (somes started)).
Proof.
  induction names as [|name names IH]; intros w started w'; simpl.
  - intros H. apply ret_Done in H. destruct H as [-> _]. reflexivity.
  - intros H. apply bind_Done in H. destruct H as (r & w1 & H1 & H2).
    apply bind_Done in H2. destruct H2 as (rs & w2 & H2 & H3).
    apply ret_Done in H3. destruct H3 as [-> _].
    apply IH in H2. unfold start_branch in H1.
    destruct (branchConfigs name) as [config|].
    + apply bind_Done in H1. destruct H1 as (r0 & w0 & Hc & Hret).
      apply callModel_timed_Done in Hc. destruct Hc as (_ & -> & ->).
      apply ret_Done in Hret. destruct Hret as [-> ->]. simpl.
      rewrite H2. symmetry. apply latencies_cons.
    + apply ret_Done in H1. destruct H1 as [-> ->]. simpl. exact H2.
Qed.

Lemma finish_all_times l :
  forall finished,
    Outcome.all (List.map finish_branch l) = Done finished ->
    List.map fst finished = List.map fst l.
Proof.
  induction l as [|s l IH]; intros finished; simpl.
  - intros [= <-]. reflexivity.
  - intros H. apply obind_Done in H. destruct H as (f & Hf & H).
    apply omap_Done in H. destruct H as (fs & Hfs & ->).
    unfold finish_branch in Hf. apply omap_Done in Hf.
    destruct Hf as (o & _ & ->). simpl. rewrite (IH fs Hfs). reflexivity.
Qed.

Lemma combine_fst_snd {A B} (l : list (A * B)) :
  List.combine (List.map fst l) (List.map snd l) = l.
Proof. induction l as [|[a b] l IH]; simpl; [reflexivity | rewrite IH; reflexivity]. Qed.

Lemma stageB_arrival prompt t b sp w outputs sp' w' :
  stageB_DendriticBranches prompt t b sp w = Done ((outputs, sp'), w') ->
  sp' = Log.append sp
          (Log.stamped (clock w) (ticks w)
             (flat_map Log.pass_entries
                (Log.arrival (Log.latencies w (List.length outputs)) outputs))).
Proof.
  unfold stageB_DendriticBranches. intros H.
  apply bind_Done in H. destruct H as ([] & w1 & H1 & H).
  apply logSection_Done in H1. subst w1.
  apply bind_Done in H. destruct H as (started & w2 & H2 & H).
  apply bind_Done in H. destruct H as (finished & w3 & H3 & H).
  apply lift_Done in H3. destruct H3 as [H3 ->].
  apply bind_Done in H. destruct H as (sp1 & w4 & H4 & H).
  apply ret_Done in H. destruct H as [[= -> ->] ->].
  apply record_outputs_Done in H4. destruct H4 as [-> _].
  apply each_start_branch_ticks in H2 as Hticks.
  apply each_start_branch_latencies in H2 as Hlat.
  apply frames_each in H2; [|intros; apply frames_start_branch].
  destruct H2 as (_ & _ & Hclock & _).
  apply finish_all_times in H3.
  assert (Hlen : List.length (somes started) = List.length finished).
  { rewrite <- (length_map fst (somes started)), <- H3. apply length_map. }
  rewrite Hclock, Hticks. unfold Log.arrival.
  rewrite length_map, <- Hlen.
  assert (Hlat' : List.map fst (somes started)
                  = Log.latencies w (List.length (somes started))) by exact Hlat.
  rewrite <- Hlat', <- H3, combine_fst_snd. reflexivity.
Qed.

(** C6, as amended. The log of the scratchpad only grows, and it is the
    Branch Executor that writes it: for each branch it ran, in the order in
    which the responses arrived, it appends the notes and then each
    hypothesis, tagged with the branch name and the reading of the clock.
    The responses arrive in the order of the times the replies take, and
    those that take equally long in the order in which they were asked
    for. A recurrence pass (re-run branches, verification) leaves the
    scratchpad as it is, and so does the loop: the scratchpad of a
    completed run is the one the Branch Executor made from the empty one,
    or still empty on the fast path. *)
Theorem scratchpad_is_written_by_the_branch_executor (prompt : string) :
  (forall t b sp w outputs sp' w',
      stageB_DendriticBranches prompt t b sp w = Done ((outputs, sp'), w') ->
      let times := Log.latencies w (List.length outputs) in
      entries sp' = entries sp ++ Log.stamped (clock w) (ticks w)
                                    (flat_map Log.pass_entries
                                       (Log.arrival times outputs))
      /\ sharedArtifacts sp' = sharedArtifacts sp)
  /\ (forall (timed : list (nat * BranchOutput)),
        Permutation (completion_order timed) timed
        /\ StronglySorted (fun a b => (fst a <= fst b)%nat) (completion_order timed)
        /\ forall n,
             List.filter (fun a => (fst a =? n)%nat) (completion_order timed)
             = List.filter (fun a => (fst a =? n)%nat) timed)
  /\ (forall st w st' c w',
        recurrence_pass prompt st w = Done ((st', c), w') ->
        scratchpad st' = scratchpad st)
  /\ (forall fuel st c w st' w',
        recurrence_loop fuel prompt st c w = Done (st', w') ->
        scratchpad st' = scratchpad st)
  /\ (forall fuel tier w r st w',
        runARDR_state fuel prompt tier w = Done ((r, st), w') ->
        scratchpad st = Sample.empty_scratchpad
        \/ exists t b w2 outputs w3,
             stageB_DendriticBranches prompt t b Sample.empty_scratchpad w2
             = Done ((outputs, scratchpad st), w3)).
Proof.
  split; [|split; [|split; [|split]]].
  - intros t b sp w outputs sp' w' H times.
    apply stageB_arrival in H. subst sp'. auto.
  - intros timed. split; [apply completion_order_perm|].
    split; [apply completion_order_sorted|].
    intros n. apply completion_order_stable.
  - intros st w st' c w' H. apply recurrence_pass_Done in H. tauto.
  - intros fuel st c w st' w' H. apply recurrence_loop_count in H. tauto.
  - intros fuel tier w r st w' H. apply runARDR_state_Done in H.
    destruct H as (b & w1 & _ & [(_ & -> & _) | (_ & H)]).
    + left. reflexivity.
    + destruct H as (t & w2 & outputs & sp & w3 & v & w4 & st5 & w5
                     & _ & HB & _ & HL & _ & ->).
      right. exists t, b, w2, outputs, w3.
      apply recurrence_loop_count in HL. destruct HL as (_ & Hsp & _).
      simpl. rewrite Hsp. exact HB.
Qed.

Lemma slow_branch_is_logged_last :
  exists outputs sp' w',
    stageB_DendriticBranches "p" Sample.triPack (Scene.budget ["logic"; "world"])
      Sample.empty_scratchpad Scene.out_of_order = Done ((outputs, sp'), w')
    /\ List.map branchName outputs = ["logic"; "world"]
    /\ Log.latencies Scene.out_of_order (List.length outputs) = [5; 2]%nat
    /\ List.map branchName
         (Log.arrival (Log.latencies Scene.out_of_order (List.length outputs)) outputs)
       = ["world"; "logic"]
    /\ entries sp'
       = entries Sample.empty_scratchpad
         ++ Log.stamped (clock Scene.out_of_order) (ticks Scene.out_of_order)
              (flat_map Log.pass_entries
                 (Log.arrival
                    (Log.latencies Scene.out_of_order (List.length outputs)) outputs))
    /\ sharedArtifacts sp' = sharedArtifacts Sample.empty_scratchpad.
Proof.
  assert (E : exists outputs sp' w',
             stageB_DendriticBranches "p" Sample.triPack
               (Scene.budget ["logic"; "world"])
               Sample.empty_scratchpad Scene.out_of_order = Done ((outputs, sp'), w')
             /\ List.map branchName outputs = ["logic"; "world"]
             /\ Log.latencies Scene.out_of_order (List.length outputs) = [5; 2]%nat
             /\ List.map branchName
                  (Log.arrival
                     (Log.latencies Scene.out_of_order (List.length outputs)) outputs)
                = ["world"; "logic"]).
  { eexists _, _, _. split; [vm_compute; reflexivity|]. repeat split. }
  destruct E as (outputs & sp' & w' & E & Hn & Hl & Ha).
  exists outputs, sp', w'. split; [exact E|]. split; [exact Hn|].
  split; [exact Hl|]. split; [exact Ha|].
  exact (proj1 (scratchpad_is_written_by_the_branch_executor "p")
           Sample.triPack (Scene.budget ["logic"; "world"]) Sample.empty_scratchpad
           Scene.out_of_order outputs sp' w' E).
Defined.

(** C6 fails as stated: in this run the branch "code" is re-run by a
    recurrence pass, which gives it the notes "n2" and the hypothesis "h3";
    the log has the five entries the Branch Executor wrote and neither of
    them. *)
Lemma refinement_is_not_logged :
  exists r st w' b,
    runARDR_state 5 "p" high Sample.refined = Done ((r, st), w')
    /\ recurrenceCount st = 1%nat
    /\ In (Some (Refine "code")) (List.map rq_system (issued w'))
    /\ In b (branchOutputs st)
    /\ branchName b = "code" /\ notes b = "n2" /\ hypotheses b = ["h3"]
    /\ List.map content (entries (scratchpad st))
       = ["plain text"; "plain text"; "n-logic"; "h1"; "h2"]
    /\ ~ In "n2" (List.map content (entries (scratchpad st)))
    /\ ~ In "h3" (List.map content (entries (scratchpad st))).
Proof.
  eexists _, _, _, _. split; [vm_compute; reflexivity|].
  split; [reflexivity|].
  split; [simpl; do 9 right; left; reflexivity|].
  split; [simpl; right; left; reflexivity|].
  split; [reflexivity|]. split; [reflexivity|]. split; [reflexivity|].
  split; [reflexivity|].
  split; simpl; intros H; repeat (destruct H as [H|H]; [discriminate|]); exact H.
Qed.

(** ** Ranges *)

Lemma number_ranged x d q :
  Read.number x d = Done q ->
  (forall p, x = Some (JNum p) -> Ranged.unit_interval p) ->
  Ranged.unit_interval d ->
  Ranged.unit_interval q.
Proof.
  intros H Hx Hd. apply number_read in H.
  destruct H as [(p & -> & _ & ->) | ->]; auto.
Qed.

Lemma half_in_unit : Ranged.unit_interval 0.5.
Proof. split; discriminate. Qed.

Lemma number_reported k text parsed d q :
  if_truthy (parseJsonFromResponse text) = Some parsed ->
  Read.number (Js.field k parsed) d = Done q ->
  q = Ranged.reported k text d.
Proof.
  intros Hp H. unfold Ranged.reported. rewrite Hp.
  unfold Read.number in H. destruct (Js.field k parsed) as [v|];
    [|injection H as <-; reflexivity].
  destruct v; simpl in H; try discriminate H;
    try (injection H as <-; reflexivity).
  - destruct b; [discriminate H | injection H as <-; reflexivity].
  - destruct (negb (String.eqb s "")); [discriminate H|].
    injection H as <-. reflexivity.
Qed.

Lemma reported_ranged k text d :
  (k = "confidence" \/ k = "uncertainty") ->
  Ranged.text_ok text -> Ranged.unit_interval d ->
  Ranged.unit_interval (Ranged.reported k text d).
Proof.
  intros Hk Hok Hd. unfold Ranged.reported.
  destruct (if_truthy (parseJsonFromResponse text)) as [parsed|] eqn:E; [|exact Hd].
  destruct (Js.field k parsed) as [[]|] eqn:F; try exact Hd.
  destruct (Qis0 q); [exact Hd|]. apply Hok.
  destruct Hk as [-> | ->]; [left | right]; exists parsed; auto.
Qed.

Lemma branch_output_confidence name text b :
  branch_output name text = Done b ->
  confidence b = Ranged.reported "confidence" text 0.5.
Proof.
  unfold branch_output.
  destruct (if_truthy (parseJsonFromResponse text)) as [parsed|] eqn:E.
  - intros H. inv_done. subst b. simpl.
    eapply number_reported; eassumption.
  - intros [= <-]. unfold Ranged.reported. rewrite E. reflexivity.
Qed.

Lemma branch_output_ranged name text b :
  branch_output name text = Done b ->
  Ranged.text_ok text ->
  Ranged.unit_interval (confidence b).
Proof.
  intros H Hok. rewrite (branch_output_confidence _ _ _ H).
  apply reported_ranged; [auto | exact Hok | apply half_in_unit].
Qed.

Lemma Math_min_boost_ranged c :
  Ranged.unit_interval c -> Ranged.unit_interval (Math_min (c + 0.1) 0.95).
Proof.
  intros [H0 H1]. unfold Ranged.unit_interval.
  destruct (Math_min_cases (c + 0.1) 0.95) as [E | E]; rewrite E.
  - pose proof (Math_min_le_r (c + 0.1) 0.95) as Hle. rewrite E in Hle.
    split; lra.
  - split; discriminate.
Qed.

Lemma refine_output_parsed b text b' :
  refine_output b text = Done b' ->
  if_truthy (parseJsonFromResponse text) <> None ->
  confidence b'
  = Math_min (Ranged.reported "confidence" text (confidence b) + 0.1) 0.95.
Proof.
  unfold refine_output.
  destruct (if_truthy (parseJsonFromResponse text)) as [refined|] eqn:E;
    [|contradiction].
  intros H _. inv_done. subst b'. simpl. do 2 f_equal.
  eapply number_reported; eassumption.
Qed.

Lemma refine_output_unparsed b text b' :
  refine_output b text = Done b' ->
  if_truthy (parseJsonFromResponse text) = None ->
  confidence b' = confidence b + 0.1.
Proof.
  unfold refine_output. intros H E. rewrite E in H.
  injection H as <-. reflexivity.
Qed.

Lemma refine_output_ranged b text b' :
  refine_output b text = Done b' ->
  if_truthy (parseJsonFromResponse text) <> None ->
  Ranged.text_ok text ->
  Ranged.unit_interval (confidence b) ->
  Ranged.unit_interval (confidence b') /\ confidence b' <= 0.95.
Proof.
  intros H Hp Hok Hb. rewrite (refine_output_parsed _ _ _ H Hp).
  split; [|apply Math_min_le_r].
  apply Math_min_boost_ranged. apply reported_ranged; auto.
Qed.

Lemma sum_ranged l :
  Forall Ranged.unit_interval l ->
  0 <= fold_right Qplus 0 l
  /\ fold_right Qplus 0 l <= inject_Z (Z.of_nat (List.length l)).
Proof.
  induction 1 as [|q l [H0 H1] _ [IH0 IH1]].
  - simpl. split; apply Qle_refl.
  - cbn [fold_right List.length]. rewrite Nat2Z.inj_succ, <- Z.add_1_r, inject_Z_plus.
    change (inject_Z 1) with 1. split; lra.
Qed.

Lemma avgConfidence_ranged outputs :
  outputs <> [] -> Ranged.confidences outputs -> in_unit (avgConfidence outputs).
Proof.
  intros Hne Hc. destruct (avgConfidence_mean outputs Hne) as (a & -> & Ha).
  simpl. rewrite Ha. unfold Blend.mean. rewrite length_map.
  assert (Hl : Forall Ranged.unit_interval (List.map confidence outputs)).
  { apply Forall_map. exact Hc. }
  apply sum_ranged in Hl. rewrite length_map in Hl. destruct Hl as [Hs0 Hs1].
  assert (Hn : 0 < inject_Z (Z.of_nat (List.length outputs))).
  { destruct outputs; [contradiction|]. reflexivity. }
  split.
  - apply Qle_shift_div_l; [exact Hn|]. lra.
  - apply Qle_shift_div_r; [exact Hn|]. lra.
Qed.

Lemma blend_ranged u avg :
  Ranged.unit_interval u -> in_unit avg -> in_unit (blend u avg).
Proof.
  intros [Hu0 Hu1] Havg. destruct avg as [a| | |]; try contradiction.
  destruct Havg as [Ha0 Ha1]. simpl. split.
  - apply Qle_shift_div_l; [reflexivity|]. lra.
  - apply Qle_shift_div_r; [reflexivity|]. lra.
Qed.

Lemma consistency_of_ranged text cs ces avg v :
  consistency_of text cs ces avg = Done v ->
  Ranged.text_ok text -> in_unit avg -> in_unit (uncertaintyScore v).
Proof.
  unfold consistency_of.
  destruct (if_truthy (parseJsonFromResponse text)) as [parsed|] eqn:E.
  - intros H Hok Havg. inv_done. subst v. simpl.
    apply blend_ranged; [|exact Havg].
    eapply number_ranged; [eassumption | | apply half_in_unit].
    intros p Hp. apply Hok. right. exists parsed. auto.
  - intros [= <-] _ Havg. simpl. apply blend_ranged; [apply half_in_unit | exact Havg].
Qed.

Lemma oall_Done {A} (os : list (Outcome A)) l :
  Outcome.all os = Done l -> Forall2 (fun o a => o = Done a) os l.
Proof.
  revert l. induction os as [|o os IH]; intros l; simpl.
  - intros [= <-]. constructor.
  - intros H. inv_done. subst l. constructor; [assumption|]. apply IH. assumption.
Qed.

Lemma finish_all_ranged l finished :
  Outcome.all (List.map finish_branch l) = Done finished ->
  Forall (fun r => Ranged.text_ok (snd (snd r))) l ->
  Forall (fun f => Ranged.unit_interval (confidence (snd f))) finished.
Proof.
  revert finished. induction l as [|r l IH]; intros finished; simpl.
  - intros [= <-] _. constructor.
  - intros H Hl. inversion Hl as [|r' l' Hr Hrest]. subst.
    apply obind_Done in H. destruct H as (f & Hf & H).
    apply omap_Done in H. destruct H as (fs & Hfs & ->).
    constructor; [|apply IH; assumption].
    unfold finish_branch in Hf. apply omap_Done in Hf.
    destruct Hf as (output & Hout & ->). simpl.
    eapply branch_output_ranged; eassumption.
Qed.

Lemma nth_error_later w w' rq :
  extends (record_request rq w) w' ->
  nth_error (issued w') (List.length (issued w)) = Some rq.
Proof.
  intros (_ & _ & _ & more & Hi). rewrite Hi. simpl.
  rewrite <- app_assoc. rewrite nth_error_app2 by lia.
  rewrite Nat.sub_diag. reflexivity.
Qed.

Lemma extends_issued w w' :
  extends w w' -> (List.length (issued w) <= List.length (issued w'))%nat.
Proof. intros (_ & _ & _ & more & ->). rewrite length_app. lia. Qed.

Section Ranges.

(** The requests issued after the first [k], up to the world [wf], get
    responses whose reports are in range, and the refinements among them
    responses that parse. *)
Variable k : nat.
Variable wf : World.
Hypothesis Hresp : Ranged.responses k wf.
Hypothesis Hparse : Ranged.refinements_parse wf.

Lemma request_answered rq w :
  extends (record_request rq w) wf -> (k <= List.length (issued w))%nat ->
  Ranged.text_ok (settle (rq_model rq) (answer (next_reply w))).
Proof.
  intros Hext Hk. apply Hresp. exists (List.length (issued w)), rq.
  split; [exact Hk|]. split; [apply nth_error_later, Hext|].
  destruct Hext as (_ & Hr & _). simpl in Hr. rewrite Hr. reflexivity.
Qed.

Lemma callModel_ranged m sys maxTokens w text w' :
  callModel m sys maxTokens w = Done (text, w') ->
  (k <= List.length (issued w))%nat -> extends w' wf -> Ranged.text_ok text.
Proof.
  intros H Hk Hext. apply callModel_Done in H. destruct H as (_ & -> & ->).
  exact (request_answered _ w Hext Hk).
Qed.

Lemma each_start_branch_ranged names :
  forall w started w',
    M.each start_branch names w = Done (started, w') ->
    (k <= List.length (issued w))%nat -> extends w' wf ->
    Forall (fun r => Ranged.text_ok (snd (snd r))) (somes started).
Proof.
  induction names as [|name names IH]; intros w started w'; simpl.
  - intros H _ _. apply ret_Done in H. destruct H as [-> _]. constructor.
  - intros H Hk Hext. apply bind_Done in H. destruct H as (r & w1 & H1 & H2).
    apply bind_Done in H2. destruct H2 as (rs & w2 & H2 & H3).
    apply ret_Done in H3. destruct H3 as [-> ->].
    apply frames_start_branch in H1 as Hext1.
    apply frames_each in H2 as Hext2; [|intros; apply frames_start_branch].
    apply extends_issued in Hext1 as Hlen.
    assert (Hrest : Forall (fun r => Ranged.text_ok (snd (snd r))) (somes rs)).
    { eapply IH; [exact H2 | lia | exact Hext]. }
    unfold start_branch in H1. destruct (branchConfigs name) as [config|].
    + apply bind_Done in H1. destruct H1 as (r0 & w0 & Hc & Hret).
      apply callModel_timed_Done in Hc. destruct Hc as (_ & -> & ->).
      apply ret_Done in Hret. destruct Hret as [-> ->]. simpl.
      constructor; [|exact Hrest]. simpl.
      apply (request_answered
               {| rq_model := model config; rq_system := systemPrompt config;
                  rq_maxTokens := 800; rq_stream := false |} w); [|exact Hk].
      eapply extends_trans; eassumption.
    + apply ret_Done in H1. destruct H1 as [-> _]. simpl. exact Hrest.
Qed.

Lemma stageB_ranged prompt t b sp w outputs sp' w' :
  stageB_DendriticBranches prompt t b sp w = Done ((outputs, sp'), w') ->
  (k <= List.length (issued w))%nat -> extends w' wf ->
  Ranged.confidences outputs.
Proof.
  unfold stageB_DendriticBranches. intros H Hk Hext.
  apply bind_Done in H. destruct H as ([] & w1 & H1 & H).
  apply logSection_Done in H1. subst w1.
  apply bind_Done in H. destruct H as (started & w2 & H2 & H).
  apply bind_Done in H. destruct H as (finished & w3 & H3 & H).
  apply lift_Done in H3. destruct H3 as [H3 ->].
  apply bind_Done in H. destruct H as (sp1 & w4 & H4 & H).
  apply ret_Done in H. destruct H as [[= -> ->] ->].
  apply frames_record_outputs in H4.
  apply each_start_branch_ranged in H2;
    [ | exact Hk | eapply extends_trans; eassumption ].
  unfold Ranged.confidences. apply Forall_map.
  eapply finish_all_ranged; eassumption.
Qed.

Lemma stageC_ranged prompt t outputs sp w v w' :
  stageC_Verification prompt t outputs sp w = Done (v, w') ->
  (k <= List.length (issued w))%nat -> extends w' wf ->
  outputs <> [] -> Ranged.confidences outputs ->
  in_unit (uncertaintyScore v).
Proof.
  unfold stageC_Verification. intros H Hk Hext Hne Hc.
  apply bind_Done in H. destruct H as ([] & w1 & H1 & H).
  apply logSection_Done in H1. subst w1.
  apply bind_Done in H. destruct H as (ce & w2 & H2 & H).
  apply bind_Done in H. destruct H as (cs & w3 & H3 & H).
  apply bind_Done in H. destruct H as (ces & w4 & H4 & H).
  apply lift_Done in H4. destruct H4 as [_ ->].
  apply lift_Done in H. destruct H as [H ->].
  apply frames_callModel in H2 as Hext2. apply extends_issued in Hext2.
  eapply consistency_of_ranged;
    [exact H | | apply avgConfidence_ranged; assumption].
  eapply callModel_ranged; [exact H3 | simpl in Hext2; lia | exact Hext].
Qed.

Lemma rerun_ranged weakBranches instructions b w b' w' :
  rerun weakBranches instructions b w = Done (b', w') ->
  (k <= List.length (issued w))%nat -> extends w' wf ->
  Ranged.unit_interval (confidence b) ->
  Ranged.unit_interval (confidence b').
Proof.
  unfold rerun. intros H Hk Hext Hb.
  destruct (among weakBranches b).
  - apply bind_Done in H. destruct H as (instruction & w1 & H1 & H).
    apply lift_Done in H1. destruct H1 as [_ ->].
    apply bind_Done in H. destruct H as (response & w2 & H2 & H).
    pose proof (callModel_ranged _ _ _ _ _ _ H2 Hk) as Hok.
    apply callModel_Done in H2. destruct H2 as (_ & -> & ->).
    apply lift_Done in H. destruct H as [H ->].
    set (rq := {| rq_model := Some (if String.eqb (branchName b) "code"
                                    then MODELS.code else MODELS.cheap);
                  rq_system := Some (Refine (branchName b));
                  rq_maxTokens := 800; rq_stream := false |}) in *.
    pose proof (nth_error_later w wf rq Hext) as Hnth.
    pose proof (Hparse _ rq (branchName b) Hnth eq_refl) as Hp.
    pose proof Hext as (_ & Hr & _). simpl in Hr. rewrite Hr in Hp.
    eapply refine_output_ranged; [exact H | exact Hp | | exact Hb].
    apply Hok, Hext.
  - apply ret_Done in H. destruct H as [-> _]. exact Hb.
Qed.

Lemma each_rerun_ranged weakBranches instructions outputs :
  forall w outputs' w',
    M.each (rerun weakBranches instructions) outputs w = Done (outputs', w') ->
    (k <= List.length (issued w))%nat -> extends w' wf ->
    Ranged.confidences outputs ->
    Ranged.confidences outputs'
    /\ List.length outputs' = List.length outputs.
Proof.
  induction outputs as [|b outputs IH]; intros w outputs' w'; simpl.
  - intros H _ _ _. apply ret_Done in H. destruct H as [-> _].
    split; [constructor | reflexivity].
  - intros H Hk Hext Hc.
    apply bind_Done in H. destruct H as (b' & w1 & H1 & H).
    apply bind_Done in H. destruct H as (bs & w2 & H2 & H).
    apply ret_Done in H. destruct H as [-> ->].
    inversion Hc as [|b0 l Hb Hrest]. subst.
    apply frames_each in H2 as Hext2; [|intros; apply frames_rerun].
    apply frames_rerun in H1 as Hext1. apply extends_issued in Hext1 as Hlen.
    destruct (IH w1 bs w2 H2 ltac:(lia) Hext Hrest) as [IHc IHl].
    split; [|simpl; congruence].
    constructor; [|exact IHc].
    eapply rerun_ranged; [exact H1 | exact Hk | | exact Hb].
    eapply extends_trans; eassumption.
Qed.

Lemma stageD_ranged prompt t outputs sp v b n w recur outputs' w' :
  stageD_AdaptiveRecurrence prompt t outputs sp v b n w
  = Done ((recur, outputs'), w') ->
  (k <= List.length (issued w))%nat -> extends w' wf ->
  Ranged.confidences outputs ->
  Ranged.confidences outputs'
  /\ List.length outputs' = List.length outputs
  /\ (recur = false -> outputs' = outputs).
Proof.
  unfold stageD_AdaptiveRecurrence. intros H Hk Hext Hc.
  apply bind_Done in H. destruct H as ([] & w1 & H1 & H).
  apply logSection_Done in H1. subst w1.
  destruct (_ && _).
  { apply ret_Done in H. destruct H as [[= -> ->] _]. auto. }
  destruct (Qle_bool _ _).
  { apply ret_Done in H. destruct H as [[= -> ->] _]. auto. }
  destruct (_ =? _)%nat.
  { apply ret_Done in H. destruct H as [[= -> ->] _]. auto. }
  apply bind_Done in H. destruct H as (instructionResult & w2 & H2 & H).
  apply bind_Done in H. destruct H as (updated & w3 & H3 & H).
  apply ret_Done in H. destruct H as [[= -> ->] ->].
  apply frames_callModel in H2. apply extends_issued in H2. simpl in H2.
  destruct (each_rerun_ranged _ _ _ _ _ _ H3 ltac:(lia) Hext Hc) as [Hc' Hl].
  split; [exact Hc'|]. split; [exact Hl | discriminate].
Qed.

Lemma recurrence_pass_ranged prompt st w st' c w' :
  recurrence_pass prompt st w = Done ((st', c), w') ->
  (k <= List.length (issued w))%nat -> extends w' wf ->
  Ranged.state st -> Ranged.state st'.
Proof.
  unfold recurrence_pass. intros H Hk Hext [Hc Hv].
  apply bind_Done in H. destruct H as (t & w1 & H1 & H).
  apply of_null_Done in H1. destruct H1 as [_ ->].
  apply bind_Done in H. destruct H as (v & w2 & H2 & H).
  apply of_null_Done in H2. destruct H2 as [Hver ->].
  apply bind_Done in H. destruct H as (b & w3 & H3 & H).
  apply of_null_Done in H3. destruct H3 as [_ ->].
  apply bind_Done in H. destruct H as ([recur outputs'] & w4 & HD & H).
  simpl in H. destruct recur.
  - apply bind_Done in H. destruct H as (v' & w5 & HC & H).
    apply ret_Done in H. destruct H as [[= -> ->] ->]. simpl in HC.
    apply frames_stageC in HC as HextC.
    apply frames_stageD in HD as HextD. apply extends_issued in HextD as Hlen.
    destruct (stageD_ranged _ _ _ _ _ _ _ _ _ _ _ HD Hk
                (extends_trans _ _ _ HextC Hext) Hc) as (Hc' & Hl & _).
    split; simpl; [exact Hc'|].
    intros Hne v0 [= <-].
    eapply stageC_ranged; [exact HC | lia | exact Hext | exact Hne | exact Hc'].
  - apply ret_Done in H. destruct H as [[= -> ->] ->].
    destruct (stageD_ranged _ _ _ _ _ _ _ _ _ _ _ HD Hk Hext Hc)
      as (Hc' & Hl & Hsame).
    rewrite (Hsame eq_refl). split; simpl; assumption.
Qed.

Lemma recurrence_loop_ranged prompt fuel st c w st' w' :
  recurrence_loop fuel prompt st c w = Done (st', w') ->
  (k <= List.length (issued w))%nat -> extends w' wf ->
  Ranged.state st -> Ranged.state st'.
Proof.
  intros H Hk Hext Hst.
  set (P := fun (s : ARDRState) (w0 : World) =>
              (k <= List.length (issued w0))%nat
              /\ (extends w0 wf -> Ranged.state s)).
  assert (HP : P st' w'); [|exact (proj2 HP Hext)].
  eapply (recurrence_loop_ind prompt P); [ | exact H | split; auto ].
  subst P. simpl. intros s w0 b s' c' w0' [Hk0 Hs] _ _ Hp.
  apply frames_recurrence_pass in Hp as Hext0.
  apply extends_issued in Hext0 as Hlen.
  split; [lia|]. intros Hextf.
  eapply recurrence_pass_ranged; [exact Hp | exact Hk0 | exact Hextf|].
  apply Hs. eapply extends_trans; eassumption.
Qed.

Lemma runARDR_state_ranged fuel prompt tier w r st w' :
  runARDR_state fuel prompt tier w = Done ((r, st), w') ->
  (k <= List.length (issued w))%nat -> extends w' wf ->
  Ranged.state st.
Proof.
  intros H Hk Hext. apply runARDR_state_Done in H.
  destruct H as (b & w1 & H0 & [(_ & -> & _) | (_ & H)]).
  - split; simpl; [constructor | intros Hne; contradiction].
  - destruct H as (t & w2 & outputs & sp & w3 & v & w4 & st5 & w5
                   & HA & HB & HC & HL & HF & ->).
    apply frames_stage0 in H0. apply frames_stageA in HA.
    apply frames_stageB in HB as HextB. apply frames_stageC in HC as HextC.
    apply frames_stageFinal in HF.
    apply frames_recurrence_loop in HL as HextL.
    pose proof (extends_trans _ _ _ H0 HA) as Hext2.
    pose proof (extends_trans _ _ _ Hext2 HextB) as Hext3.
    pose proof (extends_trans _ _ _ Hext3 HextC) as Hext4.
    apply extends_issued in Hext2 as Hl2. apply extends_issued in Hext3 as Hl3.
    apply extends_issued in Hext4 as Hl4.
    pose proof (extends_trans _ _ _ HF Hext) as Hf5.
    pose proof (extends_trans _ _ _ HextL Hf5) as Hf4.
    pose proof (extends_trans _ _ _ HextC Hf4) as Hf3.
    pose proof (stageB_ranged _ _ _ _ _ _ _ _ HB ltac:(lia) Hf3) as Hc.
    assert (Hentry : Ranged.state (Run.entry prompt tier b t outputs sp v)).
    { split; simpl; [exact Hc|]. intros Hne v0 [= <-].
      eapply stageC_ranged; [exact HC | lia | exact Hf4 | exact Hne | exact Hc]. }
    assert (Hst5 : Ranged.state st5).
    { eapply recurrence_loop_ranged; [exact HL | lia | exact Hf5 | exact Hentry]. }
    exact Hst5.
Qed.

End Ranges.

(** C1, as amended. Nothing is clamped when a value is read. The
    confidence of a branch output is the confidence its response reports,
    and 0.5 when the response does not parse, reports none or reports 0.
    A refinement whose response parses yields the confidence that response
    reports (the previous one when it reports none or 0) plus 0.1, and
    0.95 when that is more; one whose response does not parse yields the
    previous confidence plus 0.1, uncapped. So in every completed run in
    which every confidence and uncertainty reported by a response to a
    request of the run lies in [0,1] and the response to every refinement
    request parses -- a failed call is answered by its error marker, which
    as a rule reports nothing -- every branch confidence lies in [0,1],
    and so does the uncertainty score when there is at least one branch
    output. All this is for responses whose values have the types
    declared for their fields. *)
Theorem reports_in_range_stay_in_range
    (fuel : nat) (prompt : string) (tier : NexusTier) (w : World) :
  (forall r st w',
      runARDR_state fuel prompt tier w = Done ((r, st), w') ->
      Ranged.responses (List.length (issued w)) w' ->
      Ranged.refinements_parse w' ->
      Forall (fun b => 0 <= confidence b /\ confidence b <= 1) (branchOutputs st)
      /\ (branchOutputs st <> [] ->
          forall v, verification st = Some v -> in_unit (uncertaintyScore v)))
  /\ (forall name text b,
        branch_output name text = Done b ->
        confidence b = Ranged.reported "confidence" text 0.5)
  /\ (forall b text b',
        refine_output b text = Done b' ->
        let c := Ranged.reported "confidence" text (confidence b) in
        (if_truthy (parseJsonFromResponse text) <> None ->
         (c + 0.1 <= 0.95 /\ confidence b' = c + 0.1)
         \/ (0.95 < c + 0.1 /\ confidence b' = 0.95))
        /\ (if_truthy (parseJsonFromResponse text) = None ->
            confidence b' = confidence b + 0.1)).
Proof.
  split; [|split].
  - intros r st w' H Hresp Hparse.
    exact (runARDR_state_ranged (List.length (issued w)) w' Hresp Hparse
             fuel prompt tier w r st w' H (Nat.le_refl _) (extends_refl w')).
  - intros name text b H. eapply branch_output_confidence, H.
  - intros b text b' H c. split.
    + intros Hp. rewrite (refine_output_parsed _ _ _ H Hp). fold c.
      destruct (Math_min_spec (c + 0.1) 0.95) as [[Hle ->] | [Hlt ->]]; auto.
    + intros Hp. exact (refine_output_unparsed _ _ _ H Hp).
Qed.

Ltac text_ok_tac :=
  let q := fresh "q" in
  let parsed := fresh "parsed" in
  let Hp := fresh "Hp" in
  let Hf := fresh "Hf" in
  intros q [(parsed & Hp & Hf) | (parsed & Hp & Hf)];
  vm_compute in Hp;
  first [ discriminate Hp
        | injection Hp as <-; vm_compute in Hf;
          first [ discriminate Hf
                | injection Hf as <-; split; discriminate ] ].

Lemma flaky_run_stays_in_range :
  exists r st w',
    runARDR_state 5 "p" high Scene.flaky = Done ((r, st), w')
    /\ triPack st
       = Some {| symbolic := "S";
                 invariants := "[Error calling google/gemini-2.0-flash-001: timeout]";
                 formal := "F" |}
    /\ recurrenceCount st = 1%nat
    /\ Forall (fun b => 0 <= confidence b /\ confidence b <= 1) (branchOutputs st)
    /\ (branchOutputs st <> [] ->
        forall v, verification st = Some v -> in_unit (uncertaintyScore v)).
Proof.
  assert (E : exists r st w',
             runARDR_state 5 "p" high Scene.flaky = Done ((r, st), w')
             /\ triPack st
                = Some {| symbolic := "S";
                          invariants :=
                            "[Error calling google/gemini-2.0-flash-001: timeout]";
                          formal := "F" |}
             /\ recurrenceCount st = 1%nat
             /\ issued w' = Protocol.full high ["logic"; "foo"; "code"] [["code"]]
             /\ replies w' = replies Scene.flaky).
  { eexists _, _, _. split; [vm_compute; reflexivity|]. repeat split. }
  destruct E as (r & st & w' & E & Ht & Hc & Hi & Hrep). exists r, st, w'.
  split; [exact E|]. split; [exact Ht|]. split; [exact Hc|].
  apply (proj1 (reports_in_range_stay_in_range 5 "p" high Scene.flaky) r st w' E).
  - intros text (n & rq & _ & Hn & ->). rewrite Hi in Hn. rewrite Hrep.
    do 13 (destruct n as [|n]; [injection Hn as <-; text_ok_tac|]).
    destruct n; discriminate Hn.
  - intros n rq name Hn Hrq. rewrite Hi in Hn. rewrite Hrep.
    do 13 (destruct n as [|n];
           [injection Hn as <-;
            first [ discriminate Hrq | vm_compute; discriminate ]|]).
    destruct n; discriminate Hn.
Defined.

(** C1 fails as stated: the only branch reports a confidence of 7; the
    run completes with that confidence, and with an uncertainty score of
    -11/4. *)
Lemma reported_confidence_is_not_clamped :
  exists r st w' b v q,
    runARDR_state 5 "p" high Sample.overconfident = Done ((r, st), w')
    /\ branchOutputs st = [b]
    /\ confidence b == 7
    /\ verification st = Some v
    /\ uncertaintyScore v = Fin q
    /\ q == - (11 # 4)
    /\ ~ confidence b <= 1
    /\ ~ in_unit (uncertaintyScore v).
Proof.
  eexists _, _, _, _, _, _. split; [vm_compute; reflexivity|].
  split; [reflexivity|]. split; [reflexivity|]. split; [reflexivity|].
  split; [reflexivity|]. split; [reflexivity|].
  split; [intros H; vm_compute in H; apply H; reflexivity|].
  simpl. intros [H _]. vm_compute in H. apply H. reflexivity.
Qed.

(** With every report in range, the boost a refinement applies when its
    response does not parse has no cap: from 0.95 it gives 1.05. *)
Example boost_without_cap :
  exists r st w' b,
    runARDR_state 5 "p" high Sample.boosted = Done ((r, st), w')
    /\ branchOutputs st = [b]
    /\ recurrenceCount st = 1%nat
    /\ confidence b == 1.05.
Proof.
  eexists _, _, _, _. split; [vm_compute; reflexivity|]. repeat split.
Qed.

(** ** Scenarios of the specification *)

(** A malformed profiler response gives the default budget, with the depth
    of the tier. *)
Example malformed_profile_gives_the_default_budget :
  budget_of high "I cannot classify this."
  = Done {| taskType := "reasoning"; complexity := "medium"; riskScore := 0.5;
            allowedDepth := 2; branches := ["logic"; "world"; "code"];
            chiefModel := MODELS.chiefHigh |}.
Proof. reflexivity. Qed.

(** An unparsable branch response becomes the sole hypothesis, with
    confidence 0.5. *)
Example raw_text_gives_a_degraded_output :
  branch_output "logic" "I think X happens because Y"
  = Done {| branchName := "logic";
            hypotheses := ["I think X happens because Y"];
            artifacts := [];
            notes := "I think X happens because Y";
            contradictions := [];
            confidence := 0.5 |}.
Proof. reflexivity. Qed.

(** With an uncertainty of 0.3 and no weak point the controller stops at
    once. *)
Example low_uncertainty_stops_the_controller :
  forall prompt t outputs sp b n w,
    stageD_AdaptiveRecurrence prompt t outputs sp
      {| branchScores := ∅; counterexamples := []; allContradictions := [];
         provenInvariants := []; uncertaintyScore := Fin 0.3; weakPoints := [] |}
      b n w
    = Done ((false, outputs), record_section bannerD w).
Proof. reflexivity. Qed.

(** A name that every object inherits finds something in the registry of
    branch profiles, though not a profile: such a branch is run, with a
    model and a system prompt that are undefined. *)
Example inherited_name_finds_a_config :
  branchConfigs "constructor" = Some {| model := None; systemPrompt := None |}
  /\ branchConfigs "intuition" = None.
Proof. split; reflexivity. Qed.

(** * Further properties *)

(** ** The Response Interpreter: what surrounds the braces *)

Lemma from_first_brace_skip pre s :
  Spec.lacks "{" pre -> from_first_brace (pre +:+ s) = from_first_brace s.
Proof.
  induction pre as [|x pre IH]; simpl; [reflexivity|].
  intros [Hx L]. destruct (Ascii.eqb_spec x "{") as [->|_]; [contradiction | auto].
Qed.

Lemma from_first_brace_app s post :
  from_first_brace (s +:+ post)
  = match from_first_brace s with
    | Some s' => Some (s' +:+ post)
    | None => from_first_brace post
    end.
Proof.
  induction s as [|x s IH]; simpl; [reflexivity|].
  destruct (Ascii.eqb x "{"); [reflexivity | exact IH].
Qed.

Lemma from_first_brace_lacks c s s' :
  from_first_brace s = Some s' -> Spec.lacks c s -> Spec.lacks c s'.
Proof.
  induction s as [|x s IH]; simpl; [discriminate|].
  destruct (Ascii.eqb x "{").
  - intros [= <-] L. exact L.
  - intros H [_ L]. auto.
Qed.

Lemma upto_last_brace_app s post :
  Spec.lacks "}" post -> upto_last_brace (s +:+ post) = upto_last_brace s.
Proof.
  intros L. induction s as [|x s IH]; simpl.
  - apply upto_last_brace_None. exact L.
  - rewrite IH. reflexivity.
Qed.

Lemma jsonMatch_chatter pre response post :
  Spec.lacks "{" pre -> Spec.lacks "}" post ->
  jsonMatch (pre +:+ response +:+ post) = jsonMatch response.
Proof.
  intros Lpre Lpost. unfold jsonMatch.
  rewrite from_first_brace_skip by exact Lpre.
  rewrite from_first_brace_app.
  destruct (from_first_brace response) as [s|].
  - apply upto_last_brace_app. exact Lpost.
  - destruct (from_first_brace post) as [p|] eqn:E; [|reflexivity].
    apply upto_last_brace_None. eapply from_first_brace_lacks; eassumption.
Qed.

(** X1. Text before the response that has no opening brace, and text after
    it that has no closing brace, do not change what the Response
    Interpreter returns. *)
Theorem parseJsonFromResponse_ignores_chatter (pre response post : string) :
  Spec.lacks "{" pre -> Spec.lacks "}" post ->
  parseJsonFromResponse (pre +:+ response +:+ post) = parseJsonFromResponse response.
Proof.
  intros Lpre Lpost. unfold parseJsonFromResponse.
  rewrite jsonMatch_chatter by assumption. reflexivity.
Qed.

Lemma fenced_response_is_read :
  parseJsonFromResponse
    ("Here is the profile: " +:+ Env.quoted "{'taskType':'code'}" +:+ " -- done {")
  = parseJsonFromResponse (Env.quoted "{'taskType':'code'}").
Proof.
  apply (parseJsonFromResponse_ignores_chatter
           "Here is the profile: " (Env.quoted "{'taskType':'code'}") " -- done {").
  - simpl. repeat split; discriminate.
  - simpl. repeat split; discriminate.
Defined.

(** ** The Response Interpreter: what it can return *)

Section ObjectsOnly.

Import JsonParse Shape.

Lemma rooted_under f st : rooted st = true -> rooted (f :: st) = true.
Proof. destruct st; simpl; [discriminate | auto]. Qed.

Lemma rooted_below_array items below :
  rooted (FArr items :: below) = true -> rooted below = true.
Proof. destruct below; simpl; [discriminate | auto]. Qed.

Lemma rooted_below_object fields k below :
  rooted (FObj fields k :: below) = true -> below = [] \/ rooted below = true.
Proof. destruct below; simpl; auto. Qed.

Lemma rooted_on_object fields k st :
  st = [] \/ rooted st = true -> rooted (FObj fields k :: st) = true.
Proof. intros [-> | H]; [reflexivity | apply rooted_under, H]. Qed.

Lemma complete_rooted st v : rooted st = true -> in_object (complete st v).
Proof.
  destruct st as [|[items|fields k] below]; simpl; [discriminate| |];
    destruct below; auto.
Qed.

Lemma complete_object st fields :
  st = [] \/ rooted st = true -> in_object (complete st (JObj fields)).
Proof.
  intros [-> | H]; [reflexivity | apply complete_rooted, H].
Qed.

Lemma start_value_in_object st t s' :
  rooted st = true -> start_value st t = Some s' -> in_object s'.
Proof.
  intros H. destruct t; simpl; try discriminate.
  - intros [= <-]. right. exact H.
  - intros [= <-]. apply (rooted_under (FArr [])), H.
  - intros [= <-]. apply complete_rooted, H.
  - destruct (atom s) as [v|]; simpl; [|discriminate].
    intros [= <-]. apply complete_rooted, H.
Qed.

Lemma parse_step_in_object s t s' :
  in_object s -> parse_step s t = Some s' -> in_object s'.
Proof.
  destruct s as [st e]. unfold in_object at 1. simpl.
  destruct e; intros H.
  - apply start_value_in_object, H.
  - destruct t; try (apply start_value_in_object, H).
    destruct st as [|[items|fields k] below]; try (apply start_value_in_object, H).
    intros [= <-]. apply complete_rooted. eapply rooted_below_array, H.
  - destruct t; try discriminate.
    + intros [= <-]. apply complete_object, H.
    + intros [= <-]. exact H.
  - destruct t; try discriminate. intros [= <-]. exact H.
  - destruct t; try discriminate. intros [= <-]. apply rooted_on_object, H.
  - destruct t; try discriminate;
      destruct st as [|[items|fields k] below]; try discriminate.
    + intros [= <-]. apply complete_object. eapply rooted_below_object, H.
    + intros [= <-]. apply complete_rooted. eapply rooted_below_array, H.
    + intros [= <-]. exact H.
    + intros [= <-]. eapply rooted_below_object, H.
  - discriminate.
Qed.

Lemma parse_tokens_in_object ts :
  forall s v, in_object s -> parse_tokens s ts = Some v -> is_object v = true.
Proof.
  induction ts as [|t ts IH]; intros s v H; simpl.
  - destruct s as [[|f st] e]; try discriminate.
    destruct e; try discriminate. intros [= <-]. exact H.
  - destruct (parse_step s t) as [s'|] eqn:E; [|discriminate].
    apply IH. eapply parse_step_in_object; eassumption.
Qed.

Lemma JSON_parse_braced rest v :
  JSON_parse (String "{" rest) = Some v -> is_object v = true.
Proof.
  unfold JSON_parse. simpl.
  destruct (lex LIdle rest) as [more|]; [|discriminate]. simpl.
  apply parse_tokens_in_object. left. reflexivity.
Qed.

End ObjectsOnly.

(** X2. The Response Interpreter returns none or an object, never a
    number, a string, a boolean, an array or a parsed [null]: the test
    [if (parsed)] of the stages holds exactly when the response has
    parsed. *)
Theorem parseJsonFromResponse_none_or_object (response : string) :
  (parseJsonFromResponse response = None
   \/ exists fields, parseJsonFromResponse response = Some (JObj fields))
  /\ if_truthy (parseJsonFromResponse response) = parseJsonFromResponse response.
Proof.
  assert (H : forall v, parseJsonFromResponse response = Some v ->
                        Shape.is_object v = true).
  { intros v Hv. unfold parseJsonFromResponse in Hv.
    destruct (jsonMatch response) as [text|] eqn:E; [|discriminate].
    apply jsonMatch_spec in E. destruct E as (pre & mid & post & _ & -> & _).
    eapply JSON_parse_braced. exact Hv. }
  destruct (parseJsonFromResponse response) as [v|]; [|auto].
  specialize (H v eq_refl). destruct v; try discriminate.
  split; [right; eauto | reflexivity].
Qed.

(** ** The requests of each stage *)

Lemma stageA_initialized prompt b w :
  openaiClient w = true ->
  stageA_StructuredDecomposition prompt b w
  = Done ({| symbolic := response_to w MODELS.cheap (List.length (issued w));
             invariants := response_to w MODELS.cheap (S (List.length (issued w)));
             formal := response_to w MODELS.cheap (S (S (List.length (issued w)))) |},
          record_request (decomposition_request Formalizer)
            (record_request (decomposition_request InvariantReducer)
               (record_request (decomposition_request SymbolicAbstractor)
                  (record_section bannerA w)))).
Proof.
  intros C.
  unfold stageA_StructuredDecomposition, M.bind, logSection.
  rewrite callModel_initialized by exact C.
  rewrite callModel_initialized by exact C.
  rewrite callModel_initialized by exact C.
  unfold M.ret, response_to, next_reply. simpl.
  rewrite !length_app. simpl. rewrite !Nat.add_1_r. reflexivity.
Qed.

Lemma stageA_Done prompt b w t w' :
  stageA_StructuredDecomposition prompt b w = Done (t, w') ->
  openaiClient w = true
  /\ issued w' = issued w ++ Protocol.decomposition.
Proof.
  intros H.
  assert (C : openaiClient w = true).
  { unfold stageA_StructuredDecomposition in H. inv_done. subst. assumption. }
  split; [exact C|].
  rewrite stageA_initialized in H by exact C. injection H as _ <-.
  simpl. rewrite <- !app_assoc. reflexivity.
Qed.

Lemma branch_output_name name response o :
  branch_output name response = Done o -> branchName o = name.
Proof.
  unfold branch_output. destruct (if_truthy _).
  - intros H. inv_done. subst o. reflexivity.
  - intros [= <-]. reflexivity.
Qed.

Lemma refine_output_name b response b' :
  refine_output b response = Done b' -> branchName b' = branchName b.
Proof.
  unfold refine_output. destruct (if_truthy _).
  - intros H. inv_done. subst b'. reflexivity.
  - intros [= <-]. reflexivity.
Qed.

Lemma read_clock_issued n w :
  issued (Log.read_clock n w) = issued w
  /\ sections (Log.read_clock n w) = sections w
  /\ openaiClient (Log.read_clock n w) = openaiClient w.
Proof.
  revert w. induction n as [|n IH]; intros w; simpl; [auto|].
  destruct (IH (advance_clock w)) as (-> & -> & ->). auto.
Qed.

Lemma start_branch_Done name w r w' :
  start_branch name w = Done (r, w') ->
  issued w' = issued w ++ Protocol.branch_calls [name]
  /\ List.map (fun s => fst (snd s)) (somes [r]) = Protocol.configured [name].
Proof.
  unfold start_branch, Protocol.branch_calls, Protocol.configured. simpl.
  destruct (branchConfigs name) as [config|].
  - intros H. apply bind_Done in H. destruct H as (r0 & w1 & H1 & H2).
    apply callModel_timed_Done in H1. destruct H1 as (_ & -> & ->).
    apply ret_Done in H2. destruct H2 as [-> ->]. auto.
  - intros H. apply ret_Done in H. destruct H as [-> ->].
    simpl. rewrite app_nil_r. auto.
Qed.

Lemma somes_app {A} (l1 l2 : list (option A)) :
  somes (l1 ++ l2) = somes l1 ++ somes l2.
Proof.
  induction l1 as [|[a|] l1 IH]; simpl; [reflexivity | rewrite IH | ]; auto.
Qed.

Lemma each_start_branch_Done names :
  forall w started w',
    M.each start_branch names w = Done (started, w') ->
    issued w' = issued w ++ Protocol.branch_calls names
    /\ List.map (fun s => fst (snd s)) (somes started) = Protocol.configured names.
Proof.
  induction names as [|name names IH]; intros w started w'; simpl.
  - intros H. apply ret_Done in H. destruct H as [-> ->].
    rewrite app_nil_r. auto.
  - intros H. apply bind_Done in H. destruct H as (r & w1 & H1 & H).
    apply bind_Done in H. destruct H as (rs & w2 & H2 & H).
    apply ret_Done in H. destruct H as [-> ->].
    apply start_branch_Done in H1. destruct H1 as [Hi1 Hn1].
    apply IH in H2. destruct H2 as [Hi2 Hn2].
    split.
    + rewrite Hi2, Hi1, <- app_assoc. f_equal.
      unfold Protocol.branch_calls. simpl.
      destruct (branchConfigs name); reflexivity.
    + change (r :: rs) with ([r] ++ rs). rewrite somes_app, map_app, Hn1, Hn2.
      unfold Protocol.configured. simpl.
      destruct (branchConfigs name); reflexivity.
Qed.

Lemma finish_all_names l :
  forall finished,
    Outcome.all (List.map finish_branch l) = Done finished ->
    List.map (fun f => branchName (snd f)) finished
    = List.map (fun s => fst (snd s)) l.
Proof.
  induction l as [|s l IH]; intros finished; simpl.
  - intros [= <-]. reflexivity.
  - intros H. apply obind_Done in H. destruct H as (f & Hf & H).
    apply omap_Done in H. destruct H as (fs & Hfs & ->).
    unfold finish_branch in Hf. apply omap_Done in Hf.
    destruct Hf as (o & Ho & ->). apply branch_output_name in Ho.
    simpl. rewrite Ho, (IH fs Hfs). reflexivity.
Qed.

Lemma branch_calls_length names :
  List.length (Protocol.branch_calls names)
  = List.length (Protocol.configured names).
Proof.
  unfold Protocol.branch_calls, Protocol.configured. rewrite length_map.
  induction names as [|name names IH]; simpl; [reflexivity|].
  destruct (branchConfigs name); simpl; congruence.
Qed.

Lemma stageB_Done prompt t b sp w outputs sp' w' :
  stageB_DendriticBranches prompt t b sp w = Done ((outputs, sp'), w') ->
  List.map branchName outputs = Protocol.configured (branches b)
  /\ issued w' = issued w ++ Protocol.branch_calls (branches b).
Proof.
  unfold stageB_DendriticBranches. intros H.
  apply bind_Done in H. destruct H as ([] & w1 & H1 & H).
  apply logSection_Done in H1. subst w1.
  apply bind_Done in H. destruct H as (started & w2 & H2 & H).
  apply bind_Done in H. destruct H as (finished & w3 & H3 & H).
  apply lift_Done in H3. destruct H3 as [H3 ->].
  apply bind_Done in H. destruct H as (sp1 & w4 & H4 & H).
  apply ret_Done in H. destruct H as [[= -> ->] ->].
  apply record_outputs_Done in H4. destruct H4 as [_ ->].
  apply each_start_branch_Done in H2. destruct H2 as [Hi Hn].
  apply finish_all_names in H3. split.
  - rewrite map_map, H3. exact Hn.
  - destruct (read_clock_issued
                (List.length (flat_map Log.pass_entries
                                (List.map snd (completion_order finished)))) w2)
      as (-> & _). exact Hi.
Qed.

(** X4. The Branch Executor returns one output for each name asked for
    that finds a profile, in the order in which the names were asked for
    (whatever the order in which the responses arrive) and with repeated
    names repeated; a name that finds none is passed over. It issues one
    request per output, in the same order, with a ceiling of 800 tokens. *)
Theorem branch_outputs_follow_the_request_order
    (prompt : string) (t : TriStructurePack) (b : ReasoningBudget)
    (sp sp' : Scratchpad) (w w' : World) (outputs : list BranchOutput) :
  stageB_DendriticBranches prompt t b sp w = Done ((outputs, sp'), w') ->
  List.map branchName outputs = Protocol.configured (branches b)
  /\ issued w' = issued w ++ Protocol.branch_calls (branches b)
  /\ List.length (Protocol.branch_calls (branches b)) = List.length outputs
  /\ Forall (fun rq => rq_maxTokens rq = 800%Z /\ rq_stream rq = false)
            (Protocol.branch_calls (branches b)).
Proof.
  intros H. apply stageB_Done in H. destruct H as [Hn Hi].
  split; [exact Hn|]. split; [exact Hi|]. split.
  - rewrite branch_calls_length, <- Hn, length_map. reflexivity.
  - unfold Protocol.branch_calls. apply Forall_map. apply Forall_forall.
    intros config _. split; reflexivity.
Qed.

Lemma slow_branch_keeps_its_place :
  exists outputs sp' w',
    stageB_DendriticBranches "p" Sample.triPack
      (Scene.budget ["logic"; "intuition"; "world"])
      Sample.empty_scratchpad Scene.out_of_order
    = Done ((outputs, sp'), w')
    /\ List.map branch (entries sp') = ["world"; "world"; "logic"; "logic"]
    /\ List.map branchName outputs
       = Protocol.configured ["logic"; "intuition"; "world"]
    /\ issued w' = Protocol.branch_calls ["logic"; "intuition"; "world"]
    /\ List.length (Protocol.branch_calls ["logic"; "intuition"; "world"])
       = List.length outputs
    /\ Forall (fun rq => rq_maxTokens rq = 800%Z /\ rq_stream rq = false)
              (Protocol.branch_calls ["logic"; "intuition"; "world"]).
Proof.
  assert (E : exists outputs sp' w',
             stageB_DendriticBranches "p" Sample.triPack
               (Scene.budget ["logic"; "intuition"; "world"])
               Sample.empty_scratchpad Scene.out_of_order
             = Done ((outputs, sp'), w')
             /\ List.map branch (entries sp') = ["world"; "world"; "logic"; "logic"]).
  { eexists _, _, _. split; vm_compute; reflexivity. }
  destruct E as (outputs & sp' & w' & E & Hlog). exists outputs, sp', w'.
  split; [exact E|]. split; [exact Hlog|].
  exact (branch_outputs_follow_the_request_order
           "p" Sample.triPack (Scene.budget ["logic"; "intuition"; "world"])
           Sample.empty_scratchpad sp' Scene.out_of_order w' outputs E).
Defined.

Lemma stageC_Done prompt t outputs sp w v w' :
  stageC_Verification prompt t outputs sp w = Done (v, w') ->
  openaiClient w = true
  /\ issued w' = issued w ++ Protocol.verification
  /\ allContradictions v = flat_map contradictions outputs.
Proof.
  unfold stageC_Verification. intros H. inv_done. subst.
  split; [assumption|]. split; [simpl; rewrite <- !app_assoc; reflexivity|].
  match goal with H : consistency_of _ _ _ _ = Done _ |- _ =>
    unfold consistency_of in H; destruct (if_truthy _) in H end.
  - inv_done. subst v. reflexivity.
  - inv_done. subst v. reflexivity.
Qed.

(** ** The recurrence controller *)

Lemma rerun_Done weakBranches instructions b w b' w' :
  rerun weakBranches instructions b w = Done (b', w') ->
  branchName b' = branchName b
  /\ issued w' = issued w
       ++ (if among weakBranches b then [refine_request (branchName b)] else [])
  /\ (among weakBranches b = false -> b' = b).
Proof.
  unfold rerun. destruct (among weakBranches b).
  - intros H. apply bind_Done in H. destruct H as (instruction & w1 & H1 & H).
    apply lift_Done in H1. destruct H1 as [_ ->].
    apply bind_Done in H. destruct H as (response & w2 & H2 & H).
    apply callModel_Done in H2. destruct H2 as (_ & -> & ->).
    apply lift_Done in H. destruct H as [H ->].
    apply refine_output_name in H. split; [exact H|]. split; [reflexivity | discriminate].
  - intros H. apply ret_Done in H. destruct H as [-> ->].
    rewrite app_nil_r. auto.
Qed.

Lemma each_rerun_Done weakBranches instructions outputs :
  forall w outputs' w',
    M.each (rerun weakBranches instructions) outputs w = Done (outputs', w') ->
    List.map branchName outputs' = List.map branchName outputs
    /\ issued w' = issued w
         ++ List.map refine_request
              (List.map branchName (List.filter (among weakBranches) outputs))
    /\ Forall2 (fun b b' => among weakBranches b = false -> b' = b) outputs outputs'.
Proof.
  induction outputs as [|b outputs IH]; intros w outputs' w'; simpl.
  - intros H. apply ret_Done in H. destruct H as [-> ->].
    rewrite app_nil_r. repeat split. constructor.
  - intros H. apply bind_Done in H. destruct H as (b' & w1 & H1 & H).
    apply bind_Done in H. destruct H as (bs & w2 & H2 & H).
    apply ret_Done in H. destruct H as [-> ->].
    apply rerun_Done in H1. destruct H1 as (Hn1 & Hi1 & Hk1).
    apply IH in H2. destruct H2 as (Hn2 & Hi2 & Hk2).
    split; [simpl; congruence|]. split.
    + rewrite Hi2, Hi1, <- app_assoc. f_equal.
      destruct (among weakBranches b); reflexivity.
    + constructor; assumption.
Qed.

Lemma stageD_Done prompt t outputs sp v b n w recur outputs' w' :
  stageD_AdaptiveRecurrence prompt t outputs sp v b n w
  = Done ((recur, outputs'), w') ->
  recur = Protocol.recurs v b n outputs
  /\ List.map branchName outputs' = List.map branchName outputs
  /\ issued w' = issued w
       ++ (if recur
           then controller_request
                :: List.map refine_request
                     (List.map branchName (Protocol.rerun_set v outputs))
           else [])
  /\ (recur = false -> outputs' = outputs)
  /\ Forall2 (fun b b' => among (List.filter (weak v) outputs) b = false -> b' = b)
             outputs outputs'.
Proof.
  assert (Hsame : Forall2 (fun b b' : BranchOutput =>
                             among (List.filter (weak v) outputs) b = false -> b' = b)
                          outputs outputs).
  { induction outputs as [|o l IH] in |- * at 2 3; constructor; auto. }
  unfold stageD_AdaptiveRecurrence, Protocol.recurs. intros H.
  apply bind_Done in H. destruct H as ([] & w1 & H1 & H).
  apply logSection_Done in H1. subst w1.
  destruct (_ && _).
  { apply ret_Done in H. destruct H as [[= -> ->] ->].
    simpl. rewrite app_nil_r. auto. }
  destruct (Qle_bool _ _).
  { apply ret_Done in H. destruct H as [[= -> ->] ->].
    simpl. rewrite app_nil_r. auto. }
  destruct (_ =? _)%nat.
  { apply ret_Done in H. destruct H as [[= -> ->] ->].
    simpl. rewrite app_nil_r. auto. }
  apply bind_Done in H. destruct H as (instructionResult & w2 & H2 & H).
  apply bind_Done in H. destruct H as (updated & w3 & H3 & H).
  apply ret_Done in H. destruct H as [[= -> ->] ->].
  apply callModel_Done in H2. destruct H2 as (_ & _ & ->).
  apply each_rerun_Done in H3. destruct H3 as (Hn & Hi & Hk).
  split; [reflexivity|]. split; [exact Hn|]. split.
  - rewrite Hi. simpl. rewrite <- app_assoc. reflexivity.
  - split; [discriminate | exact Hk].
Qed.

(** X7. A call of the recurrence controller keeps the collection of
    branch outputs in shape: as many outputs, bearing the same names in
    the same order, and every output that does not bear the name of a weak
    branch is returned as it was. It recurs exactly when the three guards
    let it (uncertainty at or above 0.55 or a weak point reported, depth
    not reached, some branch weak); when it does not, it returns the
    collection itself and issues no request. *)
Theorem recurrence_keeps_the_branches
    (prompt : string) (t : TriStructurePack) (outputs outputs' : list BranchOutput)
    (sp : Scratchpad) (v : VerificationResult) (b : ReasoningBudget) (n : nat)
    (w w' : World) (recur : bool) :
  stageD_AdaptiveRecurrence prompt t outputs sp v b n w
  = Done ((recur, outputs'), w') ->
  List.length outputs' = List.length outputs
  /\ List.map branchName outputs' = List.map branchName outputs
  /\ Forall2 (fun o o' => among (List.filter (weak v) outputs) o = false -> o' = o)
             outputs outputs'
  /\ recur = Protocol.recurs v b n outputs
  /\ (recur = false -> outputs' = outputs /\ issued w' = issued w).
Proof.
  intros H. apply stageD_Done in H. destruct H as (Hr & Hn & Hi & Hs & Hk).
  split; [rewrite <- (length_map branchName outputs'), Hn; apply length_map|].
  split; [exact Hn|]. split; [exact Hk|]. split; [exact Hr|].
  intros E. split; [exact (Hs E)|]. rewrite Hi, E. apply app_nil_r.
Qed.

Lemma confident_verdict_keeps_the_branches :
  exists outputs' w',
    stageD_AdaptiveRecurrence "p" Sample.triPack Scene.two_outputs
      Sample.empty_scratchpad (Scene.verdict 0.2) (Scene.budget ["logic"; "code"]) 0
      Scene.controller_replies
    = Done ((false, outputs'), w')
    /\ List.length outputs' = List.length Scene.two_outputs
    /\ List.map branchName outputs' = List.map branchName Scene.two_outputs
    /\ Forall2 (fun o o' =>
                  among (List.filter (weak (Scene.verdict 0.2)) Scene.two_outputs) o
                  = false -> o' = o)
               Scene.two_outputs outputs'
    /\ false = Protocol.recurs (Scene.verdict 0.2) (Scene.budget ["logic"; "code"]) 0
                 Scene.two_outputs
    /\ (false = false ->
        outputs' = Scene.two_outputs /\ issued w' = issued Scene.controller_replies).
Proof.
  assert (E : exists outputs' w',
             stageD_AdaptiveRecurrence "p" Sample.triPack Scene.two_outputs
               Sample.empty_scratchpad (Scene.verdict 0.2)
               (Scene.budget ["logic"; "code"]) 0 Scene.controller_replies
             = Done ((false, outputs'), w')).
  { eexists _, _. vm_compute. reflexivity. }
  destruct E as (outputs' & w' & E). exists outputs', w'. split; [exact E|].
  exact (recurrence_keeps_the_branches
           "p" Sample.triPack Scene.two_outputs outputs' Sample.empty_scratchpad
           (Scene.verdict 0.2) (Scene.budget ["logic"; "code"]) 0
           Scene.controller_replies w' false E).
Defined.

Lemma name_decides l (x y : BranchOutput) :
  List.NoDup (List.map branchName l) ->
  List.In x l -> List.In y l -> branchName x = branchName y -> x = y.
Proof.
  induction l as [|a l IH]; simpl; [contradiction|].
  intros Hnd Hx Hy E. inversion Hnd as [|n ns Hnot Hrest]. subst.
  destruct Hx as [-> | Hx], Hy as [-> | Hy].
  - reflexivity.
  - exfalso. apply Hnot. rewrite E. apply List.in_map, Hy.
  - exfalso. apply Hnot. rewrite <- E. apply List.in_map, Hx.
  - apply IH; assumption.
Qed.

Lemma among_weak v outputs o :
  List.In o outputs -> weak v o = true ->
  among (List.filter (weak v) outputs) o = true.
Proof.
  intros Hin Hw. unfold among. apply List.existsb_exists. exists o. split.
  - apply List.filter_In. auto.
  - apply String.eqb_refl.
Qed.

Lemma rerun_set_distinct v outputs :
  List.NoDup (List.map branchName outputs) ->
  Protocol.rerun_set v outputs = List.filter (weak v) outputs.
Proof.
  intros Hnd. unfold Protocol.rerun_set. apply List.filter_ext_in.
  intros o Hin. destruct (weak v o) eqn:Hw.
  - apply among_weak; assumption.
  - destruct (among _ o) eqn:Ha; [|reflexivity].
    unfold among in Ha. apply List.existsb_exists in Ha.
    destruct Ha as (wb & Hwb & E). apply List.filter_In in Hwb.
    destruct Hwb as [Hwb Hweak]. apply String.eqb_eq in E.
    assert (wb = o) by (eapply name_decides; eassumption).
    subst wb. congruence.
Qed.

(** X8. When the controller recurs, some branch is weak, and what it
    issues is one request to the controller model followed by one
    refinement request for each output that bears the name of a weak
    branch, in the order of the collection (to the code model for the
    branch "code", to the cheap model for any other). Every weak branch is
    among those run again, and when the names of the collection are
    distinct they are exactly the weak branches. *)
Theorem weak_branches_are_run_again
    (prompt : string) (t : TriStructurePack) (outputs outputs' : list BranchOutput)
    (sp : Scratchpad) (v : VerificationResult) (b : ReasoningBudget) (n : nat)
    (w w' : World) :
  stageD_AdaptiveRecurrence prompt t outputs sp v b n w
  = Done ((true, outputs'), w') ->
  List.filter (weak v) outputs <> []
  /\ issued w' = issued w
       ++ controller_request
          :: List.map refine_request
               (List.map branchName (Protocol.rerun_set v outputs))
  /\ (forall o, List.In o outputs -> weak v o = true ->
                List.In o (Protocol.rerun_set v outputs))
  /\ (List.NoDup (List.map branchName outputs) ->
      Protocol.rerun_set v outputs = List.filter (weak v) outputs).
Proof.
  intros H. apply stageD_Done in H. destruct H as (Hr & _ & Hi & _ & _).
  split.
  - unfold Protocol.recurs in Hr. intros E. rewrite E in Hr. simpl in Hr.
    rewrite andb_false_r in Hr. discriminate.
  - split; [exact Hi|]. split.
    + intros o Hin Hw. apply List.filter_In. split; [exact Hin|].
      apply among_weak; assumption.
    + apply rerun_set_distinct.
Qed.

Lemma doubtful_verdict_runs_code_again :
  exists outputs' w',
    stageD_AdaptiveRecurrence "p" Sample.triPack Scene.two_outputs
      Sample.empty_scratchpad (Scene.verdict 0.9) (Scene.budget ["logic"; "code"]) 0
      Scene.controller_replies
    = Done ((true, outputs'), w')
    /\ List.map notes outputs' = ["n"; "better"]
    /\ List.filter (weak (Scene.verdict 0.9)) Scene.two_outputs <> []
    /\ issued w' = issued Scene.controller_replies
         ++ controller_request
            :: List.map refine_request
                 (List.map branchName
                    (Protocol.rerun_set (Scene.verdict 0.9) Scene.two_outputs))
    /\ (forall o, List.In o Scene.two_outputs -> weak (Scene.verdict 0.9) o = true ->
                  List.In o (Protocol.rerun_set (Scene.verdict 0.9) Scene.two_outputs))
    /\ (List.NoDup (List.map branchName Scene.two_outputs) ->
        Protocol.rerun_set (Scene.verdict 0.9) Scene.two_outputs
        = List.filter (weak (Scene.verdict 0.9)) Scene.two_outputs).
Proof.
  assert (E : exists outputs' w',
             stageD_AdaptiveRecurrence "p" Sample.triPack Scene.two_outputs
               Sample.empty_scratchpad (Scene.verdict 0.9)
               (Scene.budget ["logic"; "code"]) 0 Scene.controller_replies
             = Done ((true, outputs'), w')
             /\ List.map notes outputs' = ["n"; "better"]).
  { eexists _, _. split; [vm_compute; reflexivity | reflexivity]. }
  destruct E as (outputs' & w' & E & Hc). exists outputs', w'.
  split; [exact E|]. split; [exact Hc|].
  exact (weak_branches_are_run_again
           "p" Sample.triPack Scene.two_outputs outputs' Sample.empty_scratchpad
           (Scene.verdict 0.9) (Scene.budget ["logic"; "code"]) 0
           Scene.controller_replies w' E).
Defined.

(** ** The requests of a run *)

Lemma sublist_map_filter {A B} (f : A -> B) (p : A -> bool) l :
  sublist (List.map f (List.filter p l)) (List.map f l).
Proof.
  induction l as [|a l IH]; simpl; [constructor|].
  destruct (p a); simpl; constructor; exact IH.
Qed.

Lemma recurrence_pass_trace prompt st w st' c w' :
  recurrence_pass prompt st w = Done ((st', c), w') ->
  List.map branchName (branchOutputs st') = List.map branchName (branchOutputs st)
  /\ exists names,
       sublist names (List.map branchName (branchOutputs st))
       /\ issued w' = issued w ++ (if c then Protocol.pass names else []).
Proof.
  unfold recurrence_pass. intros H.
  apply bind_Done in H. destruct H as (t & w1 & H1 & H).
  apply of_null_Done in H1. destruct H1 as [_ ->].
  apply bind_Done in H. destruct H as (v & w2 & H2 & H).
  apply of_null_Done in H2. destruct H2 as [_ ->].
  apply bind_Done in H. destruct H as (b & w3 & H3 & H).
  apply of_null_Done in H3. destruct H3 as [_ ->].
  apply bind_Done in H. destruct H as ([recur outputs] & w4 & HD & H).
  apply stageD_Done in HD. destruct HD as (_ & Hn & Hi & _ & _).
  simpl in H. destruct recur.
  - apply bind_Done in H. destruct H as (v' & w5 & HC & H).
    apply ret_Done in H. destruct H as [[= -> ->] ->].
    apply stageC_Done in HC. destruct HC as (_ & HiC & _).
    split; [exact Hn|].
    exists (List.map branchName (Protocol.rerun_set v (branchOutputs st))).
    split; [apply sublist_map_filter|].
    rewrite HiC, Hi. unfold Protocol.pass. rewrite <- app_assoc. reflexivity.
  - apply ret_Done in H. destruct H as [[= -> ->] ->].
    split; [exact Hn|]. exists []. split; [apply sublist_nil_l|].
    rewrite Hi. reflexivity.
Qed.

Lemma recurrence_loop_trace prompt fuel st c w st' w' :
  recurrence_loop fuel prompt st c w = Done (st', w') ->
  tier st' = tier st
  /\ List.map branchName (branchOutputs st') = List.map branchName (branchOutputs st)
  /\ exists passes,
       recurrenceCount st' = (recurrenceCount st + List.length passes)%nat
       /\ Forall (fun names => sublist names (List.map branchName (branchOutputs st)))
                 passes
       /\ issued w' = issued w ++ flat_map Protocol.pass passes.
Proof.
  intros H.
  set (P := fun (s : ARDRState) (w0 : World) =>
    tier s = tier st
    /\ List.map branchName (branchOutputs s) = List.map branchName (branchOutputs st)
    /\ exists passes,
         recurrenceCount s = (recurrenceCount st + List.length passes)%nat
         /\ Forall (fun names => sublist names (List.map branchName (branchOutputs st)))
                   passes
         /\ issued w0 = issued w ++ flat_map Protocol.pass passes).
  change (P st' w').
  eapply (recurrence_loop_ind prompt P); [ | exact H | ]; subst P; simpl.
  - intros s w0 b s' c' w0' (Ht & Hn & passes & Hc & Hsub & Hi) _ _ Hp.
    apply recurrence_pass_Done in Hp as Hp'.
    destruct Hp' as (_ & _ & Ht' & _ & Hc').
    apply recurrence_pass_trace in Hp. destruct Hp as (Hn' & names & Hs & Hi').
    split; [congruence|]. split; [congruence|].
    destruct c'.
    + exists (passes ++ [names]). split; [rewrite length_app; simpl; lia|].
      split.
      * apply Forall_app. split; [exact Hsub|]. constructor; [|constructor].
        rewrite <- Hn. exact Hs.
      * rewrite Hi', Hi, flat_map_app. simpl.
        rewrite app_nil_r, <- app_assoc. reflexivity.
    + exists passes. split; [lia|]. split; [exact Hsub|].
      rewrite Hi', Hi, app_nil_r. reflexivity.
  - split; [reflexivity|]. split; [reflexivity|].
    exists []. split; [simpl; lia|]. split; [constructor|].
    simpl. rewrite app_nil_r. reflexivity.
Qed.

Lemma budget_of_chief tier response b :
  budget_of tier response = Done b -> chiefModel b = tierChief tier.
Proof.
  unfold budget_of. destruct (if_truthy _).
  - intros H. inv_done. subst b. reflexivity.
  - intros [= <-]. reflexivity.
Qed.

Lemma stageFinal_Done prompt st w r w' :
  stageFinal_GrandSynthesis prompt st w = Done (r, w') ->
  exists b,
    budget st = Some b
    /\ openaiClient w = true
    /\ r = settle (Some (chiefModel b)) (answer (replies w (List.length (issued w))))
    /\ issued w' = issued w
         ++ [{| rq_model := Some (chiefModel b);
                rq_system := Some (GrandSynthesizer (tier st));
                rq_maxTokens := synthesis_ceiling (tier st);
                rq_stream := true |}].
Proof.
  unfold stageFinal_GrandSynthesis. intros H.
  apply bind_Done in H. destruct H as ([] & w1 & H1 & H).
  apply logSection_Done in H1. subst w1.
  apply bind_Done in H. destruct H as (b & w1 & H1 & H).
  apply of_null_Done in H1. destruct H1 as [Hb ->].
  apply bind_Done in H. destruct H as (t & w1 & H1 & H).
  apply of_null_Done in H1. destruct H1 as [_ ->].
  apply bind_Done in H. destruct H as (v & w1 & H1 & H).
  apply of_null_Done in H1. destruct H1 as [_ ->].
  exists b. split; [exact Hb|].
  destruct (openaiClient w) eqn:C.
  - rewrite callModelStreaming_initialized in H by exact C.
    injection H as <- <-. auto.
  - rewrite callModelStreaming_uninitialized in H by exact C. discriminate.
Qed.

Lemma runARDR_state_trace fuel prompt tier w r st w' :
  runARDR_state fuel prompt tier w = Done ((r, st), w') ->
  exists b,
    budget st = Some b
    /\ chiefModel b = tierChief tier
    /\ ((Run.fast b = true
         /\ recurrenceCount st = 0%nat
         /\ issued w' = issued w ++ Protocol.fast tier
         /\ r = response_to w (tierChief tier) (S (List.length (issued w))))
        \/ (Run.fast b = false
            /\ List.map branchName (branchOutputs st) = Protocol.configured (branches b)
            /\ finalResponse st = r
            /\ exists passes,
                 List.length passes = recurrenceCount st
                 /\ Forall (fun names =>
                              sublist names (Protocol.configured (branches b))) passes
                 /\ issued w' = issued w
                      ++ Protocol.full tier (branches b) passes
                 /\ r = response_to w (tierChief tier)
                          (Nat.pred (List.length (issued w'))))).
Proof.
  intros H. apply runARDR_state_Done in H.
  destruct H as (b & w1 & H0 & H). exists b.
  apply stage0_Done in H0. destruct H0 as (C & Hb & ->).
  apply budget_of_chief in Hb as Hchief.
  destruct H as [(Hfast & -> & Hc) | (Hfast & H)].
  - split; [reflexivity|]. split; [exact Hchief|]. left.
    split; [exact Hfast|]. split; [reflexivity|].
    unfold handleConversation in Hc.
    rewrite callModelStreaming_initialized in Hc by exact C.
    injection Hc as <- <-. split.
    + simpl. rewrite <- app_assoc. reflexivity.
    + unfold response_to, next_reply. simpl. rewrite length_app, Nat.add_1_r.
      reflexivity.
  - destruct H as (t & w2 & outputs & sp & w3 & v & w4 & st5 & w5
                   & HA & HB & HC & HL & HF & ->).
    assert (Hext : extends w w5).
    { eapply extends_trans; [|eapply frames_recurrence_loop, HL].
      eapply extends_trans; [|eapply frames_stageC, HC].
      eapply extends_trans; [|eapply frames_stageB, HB].
      eapply extends_trans; [|eapply frames_stageA, HA].
      eapply extends_trans; [apply extends_section | apply extends_request]. }
    apply stageA_Done in HA. destruct HA as (_ & HiA).
    apply stageB_Done in HB. destruct HB as (HnB & HiB).
    apply stageC_Done in HC. destruct HC as (_ & HiC & _).
    apply recurrence_loop_count in HL as HL'. destruct HL' as (Hbud & _).
    apply recurrence_loop_trace in HL.
    destruct HL as (Ht & Hn & passes & Hcount & Hsub & HiL).
    apply stageFinal_Done in HF. destruct HF as (b' & Hb' & _ & Hr & HiF).
    simpl in Hbud, Ht, Hn, Hcount, Hsub.
    rewrite Hbud in Hb'. injection Hb' as <-.
    split; [simpl; exact Hbud|]. split; [exact Hchief|]. right.
    split; [exact Hfast|]. split; [simpl; congruence|]. split; [reflexivity|].
    exists passes. split; [simpl; lia|]. split; [rewrite <- HnB; exact Hsub|].
    assert (Hi : issued w' = issued w ++ Protocol.full tier (branches b) passes).
    { rewrite HiF, HiL, HiC, HiB, HiA, Ht, Hchief. simpl.
      unfold Protocol.full, synthesis_request. rewrite <- !app_assoc. reflexivity. }
    split; [exact Hi|].
    destruct Hext as (_ & Hreplies & _).
    rewrite Hr, Hchief, Hreplies. unfold response_to. do 3 f_equal.
    rewrite HiF, length_app. simpl. lia.
Qed.

(** X9. The requests of a completed run follow one protocol. On the fast
    path: the profiler, then the conversation. Otherwise: the profiler,
    the three decomposition requests, one request per branch asked for
    that has a profile, the two verification requests, then for each
    recurrence pass the controller, a refinement request for some of the
    branches (in their order) and the two verification requests again, and
    at last the synthesis request, to the chief model of the tier. There
    are as many passes as the recurrence count says, and the names of the
    branch outputs are at the end those of the branches first run. *)
Theorem run_follows_the_protocol
    (fuel : nat) (prompt : string) (tier : NexusTier) (w w' : World)
    (r : string) (st : ARDRState) :
  runARDR_state fuel prompt tier w = Done ((r, st), w') ->
  exists b,
    budget st = Some b
    /\ ((Run.fast b = true
         /\ recurrenceCount st = 0%nat
         /\ issued w' = issued w ++ Protocol.fast tier)
        \/ (Run.fast b = false
            /\ List.map branchName (branchOutputs st) = Protocol.configured (branches b)
            /\ exists passes,
                 List.length passes = recurrenceCount st
                 /\ Forall (fun names =>
                              sublist names (Protocol.configured (branches b))) passes
                 /\ issued w' = issued w ++ Protocol.full tier (branches b) passes)).
Proof.
  intros H. apply runARDR_state_trace in H.
  destruct H as (b & Hb & _ & [(Hf & Hc & Hi & _) | (Hf & Hn & _ & passes & Hl & Hs & Hi & _)]);
    exists b; (split; [exact Hb|]).
  - left. auto.
  - right. split; [exact Hf|]. split; [exact Hn|]. exists passes. auto.
Qed.

Lemma refined_run_follows_the_protocol :
  exists r st w',
    runARDR_state 5 "p" high Sample.refined = Done ((r, st), w')
    /\ recurrenceCount st = 1%nat
    /\ List.map rq_system (issued w')
       = List.map Some
           [TaskProfiler; SymbolicAbstractor; InvariantReducer; Formalizer;
            Branch "logic"; Branch "code";
            CounterexampleGenerator; ConsistencyScorer;
            ReasoningController; Refine "code";
            CounterexampleGenerator; ConsistencyScorer;
            GrandSynthesizer high]
    /\ exists b,
         budget st = Some b
         /\ ((Run.fast b = true
              /\ recurrenceCount st = 0%nat
              /\ issued w' = issued Sample.refined ++ Protocol.fast high)
             \/ (Run.fast b = false
                 /\ List.map branchName (branchOutputs st)
                    = Protocol.configured (branches b)
                 /\ exists passes,
                      List.length passes = recurrenceCount st
                      /\ Forall (fun names =>
                                   sublist names (Protocol.configured (branches b)))
                                passes
                      /\ issued w' = issued Sample.refined
                           ++ Protocol.full high (branches b) passes)).
Proof.
  assert (E : exists r st w',
             runARDR_state 5 "p" high Sample.refined = Done ((r, st), w')
             /\ recurrenceCount st = 1%nat
             /\ List.map rq_system (issued w')
                = List.map Some
                    [TaskProfiler; SymbolicAbstractor; InvariantReducer; Formalizer;
                     Branch "logic"; Branch "code";
                     CounterexampleGenerator; ConsistencyScorer;
                     ReasoningController; Refine "code";
                     CounterexampleGenerator; ConsistencyScorer;
                     GrandSynthesizer high]).
  { eexists _, _, _. split; [vm_compute; reflexivity|]. split; reflexivity. }
  destruct E as (r & st & w' & E & Hc & Hsys). exists r, st, w'.
  split; [exact E|]. split; [exact Hc|]. split; [exact Hsys|].
  exact (run_follows_the_protocol 5 "p" high Sample.refined w' r st E).
Defined.

Lemma budget_of_ceiling tier response b :
  budget_of tier response = Done b -> allowedDepth b <= tierCeiling tier.
Proof.
  intros H. apply budget_of_depth in H. destruct (Proposal.depth response).
  - rewrite H. apply Math_min_le_r.
  - destruct H as [-> | ->]; [apply Math_min_le_r | apply Qle_refl].
Qed.

Lemma tierCeiling_passes tier :
  tierCeiling tier = inject_Z (Z.of_nat (tier_passes tier)).
Proof. destruct tier; reflexivity. Qed.

Lemma run_count_bound fuel prompt tier w r st w' :
  runARDR_state fuel prompt tier w = Done ((r, st), w') ->
  (recurrenceCount st <= tier_passes tier)%nat.
Proof.
  intros H. apply runARDR_state_Done in H.
  destruct H as (b & w1 & H0 & [(_ & -> & _) | (_ & H)]).
  - simpl. lia.
  - destruct H as (t & w2 & outputs & sp & w3 & v & w4 & st5 & w5
                   & _ & _ & _ & HL & _ & ->).
    apply stage0_Done in H0. destruct H0 as (_ & H0 & _).
    apply budget_of_ceiling in H0. rewrite tierCeiling_passes in H0.
    apply recurrence_loop_count in HL.
    destruct HL as (_ & _ & _ & [E | (b1 & [= <-] & Hlt)]); simpl in *.
    + lia.
    + unfold Loop.count in Hlt.
      assert (Hlt' : inject_Z (Z.of_nat (recurrenceCount st5))
                     < inject_Z (Z.of_nat (tier_passes tier) + 1)).
      { rewrite inject_Z_plus. eapply Qlt_le_trans; [exact Hlt|].
        apply Qplus_le_l. exact H0. }
      rewrite <- Zlt_Qlt in Hlt'. lia.
Qed.

Lemma pass_length names : List.length (Protocol.pass names) = (3 + List.length names)%nat.
Proof.
  unfold Protocol.pass. simpl. rewrite length_app, length_map. simpl. lia.
Qed.

Lemma passes_length k passes :
  Forall (fun names : list string => (List.length names <= k)%nat) passes ->
  (List.length (flat_map Protocol.pass passes) <= List.length passes * (3 + k))%nat.
Proof.
  induction 1 as [|names passes Hn _ IH]; [simpl; lia|].
  change (flat_map Protocol.pass (names :: passes))
    with (Protocol.pass names ++ flat_map Protocol.pass passes).
  rewrite length_app, pass_length. simpl. lia.
Qed.

Lemma configured_length names :
  (List.length (Protocol.configured names) <= List.length names)%nat.
Proof. apply List.filter_length_le. Qed.

(** X10. The cost of a run. A completed run makes at most as many
    recurrence passes as the ceiling of its tier (low 1, high 2, max 3),
    and issues at most 7 + k + passes * (3 + k) requests, where k is the
    number of branches the profiler asked for: 2 on the fast path, and
    never more than 10 + 2k on the low tier, 13 + 3k on the high tier and
    16 + 4k on the max tier. *)
Theorem requests_of_a_run_are_bounded
    (fuel : nat) (prompt : string) (tier : NexusTier) (w w' : World)
    (r : string) (st : ARDRState) :
  runARDR_state fuel prompt tier w = Done ((r, st), w') ->
  exists b k,
    budget st = Some b
    /\ k = List.length (branches b)
    /\ (recurrenceCount st <= tier_passes tier)%nat
    /\ (List.length (issued w')
        <= List.length (issued w) + 7 + k + recurrenceCount st * (3 + k))%nat
    /\ (List.length (issued w')
        <= List.length (issued w) + 7 + k + tier_passes tier * (3 + k))%nat.
Proof.
  intros H. pose proof (run_count_bound _ _ _ _ _ _ _ H) as Hc.
  apply runARDR_state_trace in H.
  destruct H as (b & Hb & _ & H). exists b, (List.length (branches b)).
  split; [exact Hb|]. split; [reflexivity|]. split; [exact Hc|].
  assert (Hlen : (List.length (issued w')
                  <= List.length (issued w) + 7 + List.length (branches b)
                     + recurrenceCount st * (3 + List.length (branches b)))%nat).
  { destruct H as [(_ & _ & -> & _) | (_ & _ & _ & passes & Hl & Hs & -> & _)].
    - rewrite length_app. simpl. lia.
    - rewrite length_app. unfold Protocol.full. simpl.
      rewrite !length_app, branch_calls_length. simpl.
      rewrite ?length_app. simpl.
      pose proof (configured_length (branches b)) as Hk.
      assert (Hp : (List.length (flat_map Protocol.pass passes)
                    <= List.length passes * (3 + List.length (branches b)))%nat).
      { apply passes_length. eapply List.Forall_impl; [|exact Hs].
        intros names Hsub. apply sublist_length in Hsub. simpl in Hsub. lia. }
      rewrite Hl in Hp. lia. }
  split; [exact Hlen|].
  assert (Hmul : (recurrenceCount st * (3 + List.length (branches b))
                  <= tier_passes tier * (3 + List.length (branches b)))%nat)
    by (apply Nat.mul_le_mono_r; exact Hc).
  lia.
Qed.

Lemma refined_run_is_within_bounds :
  exists r st w',
    runARDR_state 5 "p" high Sample.refined = Done ((r, st), w')
    /\ List.length (issued w') = 13%nat
    /\ exists b k,
         budget st = Some b
         /\ k = List.length (branches b)
         /\ (recurrenceCount st <= tier_passes high)%nat
         /\ (List.length (issued w')
             <= List.length (issued Sample.refined) + 7 + k
                + recurrenceCount st * (3 + k))%nat
         /\ (List.length (issued w')
             <= List.length (issued Sample.refined) + 7 + k
                + tier_passes high * (3 + k))%nat.
Proof.
  assert (E : exists r st w',
             runARDR_state 5 "p" high Sample.refined = Done ((r, st), w')
             /\ List.length (issued w') = 13%nat).
  { eexists _, _, _. split; [vm_compute; reflexivity | reflexivity]. }
  destruct E as (r & st & w' & E & Hn). exists r, st, w'.
  split; [exact E|]. split; [exact Hn|].
  exact (requests_of_a_run_are_bounded 5 "p" high Sample.refined w' r st E).
Defined.





(** ** Exceptions *)

Lemma bind_Throw {A B} (c : M A) (k : A -> M B) w m :
  M.bind c k w = Throw m <->
  c w = Throw m \/ exists a w1, c w = Done (a, w1) /\ k a w1 = Throw m.
Proof.
  unfold M.bind. split.
  - destruct (c w) as [[a w1]| | |]; try discriminate.
    + intros H. right. exists a, w1. auto.
    + intros [= ->]. left. reflexivity.
  - intros [-> | (a & w1 & -> & H)]; [reflexivity | exact H].
Qed.

Lemma lift_Throw {A} (o : Outcome A) w m : M.lift o w = Throw m <-> o = Throw m.
Proof.
  unfold M.lift, Outcome.map, Outcome.bind. split.
  - destruct o; try discriminate. intros [= ->]. reflexivity.
  - intros ->. reflexivity.
Qed.

Lemma obind_mild {A B} (o : Outcome A) (k : A -> Outcome B) :
  mild o -> (forall a, mild (k a)) -> mild (Outcome.bind o k).
Proof.
  intros Ho Hk m. destruct o; simpl; try discriminate; [apply Hk|].
  exfalso. apply (Ho message). reflexivity.
Qed.

Lemma omap_mild {A B} (f : A -> B) (o : Outcome A) : mild o -> mild (Outcome.map f o).
Proof. intros H. apply obind_mild; [exact H | discriminate]. Qed.

Lemma oall_mild {A B} (f : A -> Outcome B) l :
  (forall a, mild (f a)) -> mild (Outcome.all (List.map f l)).
Proof.
  intros Hf. induction l as [|a l IH]; simpl; [discriminate|].
  apply obind_mild; [apply Hf|]. intros b. apply omap_mild, IH.
Qed.

Ltac mild_step :=
  match goal with
  | |- mild (Outcome.bind _ _) => apply obind_mild; [|intros]
  | |- mild (Outcome.map _ _) => apply omap_mild
  | |- mild (Outcome.all (List.map _ _)) => apply oall_mild; intros
  | |- mild (if ?b then _ else _) => destruct b
  | |- mild (match ?x with _ => _ end) => destruct x
  | |- mild _ => solve [discriminate | eauto with mild]
  end.

Ltac mild_tac := repeat mild_step.

Create HintDb mild.

Lemma number_mild x d : mild (Read.number x d).
Proof. unfold Read.number. mild_tac. Qed.

Lemma text_mild x d : mild (Read.text x d).
Proof. unfold Read.text. mild_tac. Qed.

Lemma as_text_mild v : mild (Read.as_text v).
Proof. unfold Read.as_text. mild_tac. Qed.

Lemma as_entry_mild kv : mild (Read.as_entry kv).
Proof. unfold Read.as_entry. mild_tac. Qed.

#[local] Hint Resolve number_mild text_mild as_text_mild as_entry_mild : mild.

Lemma texts_mild x d : mild (Read.texts x d).
Proof. unfold Read.texts. mild_tac. Qed.

Lemma entries_mild x : mild (Read.entries x).
Proof. unfold Read.entries. mild_tac. Qed.

#[local] Hint Resolve texts_mild entries_mild : mild.

Lemma budget_of_mild tier response : mild (budget_of tier response).
Proof. unfold budget_of. mild_tac. Qed.

Lemma branch_output_mild name response : mild (branch_output name response).
Proof. unfold branch_output. mild_tac. Qed.

Lemma finish_branch_mild started : mild (finish_branch started).
Proof. unfold finish_branch. mild_tac. apply branch_output_mild. Qed.

Lemma counterexamples_of_mild response : mild (counterexamples_of response).
Proof. unfold counterexamples_of. mild_tac. Qed.

Lemma scores_of_mild cs : mild (scores_of cs).
Proof. unfold scores_of. mild_tac. Qed.

#[local] Hint Resolve scores_of_mild : mild.

Lemma consistency_of_mild response cs ces avg :
  mild (consistency_of response cs ces avg).
Proof. unfold consistency_of. mild_tac. Qed.

Lemma refine_output_mild b response : mild (refine_output b response).
Proof. unfold refine_output. mild_tac. Qed.

#[local] Hint Resolve budget_of_mild branch_output_mild finish_branch_mild
  counterexamples_of_mild consistency_of_mild refine_output_mild : mild.

Lemma instruction_for_Throw instructions name m :
  instruction_for instructions name = Throw m ->
  m = lookup_error /\ Js.is_inherited name = true.
Proof.
  unfold instruction_for. destruct instructions; try discriminate.
  destruct (Js.own name fields) as [v|].
  - intros H. exfalso. exact (text_mild _ _ _ H).
  - destruct (Js.is_inherited name); [|discriminate].
    intros [= <-]. auto.
Qed.

Lemma calm_ret {A} (a : A) : calm (M.ret a).
Proof. intros w m _. discriminate. Qed.

Lemma calm_bind {A B} (c : M A) (k : A -> M B) :
  frames c -> calm c -> (forall a, calm (k a)) -> calm (M.bind c k).
Proof.
  intros Hf Hc Hk w m C H. apply bind_Throw in H.
  destruct H as [H | (a & w1 & H1 & H)].
  - exact (Hc w m C H).
  - apply Hf in H1. destruct H1 as (C1 & _).
    apply (Hk a w1 m); [congruence | exact H].
Qed.

Lemma calm_lift {A} (o : Outcome A) : mild o -> calm (M.lift o).
Proof. intros H w m _ E. apply lift_Throw in E. exact (H m E). Qed.

Lemma calm_each {A B} (f : A -> M B) l :
  (forall a, frames (f a)) -> (forall a, calm (f a)) -> calm (M.each f l).
Proof.
  intros Hf Hc. induction l as [|a l IH]; simpl.
  - apply calm_ret.
  - apply calm_bind; [apply Hf | apply Hc|]. intros b.
    apply calm_bind; [apply frames_each, Hf | exact IH|].
    intros bs. apply calm_ret.
Qed.

Lemma calm_getOpenAI : calm getOpenAI.
Proof. intros w m C. unfold getOpenAI. rewrite C. discriminate. Qed.

Lemma calm_create rq : calm (create rq).
Proof. intros w m _. discriminate. Qed.

Lemma calm_logSection title : calm (logSection title).
Proof. intros w m _. discriminate. Qed.

Lemma calm_Date_now : calm Date_now.
Proof. intros w m _. discriminate. Qed.

Lemma calm_callModel_timed m sys k : calm (callModel_timed m sys k).
Proof.
  intros w msg C. unfold callModel_timed, M.bind, getOpenAI. rewrite C. discriminate.
Qed.

Lemma calm_callModel m sys k : calm (callModel m sys k).
Proof. intros w msg C. rewrite callModel_initialized by exact C. discriminate. Qed.

Lemma calm_callModelStreaming m sys k : calm (callModelStreaming m sys k).
Proof. intros w msg C. rewrite callModelStreaming_initialized by exact C. discriminate. Qed.

Create HintDb calm.
#[local] Hint Resolve calm_ret calm_getOpenAI calm_create calm_logSection
  calm_Date_now calm_callModel_timed calm_callModel calm_callModelStreaming : calm.

Ltac calm_step :=
  match goal with
  | |- calm (M.bind _ _) => apply calm_bind; [solve [frames_tac] | |intros]
  | |- calm (M.lift _) => apply calm_lift; solve [mild_tac]
  | |- calm (if ?b then _ else _) => destruct b
  | |- calm (match ?x with _ => _ end) => destruct x
  | |- calm _ => solve [eauto with calm]
  end.

Ltac calm_tac := repeat calm_step.

Lemma calm_stage0 prompt tier : calm (stage0_TaskProfiler prompt tier).
Proof. unfold stage0_TaskProfiler. calm_tac. Qed.

Lemma calm_stageA prompt b : calm (stageA_StructuredDecomposition prompt b).
Proof. unfold stageA_StructuredDecomposition. calm_tac. Qed.

Lemma calm_push_hypotheses b hs sp : calm (push_hypotheses b hs sp).
Proof.
  revert sp. induction hs as [|h hs IH]; intros sp; simpl.
  - apply calm_ret.
  - apply calm_bind; [apply frames_push_now | unfold push_now; calm_tac
                     | intros; apply IH].
Qed.

Lemma calm_record_outputs sp outputs : calm (record_outputs sp outputs).
Proof.
  revert sp. induction outputs as [|o outputs IH]; intros sp; simpl.
  - apply calm_ret.
  - apply calm_bind; [apply frames_record_output | | intros; apply IH].
    unfold record_output.
    apply calm_bind; [apply frames_push_now | unfold push_now; calm_tac|].
    intros. apply calm_push_hypotheses.
Qed.

Lemma calm_start_branch name : calm (start_branch name).
Proof. unfold start_branch. calm_tac. Qed.

#[local] Hint Resolve calm_record_outputs calm_start_branch : calm.

Lemma calm_stageB prompt t b sp : calm (stageB_DendriticBranches prompt t b sp).
Proof.
  unfold stageB_DendriticBranches.
  apply calm_bind; [apply frames_logSection | apply calm_logSection|]. intros _.
  apply calm_bind;
    [apply frames_each; intros; apply frames_start_branch
    | apply calm_each; intros; [apply frames_start_branch | apply calm_start_branch]|].
  intros started. calm_tac.
Qed.

Lemma calm_stageC prompt t outputs sp : calm (stageC_Verification prompt t outputs sp).
Proof. unfold stageC_Verification. calm_tac. Qed.

Lemma calm_handleConversation prompt tier : calm (handleConversation prompt tier).
Proof. unfold handleConversation. calm_tac. Qed.

Lemma calm_stageFinal prompt st :
  filled st -> calm (stageFinal_GrandSynthesis prompt st).
Proof.
  intros (Hb & Ht & Hv). unfold stageFinal_GrandSynthesis.
  destruct (budget st); [|contradiction].
  destruct (triPack st); [|contradiction].
  destruct (verification st); [|contradiction].
  simpl. calm_tac.
Qed.

Lemma rerun_Throw weakBranches instructions b w m :
  openaiClient w = true ->
  rerun weakBranches instructions b w = Throw m ->
  m = lookup_error /\ Js.is_inherited (branchName b) = true.
Proof.
  intros C. unfold rerun. destruct (among weakBranches b); [|discriminate].
  intros H. apply bind_Throw in H. destruct H as [H | (i & w1 & H1 & H)].
  - apply lift_Throw in H. apply instruction_for_Throw in H. exact H.
  - exfalso. apply lift_Done in H1. destruct H1 as [_ ->]. revert H.
    apply calm_bind; [apply frames_callModel | apply calm_callModel | | exact C].
    intros response. apply calm_lift, refine_output_mild.
Qed.

Lemma each_rerun_Throw weakBranches instructions outputs :
  forall w m,
    openaiClient w = true ->
    M.each (rerun weakBranches instructions) outputs w = Throw m ->
    m = lookup_error /\ inherited_name (List.map branchName outputs).
Proof.
  induction outputs as [|b outputs IH]; intros w m C; simpl; [discriminate|].
  intros H. apply bind_Throw in H. destruct H as [H | (b' & w1 & H1 & H)].
  - apply rerun_Throw in H; [|exact C]. destruct H as [-> Hin].
    split; [reflexivity|]. exists (branchName b). simpl. auto.
  - apply frames_rerun in H1. destruct H1 as (C1 & _).
    apply bind_Throw in H. destruct H as [H | (bs & w2 & _ & H)]; [|discriminate].
    apply IH in H; [|congruence]. destruct H as [-> (name & Hin & Hname)].
    split; [reflexivity|]. exists name. simpl. auto.
Qed.

Lemma stageD_Throw prompt t outputs sp v b n w m :
  openaiClient w = true ->
  stageD_AdaptiveRecurrence prompt t outputs sp v b n w = Throw m ->
  m = lookup_error /\ inherited_name (List.map branchName outputs).
Proof.
  intros C. unfold stageD_AdaptiveRecurrence. intros H.
  apply bind_Throw in H. destruct H as [H | ([] & w1 & H1 & H)]; [discriminate|].
  apply logSection_Done in H1. subst w1.
  destruct (_ && _); [discriminate|].
  destruct (Qle_bool _ _); [discriminate|].
  destruct (_ =? _)%nat; [discriminate|].
  apply bind_Throw in H. destruct H as [H | (response & w2 & H2 & H)].
  - exfalso. revert H. apply calm_callModel. exact C.
  - apply frames_callModel in H2. destruct H2 as (C2 & _).
    apply bind_Throw in H. destruct H as [H | (bs & w3 & _ & H)]; [|discriminate].
    eapply each_rerun_Throw; [|exact H]. simpl in C2. congruence.
Qed.

Lemma recurrence_pass_filled prompt st w st' c w' :
  recurrence_pass prompt st w = Done ((st', c), w') -> filled st'.
Proof.
  intros H. apply recurrence_pass_Done in H as H'.
  destruct H' as (Hb & Ht & _). unfold recurrence_pass in H.
  apply bind_Done in H. destruct H as (t & w1 & H1 & H).
  apply of_null_Done in H1. destruct H1 as [Ht0 ->].
  apply bind_Done in H. destruct H as (v & w2 & H2 & H).
  apply of_null_Done in H2. destruct H2 as [Hv0 ->].
  apply bind_Done in H. destruct H as (b & w3 & H3 & H).
  apply of_null_Done in H3. destruct H3 as [Hb0 ->].
  apply bind_Done in H. destruct H as ([recur outputs] & w4 & _ & H).
  unfold filled. rewrite Hb, Ht, Hb0, Ht0.
  split; [discriminate|]. split; [discriminate|].
  simpl in H. destruct recur.
  - apply bind_Done in H. destruct H as (v' & w5 & _ & H).
    apply ret_Done in H. destruct H as [[= -> ->] _]. discriminate.
  - apply ret_Done in H. destruct H as [[= -> ->] _]. simpl. rewrite Hv0. discriminate.
Qed.

Lemma recurrence_pass_Throw prompt st w m :
  openaiClient w = true -> filled st ->
  recurrence_pass prompt st w = Throw m ->
  m = lookup_error /\ inherited_name (List.map branchName (branchOutputs st)).
Proof.
  intros C (Hb & Ht & Hv). unfold recurrence_pass.
  destruct (budget st) as [b|]; [|contradiction].
  destruct (triPack st) as [t|]; [|contradiction].
  destruct (verification st) as [v|]; [|contradiction].
  simpl. unfold M.bind at 1 2 3. simpl. intros H.
  apply bind_Throw in H. destruct H as [H | ([recur outputs] & w1 & H1 & H)].
  - eapply stageD_Throw; eassumption.
  - exfalso. apply frames_stageD in H1. destruct H1 as (C1 & _).
    simpl in H. destruct recur; [|discriminate]. revert H.
    apply calm_bind; [apply frames_stageC | apply calm_stageC | | congruence].
    intros v'. apply calm_ret.
Qed.

Lemma recurrence_loop_filled prompt fuel st c w st' w' :
  recurrence_loop fuel prompt st c w = Done (st', w') -> filled st -> filled st'.
Proof.
  intros H Hst.
  set (P := fun (s : ARDRState) (_ : World) => filled s).
  change (P st' w').
  eapply (recurrence_loop_ind prompt P); [ | exact H | exact Hst ].
  subst P. simpl. intros s w0 b s' c' w0' _ _ _ Hp.
  eapply recurrence_pass_filled, Hp.
Qed.

Lemma recurrence_loop_Throw prompt fuel :
  forall st c w m,
    openaiClient w = true -> filled st ->
    recurrence_loop fuel prompt st c w = Throw m ->
    m = lookup_error /\ inherited_name (List.map branchName (branchOutputs st)).
Proof.
  induction fuel as [|fuel IH]; intros st c w m C Hst; simpl; [discriminate|].
  destruct c; [|discriminate].
  destruct Hst as (Hb & Ht & Hv).
  destruct (budget st) as [b|] eqn:Eb; [|contradiction].
  unfold M.bind at 1. simpl.
  destruct (below_depth b st); [|discriminate].
  intros H. apply bind_Throw in H. destruct H as [H | ([st1 c1] & w1 & H1 & H)].
  - apply recurrence_pass_Throw in H; [exact H | exact C|].
    unfold filled. rewrite Eb. auto.
  - apply recurrence_pass_filled in H1 as Hfilled.
    pose proof (recurrence_pass_trace _ _ _ _ _ _ H1) as (Hn & _).
    apply frames_recurrence_pass in H1. destruct H1 as (C1 & _).
    simpl in H. apply IH in H; [|congruence | exact Hfilled].
    rewrite <- Hn. exact H.
Qed.

Lemma configured_incl names name :
  List.In name (Protocol.configured names) -> List.In name names.
Proof. unfold Protocol.configured. intros H. apply List.filter_In in H. tauto. Qed.

Lemma runARDR_state_Throw fuel prompt tier w m :
  openaiClient w = true ->
  runARDR_state fuel prompt tier w = Throw m ->
  m = lookup_error
  /\ exists b w1,
       stage0_TaskProfiler prompt tier w = Done (b, w1)
       /\ inherited_name (branches b).
Proof.
  intros C. unfold runARDR_state. intros H.
  apply bind_Throw in H. destruct H as [H | (b & w1 & H0 & H)].
  { exfalso. exact (calm_stage0 prompt tier w m C H). }
  pose proof (frames_stage0 _ _ _ _ _ H0) as (C1 & _). rewrite C in C1.
  destruct (_ || _).
  { exfalso. revert H.
    apply calm_bind; [apply frames_handleConversation
                     | apply calm_handleConversation | | exact C1].
    intros r. apply calm_ret. }
  apply bind_Throw in H. destruct H as [H | (t & w2 & HA & H)].
  { exfalso. exact (calm_stageA prompt b w1 m C1 H). }
  apply frames_stageA in HA as (C2 & _). rewrite C1 in C2.
  apply bind_Throw in H. destruct H as [H | ([outputs sp] & w3 & HB & H)].
  { exfalso. exact (calm_stageB prompt t b _ w2 m C2 H). }
  pose proof (frames_stageB _ _ _ _ _ _ _ HB) as (C3 & _). rewrite C2 in C3.
  apply stageB_Done in HB. destruct HB as (Hn & _).
  apply bind_Throw in H. destruct H as [H | (v & w4 & HC & H)].
  { exfalso. exact (calm_stageC prompt t _ _ w3 m C3 H). }
  apply frames_stageC in HC as (C4 & _). rewrite C3 in C4.
  assert (Hentry : filled (Run.entry prompt tier b t outputs sp v)).
  { repeat split; discriminate. }
  apply bind_Throw in H. destruct H as [H | (st5 & w5 & HL & H)].
  - apply recurrence_loop_Throw in H; [|exact C4 | exact Hentry].
    destruct H as [-> (name & Hin & Hname)]. split; [reflexivity|].
    exists b, w1. split; [exact H0|]. exists name. split; [|exact Hname].
    simpl in Hin. rewrite Hn in Hin. exact (configured_incl _ _ Hin).
  - exfalso. pose proof (recurrence_loop_filled _ _ _ _ _ _ _ HL Hentry) as Hfilled.
    apply frames_recurrence_loop in HL as (C5 & _). rewrite C4 in C5.
    revert H.
    apply calm_bind; [apply frames_stageFinal
                     | apply calm_stageFinal, Hfilled | | exact C5].
    intros r. apply calm_ret.
Qed.

(** X12. Once the client is initialized, the only exception a run can end
    in is the [TypeError] of the instruction lookup of the recurrence
    controller, and only when the profiler asked for a branch under a name
    that every object inherits (such as "constructor"): a run never reads
    the budget, the tri-pack or the verification result while they are
    still null, and no failure of the provider surfaces as an exception. *)
Theorem only_the_instruction_lookup_throws
    (fuel : nat) (prompt : string) (tier : NexusTier) (w : World) (m : string) :
  openaiClient w = true ->
  runARDR fuel prompt tier w = Throw m ->
  m = lookup_error
  /\ exists b w1,
       stage0_TaskProfiler prompt tier w = Done (b, w1)
       /\ inherited_name (branches b).
Proof.
  intros C H. unfold runARDR in H. apply bind_Throw in H.
  destruct H as [H | (r & w1 & _ & H)]; [|discriminate].
  eapply runARDR_state_Throw; eassumption.
Qed.

Lemma inherited_branch_name_throws :
  runARDR 5 "p" high Scene.inherited_branch = Throw lookup_error
  /\ lookup_error = lookup_error
  /\ exists b w1,
       stage0_TaskProfiler "p" high Scene.inherited_branch = Done (b, w1)
       /\ inherited_name (branches b).
Proof.
  assert (E : runARDR 5 "p" high Scene.inherited_branch = Throw lookup_error)
    by (vm_compute; reflexivity).
  split; [exact E|].
  exact (only_the_instruction_lookup_throws
           5 "p" high Scene.inherited_branch lookup_error eq_refl E).
Defined.

(** ** What the scratchpad holds *)

Lemma stamped_types clock order :
  forall k,
    Forall (fun e => type e = note \/ type e = hypothesis)
           (Log.stamped clock k (flat_map Log.pass_entries order)).
Proof.
  induction order as [|o order IH]; intros k; simpl; [constructor|].
  constructor; [left; reflexivity|].
  rewrite stamped_app. apply Forall_app. split; [|apply IH].
  generalize (S k). induction (hypotheses o) as [|h hs IHh]; intros n; simpl;
    constructor; [right; reflexivity | apply IHh].
Qed.

Lemma stamped_notes clock order :
  forall k,
    List.map branch
      (List.filter is_note (Log.stamped clock k (flat_map Log.pass_entries order)))
    = List.map branchName order.
Proof.
  induction order as [|o order IH]; intros k; simpl; [reflexivity|].
  rewrite stamped_app, List.filter_app, map_app, IH.
  assert (E : forall n hs,
             List.filter is_note
               (Log.stamped clock n
                  (List.map (fun h => (branchName o, hypothesis, h)) hs)) = []).
  { intros n hs. revert n. induction hs as [|h hs IHh]; intros n; simpl; auto. }
  rewrite E. reflexivity.
Qed.

(** X5. The scratchpad of a completed run holds notes and hypotheses
    only -- no entry of type "artifact" or "contradiction" is ever
    written, and the map of shared artifacts stays empty -- and it holds
    exactly one note for each branch output of the run, under the name of
    the branch. *)
Theorem scratchpad_has_one_note_per_branch
    (fuel : nat) (prompt : string) (tier : NexusTier) (w w' : World)
    (r : string) (st : ARDRState) :
  runARDR_state fuel prompt tier w = Done ((r, st), w') ->
  Forall (fun e => type e = note \/ type e = hypothesis) (entries (scratchpad st))
  /\ sharedArtifacts (scratchpad st) = ∅
  /\ Permutation (List.map branch (List.filter is_note (entries (scratchpad st))))
                 (List.map branchName (branchOutputs st)).
Proof.
  intros H. apply runARDR_state_Done in H.
  destruct H as (b & w1 & _ & [(_ & -> & _) | (_ & H)]).
  - simpl. split; [constructor|]. split; [reflexivity | constructor].
  - destruct H as (t & w2 & outputs & sp & w3 & v & w4 & st5 & w5
                   & _ & HB & _ & HL & _ & ->).
    apply recurrence_loop_count in HL as HL'. destruct HL' as (_ & Hsp & _).
    apply recurrence_loop_trace in HL. destruct HL as (_ & Hn & _).
    apply stageB_log in HB. destruct HB as (order & Hperm & ->).
    simpl in *. rewrite Hsp, Hn. simpl.
    split; [apply stamped_types|]. split; [reflexivity|].
    rewrite stamped_notes. apply Permutation_map, Hperm.
Qed.

Lemma refined_run_has_one_note_per_branch :
  exists r st w',
    runARDR_state 5 "p" high Sample.refined = Done ((r, st), w')
    /\ List.map type (entries (scratchpad st))
       = [note; hypothesis; note; hypothesis; hypothesis]
    /\ Forall (fun e => type e = note \/ type e = hypothesis) (entries (scratchpad st))
    /\ sharedArtifacts (scratchpad st) = ∅
    /\ Permutation (List.map branch (List.filter is_note (entries (scratchpad st))))
                   (List.map branchName (branchOutputs st)).
Proof.
  assert (E : exists r st w',
             runARDR_state 5 "p" high Sample.refined = Done ((r, st), w')
             /\ List.map type (entries (scratchpad st))
                = [note; hypothesis; note; hypothesis; hypothesis]).
  { eexists _, _, _. split; [vm_compute; reflexivity | reflexivity]. }
  destruct E as (r & st & w' & E & Ht). exists r, st, w'.
  split; [exact E|]. split; [exact Ht|].
  exact (scratchpad_has_one_note_per_branch 5 "p" high Sample.refined w' r st E).
Defined.

(** ** When the uncertainty is a number *)

Lemma blend_Fin reported a : exists q, blend reported (Fin a) = Fin q.
Proof. eexists. reflexivity. Qed.

(** X6. The uncertainty score a verification computes is NaN exactly when
    it is given no branch output; the verification always issues its two
    requests, counterexamples first, and its contradictions are those of
    the branch outputs, in order. This is for responses whose values have
    the types declared for their fields, the numbers being finite. *)
Theorem uncertainty_is_NaN_iff_no_branch_ran
    (prompt : string) (t : TriStructurePack) (outputs : list BranchOutput)
    (sp : Scratchpad) (w w' : World) (v : VerificationResult) :
  stageC_Verification prompt t outputs sp w = Done (v, w') ->
  (uncertaintyScore v = NaN <-> outputs = [])
  /\ allContradictions v = flat_map contradictions outputs
  /\ issued w' = issued w ++ Protocol.verification.
Proof.
  intros H. apply stageC_blend in H as Hb. destruct Hb as (reported & Hv).
  apply stageC_Done in H. destruct H as (_ & Hi & Hc).
  split; [|auto]. split.
  - intros E. destruct outputs as [|o l]; [reflexivity|].
    destruct (avgConfidence_mean (o :: l)) as (a & Ha & _); [discriminate|].
    rewrite Hv, Ha in E. destruct (blend_Fin reported a) as (q & Hq).
    rewrite Hq in E. discriminate E.
  - intros ->. rewrite Hv. reflexivity.
Qed.

Lemma certain_world_gives_a_number :
  exists v w',
    stageC_Verification "p" Sample.triPack [Sample.output "logic" 0.5]
      Sample.empty_scratchpad Sample.certain = Done (v, w')
    /\ (exists q, uncertaintyScore v = Fin q /\ q == 0.5)
    /\ (uncertaintyScore v = NaN <-> [Sample.output "logic" 0.5] = [])
    /\ allContradictions v = flat_map contradictions [Sample.output "logic" 0.5]
    /\ issued w' = issued Sample.certain ++ Protocol.verification.
Proof.
  assert (E : exists v w',
             stageC_Verification "p" Sample.triPack [Sample.output "logic" 0.5]
               Sample.empty_scratchpad Sample.certain = Done (v, w')
             /\ exists q, uncertaintyScore v = Fin q /\ q == 0.5).
  { eexists _, _. split; [vm_compute; reflexivity|].
    eexists. split; reflexivity. }
  destruct E as (v & w' & E & Hu). exists v, w'. split; [exact E|].
  split; [exact Hu|].
  exact (uncertainty_is_NaN_iff_no_branch_ran
           "p" Sample.triPack [Sample.output "logic" 0.5]
           Sample.empty_scratchpad Sample.certain w' v E).
Defined.

(** ** When no response parses *)













Ltac unparsed_tac :=
  let i := fresh "i" in
  let rq := fresh "rq" in
  let H := fresh "H" in
  intros i rq H;
  do 10 (destruct i as [|i]; [injection H as <-; vm_compute; reflexivity|]);
  destruct i; discriminate H.

(** A provider that answers in prose degrades in the same way. *)
Example prose_is_not_parsed :
  Degraded.unparsed Scene.prose (Protocol.full max ["logic"; "world"; "code"] []).
Proof. unparsed_tac. Qed.


(** ** The session *)

Lemma prefix_app t post : String.prefix t (t +:+ post) = true.
Proof.
  induction t as [|c t IH]; simpl; [destruct post; reflexivity|].
  destruct (ascii_dec c c) as [_|Hc]; [exact IH | exfalso; apply Hc; reflexivity].
Qed.

Lemma prefix_split t s :
  String.prefix t s = true -> exists post, s = t +:+ post.
Proof.
  revert s. induction t as [|c t IH]; intros s; simpl.
  - intros _. exists s. reflexivity.
  - destruct s as [|x s]; simpl; [discriminate|].
    destruct (ascii_dec c x) as [->|_]; [|discriminate].
    intros H. destruct (IH s H) as (post & ->). exists post. reflexivity.
Qed.

Section Trimming.

Import Text.

Lemma append_length a b :
  String.length (a +:+ b) = (String.length a + String.length b)%nat.
Proof. induction a as [|c a IH]; simpl; [reflexivity | rewrite IH; reflexivity]. Qed.

Lemma append_assoc (a b c : string) : (a +:+ b) +:+ c = a +:+ (b +:+ c).
Proof. induction a as [|x a IH]; simpl; [reflexivity | rewrite IH; reflexivity]. Qed.

Lemma append_nil_r (a : string) : a +:+ EmptyString = a.
Proof. induction a as [|x a IH]; simpl; [reflexivity | rewrite IH; reflexivity]. Qed.

Lemma slice_app ws rest : slice (String.length ws) (ws +:+ rest) = rest.
Proof. induction ws as [|c ws IH]; simpl; [destruct rest; reflexivity | exact IH]. Qed.

Lemma spaces_well_formed ws : List.In ws spaces -> well_formed ws = true.
Proof.
  assert (H : forallb well_formed spaces = true) by (vm_compute; reflexivity).
  intros Hin. exact (proj1 (List.forallb_forall _ _) H ws Hin).
Qed.

Lemma space_head ws :
  List.In ws spaces ->
  exists h tl,
    ws = String h tl /\ continues h = false
    /\ String.length ws = width h
    /\ forallb continues (list_ascii_of_string tl) = true.
Proof.
  intros Hin. apply spaces_well_formed in Hin. destruct ws as [|h tl]; [discriminate|].
  unfold well_formed in Hin. apply andb_prop in Hin. destruct Hin as [Hin Htl].
  apply andb_prop in Hin. destruct Hin as [Hh Hlen].
  exists h, tl. split; [reflexivity|]. split; [apply negb_true_iff, Hh|].
  split; [apply Nat.eqb_eq, Hlen | exact Htl].
Qed.

Lemma strip_Some s rest :
  strip s = Some rest -> exists ws, List.In ws spaces /\ s = ws +:+ rest.
Proof.
  unfold strip. destruct (List.find _ spaces) as [ws|] eqn:E; [|discriminate].
  intros [= <-]. apply List.find_some in E. destruct E as [Hin Hp].
  exists ws. split; [exact Hin|]. apply prefix_split in Hp.
  destruct Hp as (post & ->). rewrite slice_app. reflexivity.
Qed.

Lemma strip_None s ws :
  strip s = None -> List.In ws spaces -> String.prefix ws s = false.
Proof.
  unfold strip. destruct (List.find _ spaces) as [ws'|] eqn:E; [discriminate|].
  intros _ Hin. exact (List.find_none _ _ E ws Hin).
Qed.

Lemma strip_space ws rest : List.In ws spaces -> strip (ws +:+ rest) = Some rest.
Proof.
  intros Hin. unfold strip.
  destruct (List.find _ spaces) as [ws'|] eqn:E.
  - apply List.find_some in E. destruct E as [Hin' Hp].
    destruct (space_head ws Hin) as (h & tl & -> & _ & Hlen & _).
    destruct (space_head ws' Hin') as (h' & tl' & -> & _ & Hlen' & _).
    assert (Hh : h' = h).
    { simpl in Hp. destruct (ascii_dec h' h); [assumption | discriminate]. }
    subst h'. rewrite Hlen', <- Hlen. rewrite slice_app. reflexivity.
  - pose proof (List.find_none _ _ E ws Hin) as Hp. simpl in Hp.
    rewrite prefix_app in Hp. discriminate.
Qed.

Lemma strip_shorter s rest :
  strip s = Some rest -> (String.length rest < String.length s)%nat.
Proof.
  intros H. apply strip_Some in H. destruct H as (ws & Hin & ->).
  destruct (space_head ws Hin) as (h & tl & -> & _). rewrite append_length. simpl. lia.
Qed.

Lemma strip_nil : strip EmptyString = None.
Proof. reflexivity. Qed.

Lemma trimStart_from_fuel f :
  forall s g,
    (String.length s <= f)%nat -> (String.length s <= g)%nat ->
    trimStart_from f s = trimStart_from g s.
Proof.
  induction f as [|f IH]; intros s g Hf Hg.
  - destruct s; [|simpl in Hf; lia]. destruct g; reflexivity.
  - destruct g as [|g].
    + destruct s; [reflexivity | simpl in Hg; lia].
    + simpl. destruct (strip s) as [rest|] eqn:E; [|reflexivity].
      apply strip_shorter in E. apply IH; lia.
Qed.

Lemma trimStart_eq s :
  trimStart s = match strip s with
                | Some rest => trimStart rest
                | None => s
                end.
Proof.
  unfold trimStart. destruct s as [|c s]; [reflexivity|].
  cbn [String.length trimStart_from].
  destruct (strip (String c s)) as [rest|] eqn:E; [|reflexivity].
  apply strip_shorter in E. simpl in E. apply trimStart_from_fuel; lia.
Qed.

Lemma blank_from_fuel f :
  forall s g,
    (String.length s <= f)%nat -> (String.length s <= g)%nat ->
    blank_from f s = blank_from g s.
Proof.
  induction f as [|f IH]; intros s g Hf Hg.
  - destruct s; [|simpl in Hf; lia]. destruct g; reflexivity.
  - destruct g as [|g].
    + destruct s; [reflexivity | simpl in Hg; lia].
    + destruct s as [|c s]; [reflexivity|]. cbn [blank_from].
      destruct (strip (String c s)) as [rest|] eqn:E; [|reflexivity].
      apply strip_shorter in E. apply IH; lia.
Qed.

Lemma blank_eq c s :
  blank (String c s) = match strip (String c s) with
                       | Some rest => blank rest
                       | None => false
                       end.
Proof.
  unfold blank. cbn [String.length blank_from].
  destruct (strip (String c s)) as [rest|] eqn:E; [|reflexivity].
  apply strip_shorter in E. simpl in E. apply blank_from_fuel; lia.
Qed.

Lemma space_cons ws rest :
  List.In ws spaces -> exists h tl, ws +:+ rest = String h tl.
Proof.
  intros Hin. destruct (space_head ws Hin) as (h & tl & -> & _). simpl. eauto.
Qed.

Lemma blank_Blank s : blank s = true <-> Blank s.
Proof.
  split.
  - remember (String.length s) as n eqn:Hn. revert s Hn.
    induction n as [n IH] using lt_wf_ind. intros s Hn H.
    destruct s as [|c s]; [constructor|].
    rewrite blank_eq in H. destruct (strip (String c s)) as [rest|] eqn:E; [|discriminate].
    apply strip_shorter in E as Hlt. apply strip_Some in E.
    destruct E as (ws & Hin & ->). constructor; [exact Hin|].
    apply (IH (String.length rest)); [lia | reflexivity | exact H].
  - induction 1 as [|ws rest Hin _ IH]; [reflexivity|].
    destruct (space_cons ws rest Hin) as (h & tl & E).
    pose proof (strip_space ws rest Hin) as Hs. rewrite E in *.
    rewrite blank_eq, Hs. exact IH.
Qed.

Lemma Blank_app a b : Blank a -> Blank b -> Blank (a +:+ b).
Proof.
  induction 1 as [|ws rest Hin _ IH]; intros Hb; [exact Hb|].
  rewrite append_assoc. constructor; auto.
Qed.

Lemma trimStart_blank pre s : blank pre = true -> trimStart (pre +:+ s) = trimStart s.
Proof.
  intros H. apply blank_Blank in H. induction H as [|ws rest Hin _ IH]; [reflexivity|].
  rewrite append_assoc, trimStart_eq, strip_space by exact Hin. exact IH.
Qed.

Lemma trimStart_of_blank s : blank s = true -> trimStart s = EmptyString.
Proof.
  intros H. rewrite <- (append_nil_r s). rewrite trimStart_blank by exact H. reflexivity.
Qed.

Lemma trimStart_strip s : strip (trimStart s) = None.
Proof.
  remember (String.length s) as n eqn:Hn. revert s Hn.
  induction n as [n IH] using lt_wf_ind. intros s Hn.
  rewrite trimStart_eq. destruct (strip s) as [rest|] eqn:E; [|exact E].
  apply strip_shorter in E. apply (IH (String.length rest)); [lia | reflexivity].
Qed.

Lemma trimStart_split s : exists pre, Blank pre /\ s = pre +:+ trimStart s.
Proof.
  remember (String.length s) as n eqn:Hn. revert s Hn.
  induction n as [n IH] using lt_wf_ind. intros s Hn.
  rewrite trimStart_eq. destruct (strip s) as [rest|] eqn:E.
  - apply strip_shorter in E as Hlt. apply strip_Some in E.
    destruct E as (ws & Hin & ->).
    destruct (IH (String.length rest) ltac:(lia) rest eq_refl) as (pre & Hpre & Hrest).
    exists (ws +:+ pre). split; [constructor; assumption|].
    rewrite append_assoc, <- Hrest. reflexivity.
  - exists EmptyString. split; [constructor | reflexivity].
Qed.

Lemma trimStart_fixed s : strip s = None -> trimStart s = s.
Proof. intros H. rewrite trimStart_eq, H. reflexivity. Qed.

Lemma strip_app s rest t : strip s = Some rest -> strip (s +:+ t) = Some (rest +:+ t).
Proof.
  intros H. apply strip_Some in H. destruct H as (ws & Hin & ->).
  rewrite append_assoc. apply strip_space, Hin.
Qed.

(** Two prefixes of a text: one is a prefix of the other. *)
Lemma prefixes a b a' b' :
  a +:+ b = a' +:+ b' ->
  (exists t, a = a' +:+ t /\ b' = t +:+ b)
  \/ (exists t, t <> EmptyString /\ a' = a +:+ t /\ b = t +:+ b').
Proof.
  revert a'. induction a as [|x a IH]; intros a' E.
  - destruct a' as [|y a'].
    + left. exists EmptyString. split; [reflexivity | exact (eq_sym E)].
    + right. exists (String y a'). split; [discriminate|]. split; [reflexivity | exact E].
  - destruct a' as [|y a'].
    + left. exists (String x a). split; [reflexivity|]. simpl in E. exact (eq_sym E).
    + simpl in E. injection E as -> E.
      destruct (IH a' E) as [(t & -> & ->) | (t & Ht & -> & ->)].
      * left. exists t. split; reflexivity.
      * right. exists t. split; [exact Ht|]. split; reflexivity.
Qed.

Lemma straddle u post :
  strip u = None -> u <> EmptyString -> Blank post -> strip (u +:+ post) = None.
Proof.
  intros Hu Hne Hpost. destruct (strip (u +:+ post)) as [r|] eqn:E; [|reflexivity].
  exfalso. apply strip_Some in E. destruct E as (ws & Hin & E).
  destruct (prefixes u post ws r E) as [(t & -> & _) | (t & Ht & -> & ->)].
  - pose proof (strip_None _ ws Hu Hin) as Hp. rewrite prefix_app in Hp. discriminate.
  - destruct (space_head _ Hin) as (h & tl & Ews & _ & _ & Htl).
    destruct u as [|x u]; [contradiction|]. simpl in Ews. injection Ews as -> <-.
    destruct t as [|y t]; [contradiction|].
    assert (Hy : continues y = true).
    { clear - Htl. induction u as [|z u IH]; simpl in Htl.
      - apply andb_prop in Htl. tauto.
      - apply andb_prop in Htl. apply IH. tauto. }
    inversion Hpost as [E0 | ws' rest' Hin' _ E'].
    destruct (space_head _ Hin') as (h' & tl' & -> & Hh' & _).
    simpl in E'. injection E' as -> _. congruence.
Qed.

Lemma Blank_app_l a post : Blank post -> Blank (a +:+ post) -> Blank a.
Proof.
  intros Hpost. remember (String.length a) as n eqn:Hn. revert a Hn.
  induction n as [n IH] using lt_wf_ind. intros a Hn H.
  destruct a as [|c a]; [constructor|].
  destruct (strip (String c a)) as [a'|] eqn:E.
  - apply strip_shorter in E as Hlt.
    pose proof (strip_app _ _ post E) as E2.
    apply strip_Some in E. destruct E as (ws & Hin & Ea). rewrite Ea.
    constructor; [exact Hin|].
    apply (IH (String.length a')); [lia | reflexivity|].
    apply blank_Blank in H. change (String c a +:+ post) with (String c (a +:+ post)) in *.
    rewrite blank_eq, E2 in H. apply blank_Blank, H.
  - exfalso. pose proof (straddle _ post E ltac:(discriminate) Hpost) as E2.
    apply blank_Blank in H. change (String c a +:+ post) with (String c (a +:+ post)) in *.
    rewrite blank_eq, E2 in H. discriminate.
Qed.

Lemma blank_padded a post : blank post = true -> blank (a +:+ post) = blank a.
Proof.
  intros Hpost. apply blank_Blank in Hpost.
  destruct (blank a) eqn:Ea.
  - apply blank_Blank. apply Blank_app; [apply blank_Blank, Ea | exact Hpost].
  - destruct (blank (a +:+ post)) eqn:E; [|reflexivity].
    apply blank_Blank in E. apply Blank_app_l in E; [|exact Hpost].
    apply blank_Blank in E. congruence.
Qed.

Lemma trimEnd_of_blank post : blank post = true -> trimEnd post = EmptyString.
Proof. intros H. destruct post; [reflexivity|]. cbn [trimEnd]. rewrite H. reflexivity. Qed.

Lemma trimEnd_blank s post : blank post = true -> trimEnd (s +:+ post) = trimEnd s.
Proof.
  intros H. induction s as [|c s IH].
  - apply trimEnd_of_blank, H.
  - change (String c s +:+ post) with (String c (s +:+ post)). cbn [trimEnd].
    change (String c (s +:+ post)) with (String c s +:+ post) at 1.
    rewrite blank_padded by exact H. rewrite IH. reflexivity.
Qed.

Lemma trim_padding pre s post :
  blank pre = true -> blank post = true -> trim (pre +:+ s +:+ post) = trim s.
Proof.
  intros Hpre Hpost. unfold trim. rewrite trimStart_blank by exact Hpre.
  destruct (trimStart_split s) as (ws & Hws & Es).
  pose proof (trimStart_strip s) as Hs.
  destruct (trimStart s) as [|c u] eqn:Eu.
  - assert (Hb : blank (s +:+ post) = true).
    { rewrite blank_padded by exact Hpost. rewrite Es, append_nil_r.
      apply blank_Blank, Hws. }
    rewrite trimStart_of_blank by exact Hb. reflexivity.
  - rewrite Es at 1. rewrite append_assoc.
    rewrite trimStart_blank by (apply blank_Blank, Hws).
    rewrite trimStart_fixed
      by (apply straddle; [exact Hs | discriminate | apply blank_Blank, Hpost]).
    apply trimEnd_blank, Hpost.
Qed.

Lemma trimEnd_split u : exists tail, Blank tail /\ u = trimEnd u +:+ tail.
Proof.
  induction u as [|c u (tail & Htail & IH)].
  - exists EmptyString. split; [constructor | reflexivity].
  - cbn [trimEnd]. destruct (blank (String c u)) eqn:E.
    + exists (String c u). split; [apply blank_Blank, E | reflexivity].
    + exists tail. split; [exact Htail|]. simpl. rewrite <- IH. reflexivity.
Qed.

Lemma trimEnd_idempotent s : trimEnd (trimEnd s) = trimEnd s.
Proof.
  induction s as [|c s IH]; [reflexivity|].
  cbn [trimEnd]. destruct (blank (String c s)) eqn:E; [reflexivity|].
  cbn [trimEnd]. rewrite IH.
  destruct (blank (String c (trimEnd s))) eqn:E'; [|reflexivity].
  exfalso. destruct (trimEnd_split s) as (tail & Htail & Es).
  assert (Hb : blank (String c s) = true).
  { rewrite Es. change (String c (trimEnd s +:+ tail))
      with (String c (trimEnd s) +:+ tail).
    rewrite blank_padded by (apply blank_Blank, Htail). exact E'. }
  congruence.
Qed.

Lemma trim_idempotent s : trim (trim s) = trim s.
Proof.
  unfold trim. pose proof (trimStart_strip s) as Hs.
  destruct (trimEnd_split (trimStart s)) as (tail & Htail & Eu).
  assert (Hfix : strip (trimEnd (trimStart s)) = None).
  { destruct (strip (trimEnd (trimStart s))) as [r|] eqn:E; [|reflexivity].
    apply (strip_app _ _ tail) in E. rewrite <- Eu, Hs in E. discriminate. }
  rewrite trimStart_fixed by exact Hfix. apply trimEnd_idempotent.
Qed.

End Trimming.




(** X15. What the session hands to the pipeline is the line without the
    white space around it -- the white space and the line terminators of
    ECMAScript, the no-break space and the byte order mark among them: it
    is never empty, trimming it again changes nothing, it is none of the
    words exit, quit and debug in any case, and it does not begin with
    "tier " in any case -- a question that begins so is taken for a
    command and never asked. *)
Theorem pipeline_prompts_are_trimmed (s : Session) (input p : string) :
  promptUser s input = Run p ->
  p = Text.trim input
  /\ p <> ""
  /\ Text.trim p = p
  /\ Text.startsWith (Text.toLowerCase p) "tier " = false
  /\ ~ List.In (Text.toLowerCase p) ["exit"; "quit"; "debug"].
Proof.
  unfold promptUser.
  destruct (String.eqb (Text.toLowerCase (Text.trim input)) "exit") eqn:Eexit;
    [discriminate|].
  destruct (String.eqb (Text.toLowerCase (Text.trim input)) "quit") eqn:Equit;
    [discriminate|].
  simpl. destruct (Text.startsWith _ _) eqn:Etier.
  { destruct (valid _); discriminate. }
  destruct (String.eqb (Text.toLowerCase (Text.trim input)) "debug") eqn:Edebug;
    [discriminate|].
  destruct (String.eqb (Text.trim input) "") eqn:Eempty; [discriminate|].
  intros [= <-]. split; [reflexivity|].
  split; [apply String.eqb_neq, Eempty|].
  split; [apply trim_idempotent|]. split; [exact Etier|].
  apply String.eqb_neq in Eexit, Equit, Edebug.
  simpl. intros [H | [H | [H | []]]]; congruence.
Qed.

Lemma padded_question_is_trimmed :
  "What is 2+2?"
  = Text.trim (Text.encode 160 +:+ "  What is 2+2? " +:+ Text.encode 65279)
  /\ "What is 2+2?" <> ""
  /\ Text.trim "What is 2+2?" = "What is 2+2?"
  /\ Text.startsWith (Text.toLowerCase "What is 2+2?") "tier " = false
  /\ ~ List.In (Text.toLowerCase "What is 2+2?") ["exit"; "quit"; "debug"].
Proof.
  apply (pipeline_prompts_are_trimmed
           (main []) (Text.encode 160 +:+ "  What is 2+2? " +:+ Text.encode 65279)
           "What is 2+2?").
  vm_compute. reflexivity.
Defined.

(** X16. White space before and after a line -- any run of the white
    space characters and line terminators of ECMAScript -- makes no
    difference to what the session does with it. *)
Theorem session_ignores_padding (s : Session) (pre input post : string) :
  Text.blank pre = true -> Text.blank post = true ->
  promptUser s (pre +:+ input +:+ post) = promptUser s input.
Proof.
  intros Hpre Hpost. unfold promptUser.
  rewrite trim_padding by assumption. reflexivity.
Qed.

Lemma padded_command_is_a_command :
  promptUser (main []) ((Text.encode 160 +:+ " ") +:+ "tier low" +:+ Text.encode 12288)
  = promptUser (main []) "tier low".
Proof.
  apply (session_ignores_padding
           (main []) (Text.encode 160 +:+ " ") "tier low" (Text.encode 12288));
    vm_compute; reflexivity.
Defined.





(** X18. With the key as it is shipped the program exits when it is
    loaded, before the client is initialized; with any other key the
    client is initialized before the session starts, and stays so: no run
    of the session fails because the client is not initialized, and, for
    responses whose values have the types declared for their fields, the
    only error its handler can catch is the [TypeError] of the instruction
    lookup. *)
Theorem session_runs_with_the_client_initialized
    (OPENROUTER_API_KEY : string) (w0 w : World) :
  load OPENROUTER_API_KEY w0 = Some w ->
  OPENROUTER_API_KEY <> OPENROUTER_API_KEY_placeholder
  /\ load OPENROUTER_API_KEY_placeholder w0 = None
  /\ openaiClient w = true
  /\ forall w' fuel prompt tier m,
       extends w w' ->
       runARDR fuel prompt tier w' = Throw m ->
       m <> not_initialized /\ m = lookup_error.
Proof.
  unfold load. destruct (String.eqb_spec OPENROUTER_API_KEY
                           OPENROUTER_API_KEY_placeholder) as [|Hkey];
    [discriminate|].
  intros [= <-]. split; [exact Hkey|]. split; [reflexivity|].
  split; [reflexivity|].
  intros w' fuel prompt tier m (C & _) H.
  unfold runARDR in H. apply bind_Throw in H.
  destruct H as [H | (r & w1 & _ & H)]; [|discriminate].
  apply runARDR_state_Throw in H; [|rewrite C; reflexivity].
  destruct H as [-> _]. split; [discriminate | reflexivity].
Qed.

Lemma session_catches_the_lookup_error :
  "sk-or-v1-0000" <> OPENROUTER_API_KEY_placeholder
  /\ load OPENROUTER_API_KEY_placeholder (Env.uninitialized Scene.inherited_branch)
     = None
  /\ load "sk-or-v1-0000" (Env.uninitialized Scene.inherited_branch)
     = Some Scene.inherited_branch
  /\ runARDR 5 "p" high Scene.inherited_branch = Throw lookup_error
  /\ lookup_error <> not_initialized.
Proof.
  assert (L : load "sk-or-v1-0000" (Env.uninitialized Scene.inherited_branch)
              = Some Scene.inherited_branch) by reflexivity.
  assert (E : runARDR 5 "p" high Scene.inherited_branch = Throw lookup_error)
    by (vm_compute; reflexivity).
  destruct (session_runs_with_the_client_initialized
              "sk-or-v1-0000" (Env.uninitialized Scene.inherited_branch)
              Scene.inherited_branch L) as (Hkey & Hexit & _ & Hcatch).
  split; [exact Hkey|]. split; [exact Hexit|]. split; [exact L|].
  split; [exact E|].
  exact (proj1 (Hcatch Scene.inherited_branch 5%nat "p" high lookup_error
                  (extends_refl _) E)).
Defined.

(** ** Weak points name branches by substring *)



(** ** The verification result follows the branch outputs *)

Lemma recurrence_pass_fresh prompt st w st' c w' :
  recurrence_pass prompt st w = Done ((st', c), w') ->
  fresh prompt [] w st -> fresh prompt [] w' st'.
Proof.
  unfold recurrence_pass. intros H (t0 & v0 & w1 & w2 & HC0 & Ht0 & Hv0 & Hr0 & Hi0).
  apply bind_Done in H. destruct H as (t & w1' & H1 & H).
  apply of_null_Done in H1. destruct H1 as [Ht ->].
  apply bind_Done in H. destruct H as (v & w2' & H2 & H).
  apply of_null_Done in H2. destruct H2 as [Hv ->].
  apply bind_Done in H. destruct H as (b & w3 & H3 & H).
  apply of_null_Done in H3. destruct H3 as [_ ->].
  apply bind_Done in H. destruct H as ([recur outputs] & w4 & HD & H).
  apply frames_stageD in HD as HextD.
  apply stageD_Done in HD. destruct HD as (_ & _ & Hi & Hsame & _).
  simpl in H. destruct recur.
  - apply bind_Done in H. destruct H as (v' & w5 & HC & H).
    apply ret_Done in H. destruct H as [[= -> ->] ->].
    apply frames_stageC in HC as HextC.
    exists t, v', w4, w5. simpl in *. split; [exact HC|].
    split; [exact Ht|]. split; [reflexivity|].
    split; [symmetry; apply HextC | symmetry; apply app_nil_r].
  - apply ret_Done in H. destruct H as [[= -> ->] ->].
    rewrite (Hsame eq_refl). exists t0, v0, w1, w2. simpl.
    split; [exact HC0|]. split; [exact Ht0|]. split; [exact Hv0|].
    split.
    + rewrite Hr0. symmetry. apply HextD.
    + rewrite Hi, app_nil_r. exact Hi0.
Qed.

(** X20. The verification result a completed run hands to the synthesis
    is never stale: it is the result of the last verification of the run,
    and that verification was given the branch outputs (and the tri-pack
    and the scratchpad) the state holds at the end, since every pass that
    changes the outputs verifies them again; after it the run issues the
    synthesis request and no other. On the fast path there is no
    verification result and no branch output. *)
Theorem synthesis_sees_a_fresh_verification
    (fuel : nat) (prompt : string) (tier : NexusTier) (w w' : World)
    (r : string) (st : ARDRState) :
  runARDR_state fuel prompt tier w = Done ((r, st), w') ->
  fresh prompt [synthesis_request tier] w' st
  \/ (verification st = None /\ branchOutputs st = []).
Proof.
  intros H. apply runARDR_state_Done in H.
  destruct H as (b & w1 & H0 & [(_ & -> & _) | (_ & H)]).
  - right. split; reflexivity.
  - destruct H as (t & w2 & outputs & sp & w3 & v & w4 & st5 & w5
                   & _ & _ & HC & HL & HF & ->).
    left. apply stage0_Done in H0. destruct H0 as (_ & H0 & _).
    apply budget_of_chief in H0.
    apply frames_stageC in HC as HextC.
    assert (H5 : fresh prompt [] w5 st5).
    { set (P := fun (s : ARDRState) (w0 : World) => fresh prompt [] w0 s).
      change (P st5 w5).
      eapply (recurrence_loop_ind prompt P); [ | exact HL | ]; subst P; simpl.
      - intros s w0 b0 s' c' w0' Hs _ _ Hp. eapply recurrence_pass_fresh; eassumption.
      - exists t, v, w3, w4. simpl. split; [exact HC|].
        split; [reflexivity|]. split; [reflexivity|].
        split; [symmetry; apply HextC | symmetry; apply app_nil_r]. }
    apply recurrence_loop_count in HL as Hcount. destruct Hcount as (Hbud & _).
    apply recurrence_loop_trace in HL. destruct HL as (Htier & _).
    apply frames_stageFinal in HF as HextF.
    apply stageFinal_Done in HF. destruct HF as (b5 & Hb5 & _ & _ & Hi).
    rewrite Hbud in Hb5. simpl in Hb5. injection Hb5 as <-.
    simpl in Htier. rewrite Htier, H0 in Hi.
    destruct H5 as (t5 & v5 & w1' & w2' & HC5 & Ht5 & Hv5 & Hr5 & Hi5).
    exists t5, v5, w1', w2'. simpl. split; [exact HC5|].
    split; [exact Ht5|]. split; [exact Hv5|]. split.
    + rewrite Hr5. symmetry. apply HextF.
    + rewrite Hi, Hi5, app_nil_r. reflexivity.
Qed.

Lemma refined_run_has_a_fresh_verification :
  exists r st w',
    runARDR_state 5 "p" high Sample.refined = Done ((r, st), w')
    /\ recurrenceCount st = 1%nat
    /\ (fresh "p" [synthesis_request high] w' st
        \/ (verification st = None /\ branchOutputs st = [])).
Proof.
  assert (E : exists r st w',
             runARDR_state 5 "p" high Sample.refined = Done ((r, st), w')
             /\ recurrenceCount st = 1%nat).
  { eexists _, _, _. split; [vm_compute; reflexivity | reflexivity]. }
  destruct E as (r & st & w' & E & Hc). exists r, st, w'.
  split; [exact E|]. split; [exact Hc|].
  exact (synthesis_sees_a_fresh_verification 5 "p" high Sample.refined w' r st E).
Defined.
